(** * DockerIPRetrieval: container status pipeline, port listing and name map

    A shallow embedding of [src/src/utils.js] and of the CLI driver in
    [src/docker-ip-retrieval.js] (the version that imports [./src/utils.js]).

    - JavaScript strings are modelled as [string], read as sequences of code
      units in the range 0..255.
    - The container engine, the HTTP client and the prompt are oracles over an
      abstract world [W]; every call is recorded in a trace, so that "no call is
      made" is a statement about the trace.
    - An [async] function is a computation in a state-and-exception monad;
      [throw]/rejection is [Thrown], [process.exit] is [Exited]. *)

From Stdlib Require Import String Ascii List ZArith NArith Bool Lia Permutation.
Import ListNotations.
Open Scope string_scope.
Open Scope list_scope.

(* ------------------------------------------------------------------ *)
(** ** JavaScript string primitives used by the sources *)

Module Js.

Definition code (c : ascii) : N := N_of_ascii c.

(** White space and line terminators removed by [String.prototype.trim],
    restricted to code units below 256. *)
Definition is_space (c : ascii) : bool :=
  let n := code c in
  ((9 <=? n) && (n <=? 13) || (n =? 32) || (n =? 160))%N.

Fixpoint trimStart (s : string) : string :=
  match s with
  | EmptyString => EmptyString
  | String c r => if is_space c then trimStart r else s
  end.

Fixpoint trimEnd (s : string) : string :=
  match s with
  | EmptyString => EmptyString
  | String c r =>
      let r' := trimEnd r in
      if is_space c && (r' =? "") then "" else String c r'
  end.

Definition trim (s : string) : string := trimEnd (trimStart s).

(** [c] is in the class [[ -~]]. *)
Definition is_printable (c : ascii) : bool :=
  let n := code c in ((32 <=? n) && (n <=? 126))%N.

(** [s.replace(/[^ -~]+/g, "")] *)
Fixpoint strip_nonprintable (s : string) : string :=
  match s with
  | EmptyString => EmptyString
  | String c r =>
      if is_printable c then String c (strip_nonprintable r)
      else strip_nonprintable r
  end.

Definition is_digit (c : ascii) : bool :=
  let n := code c in ((48 <=? n) && (n <=? 57))%N.

(** The class [[0-9.]]. *)
Definition is_digit_or_dot (c : ascii) : bool :=
  is_digit c || (code c =? 46)%N.

Fixpoint all_chars (p : ascii -> bool) (s : string) : bool :=
  match s with
  | EmptyString => true
  | String c r => p c && all_chars p r
  end.

(** [/^[0-9.]+$/.test(s)] *)
Definition test_digits_dots (s : string) : bool :=
  match s with
  | EmptyString => false
  | String _ _ => all_chars is_digit_or_dot s
  end.

Definition lower_char (c : ascii) : ascii :=
  let n := code c in
  if ((65 <=? n) && (n <=? 90))%N
     || ((192 <=? n) && (n <=? 222) && negb (n =? 215))%N
  then ascii_of_N (n + 32) else c.

Fixpoint toLowerCase (s : string) : string :=
  match s with
  | EmptyString => EmptyString
  | String c r => String (lower_char c) (toLowerCase r)
  end.

(** [hay.includes(needle)] *)
Fixpoint includes (needle hay : string) : bool :=
  prefix needle hay
  || match hay with
     | EmptyString => false
     | String _ r => includes needle r
     end.

(** [s.replace(c, "")] for a one-character pattern string: only the first
    occurrence is removed. *)
Fixpoint remove_first (c : ascii) (s : string) : string :=
  match s with
  | EmptyString => EmptyString
  | String d r => if Ascii.eqb c d then r else String d (remove_first c r)
  end.

(** [s.split(c)] for a one-character separator. *)
Fixpoint split (c : ascii) (s : string) : list string :=
  match s with
  | EmptyString => [""]
  | String d r =>
      if Ascii.eqb c d then "" :: split c r
      else match split c r with
           | [] => [String d ""]
           | w :: ws => String d w :: ws
           end
  end.

(** [l.join(sep)] *)
Definition join (sep : string) (l : list string) : string :=
  String.concat sep l.

(** Truthiness of a string value. *)
Definition truthy (s : string) : bool := negb (s =? "").

(** [x || d] where [x] is a string or [undefined]. *)
Definition or_default (x : option string) (d : string) : string :=
  match x with
  | Some s => if truthy s then s else d
  | None => d
  end.

End Js.

(* ------------------------------------------------------------------ *)
(** ** Ordinary objects used as string-keyed maps

    Own property keys are enumerated with array indices first, in ascending
    numeric order, then the other string keys in creation order; assigning to
    an existing key keeps its position. *)

Module JsObject.

Definition t (V : Type) : Type := list (string * V).

Fixpoint digits_value (acc : N) (s : string) : N :=
  match s with
  | EmptyString => acc
  | String c r => digits_value (acc * 10 + (Js.code c - 48))%N r
  end.

(** [Some n] when [k] is the canonical decimal form of an array index
    [n < 2^32 - 1]. *)
Definition array_index (k : string) : option N :=
  match k with
  | EmptyString => None
  | String c r =>
      if Js.all_chars Js.is_digit k
         && ((negb (Js.code c =? 48)%N) || (r =? ""))
         && (String.length k <=? 10)%nat
      then let n := digits_value 0 k in
           if (n <? 4294967295)%N then Some n else None
      else None
  end.

Fixpoint get {V} (k : string) (o : t V) : option V :=
  match o with
  | [] => None
  | (k', v) :: r => if k =? k' then Some v else get k r
  end.

Definition has {V} (k : string) (o : t V) : bool :=
  match get k o with Some _ => true | None => false end.

Fixpoint update {V} (k : string) (v : V) (o : t V) : t V :=
  match o with
  | [] => []
  | (k', v') :: r =>
      if k =? k' then (k', v) :: r else (k', v') :: update k v r
  end.

Fixpoint insert_index {V} (n : N) (k : string) (v : V) (o : t V) : t V :=
  match o with
  | [] => [(k, v)]
  | (k', v') :: r =>
      match array_index k' with
      | Some m =>
          if (n <? m)%N then (k, v) :: o
          else (k', v') :: insert_index n k v r
      | None => (k, v) :: o
      end
  end.

(** [o[k] = v] (equivalently, defining the data property [k]). *)
Definition set {V} (k : string) (v : V) (o : t V) : t V :=
  if has k o then update k v o
  else match array_index k with
       | Some n => insert_index n k v o
       | None => o ++ [(k, v)]
       end.

(** The entries of [l] assigned to [o] one after the other. *)
Definition assign_all {V} (l : list (string * V)) (o : t V) : t V :=
  fold_left (fun o kv => set (fst kv) (snd kv) o) l o.

(** [Object.fromEntries(l)] *)
Definition fromEntries {V} (l : list (string * V)) : t V :=
  assign_all l [].

Definition entries {V} (o : t V) : list (string * V) := o.
Definition keys {V} (o : t V) : list string := map fst o.
Definition values {V} (o : t V) : list V := map snd o.

End JsObject.


(* ------------------------------------------------------------------ *)
(** ** Values exchanged with the outside world *)

(** A thrown value: an [Error] object with its [name] and [message]. What
    the libraries throw or reject with is taken to be such an object. *)
Record JsError : Type := mkError { err_name : string; err_message : string }.

(** [new Error(msg)] *)
Definition new_Error (msg : string) : JsError := mkError "Error" msg.

(** The text of [err.message || err] inside a template literal: the message,
    or else [String(err)], which for an empty message is the error's name. *)
Definition message_or_self (e : JsError) : string :=
  if Js.truthy (err_message e) then err_message e else err_name e.

(** What an outside call answers: a value, or a rejection. *)
Inductive Reply (A : Type) : Type :=
| Ok (a : A)
| Fail (e : JsError).
Arguments Ok {A} a.
Arguments Fail {A} e.

(** [{ HostIp, HostPort }] *)
Record Binding : Type := mkBinding { HostIp : string; HostPort : string }.

(** The fields of a container's inspect data that the program reads:
    [Name], [State.Running], [State.Status], [Os], [NetworkSettings.Ports].
    [Ports] lists the ports in the order [Object.entries] gives them; a port
    maps to [null] or to an array of bindings. *)
Record InspectData : Type := mkInspect {
  Name : option string;
  Running : bool;
  Status : string;
  Os : option string;
  Ports : option (list (string * option (list Binding)))
}.

(** One element of [docker.listContainers({ all: true })]. *)
Record ContainerInfo : Type := mkContainer {
  Names : option (list string);
  Id : string
}.

(** What the engine delivers for one exec: the stream's chunks and the
    [ExitCode] of the finished exec ([null] is [None]). *)
Record ExecRaw : Type := mkExecRaw {
  chunks : list string;
  ExitCode : option Z
}.

(** The value of [await response.json()]: [null], a value on which the
    three properties read are all [undefined], or an object of which
    [status], [country] and [city] are read (each a string, or [undefined]). *)
Inductive JsonBody : Type :=
| JsonNull
| JsonPrimitive
| JsonObject (status country city : option string).

(** A fetch response; [json] is the outcome of parsing its body. *)
Record Response : Type := mkResponse { json : Reply JsonBody }.

(** A row of the status table: [[name, ipOrStatus, location]]. *)
Definition StatusRow : Type := (string * string * string)%type.

(** A row of the ports table: [[name, ports]]. *)
Definition PortRow : Type := (string * string)%type.

(** Observable calls and outputs, in the order they happen. A request is
    recorded when it is issued. [EvStderrError label e] is
    [console.error(label, e)] with the error object [e] itself as argument,
    which is printed as an inspected object with its stack. *)
Inductive Event : Type :=
| EvPing
| EvListContainers
| EvInspect (id : string)
| EvExec (id : string) (cmd : list string)
| EvFetch (url : string)
| EvPrompt (choices : list string)
| EvStdout (line : string)
| EvStderr (line : string)
| EvStderrError (label : string) (e : JsError)
| EvPortsTable (rows : list PortRow)
| EvResultsTable (rows : list StatusRow) (colWidths : list Z).

(** The outside world: the engine behind [dockerode], [node-fetch], the
    [enquirer] prompt and the environment. Every request is answered; a
    request or a prompt that never settles is outside the model.
    [arrival w n] says which of [n] answers that are under way arrives next,
    counted from the oldest request and taken modulo [n]: 0 is the oldest. *)
Record Engine (W : Type) : Type := mkEngine {
  ping : W -> Reply unit * W;
  listContainers : W -> Reply (list ContainerInfo) * W;
  inspect : string -> W -> Reply InspectData * W;
  exec : string -> list string -> W -> Reply ExecRaw * W;
  fetch : string -> W -> Reply Response * W;
  prompt : list string -> W -> Reply string * W;
  env_DEBUG : bool;
  arrival : W -> nat -> nat
}.
Arguments ping {W} _ _.
Arguments listContainers {W} _ _.
Arguments inspect {W} _ _ _.
Arguments exec {W} _ _ _ _.
Arguments fetch {W} _ _ _.
Arguments prompt {W} _ _ _.
Arguments env_DEBUG {W} _.
Arguments arrival {W} _ _ _.

(* ------------------------------------------------------------------ *)
(** ** Computations: state, exceptions, process exit *)

Inductive Outcome (A : Type) : Type :=
| Returned (a : A)
| Thrown (e : JsError)
| Exited (code : Z).
Arguments Returned {A} a.
Arguments Thrown {A} e.
Arguments Exited {A} code.

Record State (W : Type) : Type := mkState { world : W; trace : list Event }.
Arguments mkState {W} _ _.
Arguments world {W} _.
Arguments trace {W} _.

Definition M (W A : Type) : Type := State W -> Outcome A * State W.

Definition ret {W A} (a : A) : M W A := fun s => (Returned a, s).

Definition bind {W A B} (m : M W A) (k : A -> M W B) : M W B :=
  fun s =>
    match m s with
    | (Returned a, s') => k a s'
    | (Thrown e, s') => (Thrown e, s')
    | (Exited c, s') => (Exited c, s')
    end.

Definition throw {W A} (e : JsError) : M W A := fun s => (Thrown e, s).

(** [process.exit(code)] *)
Definition process_exit {W A} (code : Z) : M W A := fun s => (Exited code, s).

(** [try { m } catch (err) { h err }] *)
Definition try_catch {W A} (m : M W A) (h : JsError -> M W A) : M W A :=
  fun s =>
    match m s with
    | (Thrown e, s') => h e s'
    | r => r
    end.

(** Record an output. *)
Definition emit {W} (ev : Event) : M W unit :=
  fun s => (Returned tt, mkState (world s) (trace s ++ [ev])).

(** Await an outside call: it is recorded, then answered by the oracle. *)
Definition call {W A} (ev : Event) (oracle : W -> Reply A * W) : M W A :=
  fun s =>
    let (r, w') := oracle (world s) in
    let s' := mkState w' (trace s ++ [ev]) in
    match r with
    | Ok a => (Returned a, s')
    | Fail e => (Thrown e, s')
    end.

(** What [console.error(label, err.message || err)] writes: the label and
    the message when there is one, the label and the error object itself
    otherwise. *)
Definition console_event (label : string) (e : JsError) : Event :=
  if Js.truthy (err_message e)
  then EvStderr (label ++ " " ++ err_message e)
  else EvStderrError label e.

Definition console_error {W} (label : string) (e : JsError) : M W unit :=
  emit (console_event label e).

(** Computations that never end the process. *)
Definition no_exit {W A} (m : M W A) : Prop :=
  forall s c s', m s <> (Exited c, s').

Declare Scope js_scope.
Delimit Scope js_scope with js.
Notation "x <- c ;; k" := (bind c (fun x => k))
  (at level 61, c at next level, right associativity) : js_scope.
Notation "c ;;; k" := (bind c (fun _ => k))
  (at level 61, right associativity) : js_scope.
Open Scope js_scope.

(* ------------------------------------------------------------------ *)
(** ** src/src/utils.js *)

(** [{ output, exitCode }] as returned by [runCommand]. *)
Record ExecResult : Type := mkExecResult {
  output : string;
  exitCode : option Z
}.

(** The guard [!containerId || typeof containerId !== "string"] on a string
    argument. *)
Definition invalid_arg (x : string) : bool := negb (Js.truthy x).

(** [`${b.HostIp}:${b.HostPort}->${containerPort}`] *)
Definition format_binding (containerPort : string) (b : Binding) : string :=
  HostIp b ++ ":" ++ HostPort b ++ "->" ++ containerPort.

(** The callback given to [Object.entries(ports).map]. *)
Definition format_port (entry : string * option (list Binding))
  : option string :=
  let (containerPort, bindings) := entry in
  match bindings with
  | None => None
  | Some [] => None
  | Some bs => Some (Js.join ", " (map (format_binding containerPort) bs))
  end.

(** [.filter(Boolean)] on an array of strings and [null]s. *)
Fixpoint filter_Boolean (l : list (option string)) : list string :=
  match l with
  | [] => []
  | Some s :: r => if Js.truthy s then s :: filter_Boolean r
                   else filter_Boolean r
  | None :: r => filter_Boolean r
  end.

Definition format_ports (ports : list (string * option (list Binding)))
  : list string :=
  filter_Boolean (map format_port ports).

(** [Names?.[0]?.replace("/", "") || "Unknown"] *)
Definition map_key (c : ContainerInfo) : string :=
  Js.or_default
    (match Names c with
     | Some (n :: _) => Some (Js.remove_first "/" n)
     | _ => None
     end)
    "Unknown".

(** [containerData.Name ? containerData.Name.replace("/", "")
                        : "Unknown Container"] *)
Definition display_name (d : InspectData) : string :=
  match Name d with
  | Some n => if Js.truthy n then Js.remove_first "/" n
              else "Unknown Container"
  | None => "Unknown Container"
  end.

(** [`${x}`] for a string or [undefined]. *)
Definition template (x : option string) : string :=
  match x with Some s => s | None => "undefined" end.

Definition curlCmd : string := "curl -s https://api.ipify.org".

(** The local [cmd] of [getPublicIP], from the OS type. *)
Definition command_for (osType : string) : list string :=
  if Js.includes "win" osType
  then Js.split " " curlCmd
  else ["sh"; "-c"; curlCmd].

(** The test [exitCode === 0]. *)
Definition exit_zero (exitCode : option Z) : bool :=
  match exitCode with Some 0%Z => true | _ => false end.

Section Utils.

Context {W : Type} (E : Engine W).

Definition getContainerPorts (containerId : string) : M W (list string) :=
  if invalid_arg containerId then
    throw (new_Error "Invalid containerId provided to getContainerPorts")
  else
    try_catch
      (data <- call (EvInspect containerId) (inspect E containerId) ;;
       let ports := match Ports data with Some p => p | None => [] end in
       ret (format_ports ports))
      (fun err =>
         throw (new_Error ("Failed to get ports for container "
                           ++ containerId ++ ": " ++ message_or_self err))).

Definition isDockerRunning : M W bool :=
  try_catch
    (call EvPing (ping E) ;;; ret true)
    (fun err =>
       (if env_DEBUG E
        then console_error "[DEBUG] Docker ping failed:" err
        else ret tt) ;;;
       ret false).

Definition runCommand (containerId : string) (command : list string)
  : M W ExecResult :=
  if invalid_arg containerId then
    throw (new_Error "Invalid containerId provided to runCommand")
  else
    try_catch
      (raw <- call (EvExec containerId command)
                   (exec E containerId command) ;;
       let out := String.concat "" (chunks raw) in
       ret (mkExecResult (Js.trim (Js.strip_nonprintable out))
                         (ExitCode raw)))
      (fun err =>
         throw (new_Error ("Failed to run command in container "
                           ++ containerId ++ ": " ++ message_or_self err))).

Definition getContainerOsType (containerId : string) : M W string :=
  if invalid_arg containerId then
    throw (new_Error "Invalid containerId provided to getContainerOsType")
  else
    try_catch
      (containerData <- call (EvInspect containerId)
                             (inspect E containerId) ;;
       ret (Js.or_default (option_map Js.toLowerCase (Os containerData))
                          "linux"))
      (fun err =>
         throw (new_Error ("Failed to get OS type for container "
                           ++ containerId ++ ": " ++ message_or_self err))).

Definition getContainerMap : M W (JsObject.t string) :=
  try_catch
    (containers <- call EvListContainers (listContainers E) ;;
     ret (JsObject.fromEntries (map (fun c => (map_key c, Id c)) containers)))
    (fun err =>
       throw (new_Error ("Failed to list Docker containers: "
                         ++ message_or_self err))).

(** [getPublicIP(runCommand, getContainerOsType)]; the second argument is
    called through [?.], so it may be missing. *)
Definition getPublicIP
    (runCommand : string -> list string -> M W ExecResult)
    (getContainerOsType : option (string -> M W string))
    (containerId : string) : M W (option string) :=
  if invalid_arg containerId then
    throw (new_Error "Invalid containerId provided to getPublicIP")
  else
    osType <- match getContainerOsType with
              | Some f => f containerId
              | None =>
                  throw (mkError "TypeError"
                    "Cannot read properties of undefined (reading 'includes')")
              end ;;
    let cmd := command_for osType in
    r <- runCommand containerId cmd ;;
    if exit_zero (exitCode r)
       && Js.test_digits_dots (Js.trim (output r))
    then ret (Some (Js.trim (output r)))
    else ret None.

Definition getLocation (ip : string) : M W string :=
  if invalid_arg ip then
    throw (new_Error "Invalid IP address provided to getLocation")
  else
    try_catch
      (response <- call (EvFetch ("http://ip-api.com/json/" ++ ip))
                        (fetch E ("http://ip-api.com/json/" ++ ip)) ;;
       data <- match json response with
               | Ok d => ret d
               | Fail e => throw e
               end ;;
       match data with
       | JsonNull =>
           throw (mkError "TypeError"
                    "Cannot read properties of null (reading 'status')")
       | JsonPrimitive => ret "undefined, undefined"
       | JsonObject status country city =>
           if match status with Some s => s =? "fail" | None => false end
           then ret "Unknown"
           else ret (template country ++ ", " ++ template city)%string
       end)
      (fun err =>
         (if env_DEBUG E
          then console_error
                 ("[DEBUG] Failed to get location for IP " ++ ip ++ ":") err
          else ret tt) ;;;
         ret "Lookup Failed").

Definition getContainerStatus (containerId : string) : M W StatusRow :=
  if invalid_arg containerId then
    throw (new_Error "Invalid containerId provided to getContainerStatus")
  else
    try_catch
      (containerData <- call (EvInspect containerId)
                             (inspect E containerId) ;;
       let name := display_name containerData in
       if negb (Running containerData) then
         ret (name, ("Container " ++ Status containerData)%string, "Unknown")
       else
         ip <- getPublicIP runCommand (Some getContainerOsType)
                           containerId ;;
         location <- match ip with
                     | Some a => if Js.truthy a then getLocation a
                                 else ret "Unknown"
                     | None => ret "Unknown"
                     end ;;
         ret (name,
              match ip with Some a => a | None => "Retrieval failed" end,
              location))
      (fun err =>
         throw (new_Error ("Failed to get status for container "
                           ++ containerId ++ ": " ++ message_or_self err))).

End Utils.

(* ------------------------------------------------------------------ *)
(** ** src/src/ui.js *)

(** The [value]s of the prompt's choices. *)
Definition getContainerChoices (containerMap : JsObject.t string)
  : list string :=
  "All" :: JsObject.keys containerMap.

Section Ui.

Context {W : Type} (E : Engine W).

(** The prompt is taken to settle: it resolves with the chosen value or it
    is rejected. *)
Definition promptContainer (containerMap : JsObject.t string) : M W string :=
  let choices := getContainerChoices containerMap in
  call (EvPrompt choices) (prompt E choices).

Definition showResults (results : list StatusRow) (colWidths : list Z)
  : M W unit :=
  emit (EvResultsTable results colWidths).

Definition showPortsTable (portRows : list PortRow) : M W unit :=
  emit (EvPortsTable portRows).

End Ui.

(* ------------------------------------------------------------------ *)
(** ** src/docker-ip-retrieval.js *)

Definition COL_WIDTHS : list Z := [30; 35; 40]%Z.

(** The one-character text of a line feed. *)
Definition newline : string := String "010" "".
Definition VERSION : string := "1.2.0".

(** [args.includes(a)] *)
Definition args_include (a : string) (args : list string) : bool :=
  existsb (String.eqb a) args.

(** What a [return] inside an [async] function hands back: a plain value, or
    a promise that is not awaited where it is returned. *)
Inductive Returning (W A : Type) : Type :=
| Value (a : A)
| Promise (p : M W A).
Arguments Value {W A} a.
Arguments Promise {W A} p.

(* ------------------------------------------------------------------ *)
(** ** Pipelines step by step

    An [async] function runs without interruption from one outside request
    to the next; at a request it is suspended until the answer arrives, and
    other pending functions go on in the meantime. [Proc] spells a function
    out as such steps. The functions that "All" mode runs side by side are
    written this way: the status pipeline and what it calls. Playing the
    steps one after the other ([run]) gives back the functions of
    [src/src/utils.js] above. As there, the exec session of [runCommand]
    (create, start, read the stream, inspect) counts as one request with one
    answer, and so does [fetch] with the reading of the body. *)

Inductive Proc (A : Type) : Type :=
| PReturn (a : A)
| PThrow (e : JsError)
| PEmit (ev : Event) (k : Proc A)
| PInspect (id : string) (k : Reply InspectData -> Proc A)
| PExec (id : string) (cmd : list string) (k : Reply ExecRaw -> Proc A)
| PFetch (url : string) (k : Reply Response -> Proc A).
Arguments PReturn {A} a.
Arguments PThrow {A} e.
Arguments PEmit {A} ev k.
Arguments PInspect {A} id k.
Arguments PExec {A} id cmd k.
Arguments PFetch {A} url k.

Fixpoint pbind {A B} (p : Proc A) (f : A -> Proc B) : Proc B :=
  match p with
  | PReturn a => f a
  | PThrow e => PThrow e
  | PEmit ev k => PEmit ev (pbind k f)
  | PInspect id k => PInspect id (fun r => pbind (k r) f)
  | PExec id cmd k => PExec id cmd (fun r => pbind (k r) f)
  | PFetch url k => PFetch url (fun r => pbind (k r) f)
  end.

(** [try { p } catch (err) { h err }] *)
Fixpoint ptry {A} (p : Proc A) (h : JsError -> Proc A) : Proc A :=
  match p with
  | PReturn a => PReturn a
  | PThrow e => h e
  | PEmit ev k => PEmit ev (ptry k h)
  | PInspect id k => PInspect id (fun r => ptry (k r) h)
  | PExec id cmd k => PExec id cmd (fun r => ptry (k r) h)
  | PFetch url k => PFetch url (fun r => ptry (k r) h)
  end.

(** What an awaited request becomes once it is answered. *)
Definition answered {A} (r : Reply A) : Proc A :=
  match r with
  | Ok a => PReturn a
  | Fail e => PThrow e
  end.

Definition await_inspect (id : string) : Proc InspectData :=
  PInspect id answered.

Definition await_exec (id : string) (cmd : list string) : Proc ExecRaw :=
  PExec id cmd answered.

Definition await_fetch (url : string) : Proc Response :=
  PFetch url answered.

Declare Scope proc_scope.
Delimit Scope proc_scope with proc.
Notation "x <- c ;; k" := (pbind c (fun x => k))
  (at level 61, c at next level, right associativity) : proc_scope.
Notation "c ;;; k" := (pbind c (fun _ => k))
  (at level 61, right associativity) : proc_scope.

Section Steps.

Local Open Scope proc_scope.

Definition runCommand_steps (containerId : string) (command : list string)
  : Proc ExecResult :=
  if invalid_arg containerId then
    PThrow (new_Error "Invalid containerId provided to runCommand")
  else
    ptry
      (raw <- await_exec containerId command ;;
       let out := String.concat "" (chunks raw) in
       PReturn (mkExecResult (Js.trim (Js.strip_nonprintable out))
                             (ExitCode raw)))
      (fun err =>
         PThrow (new_Error ("Failed to run command in container "
                            ++ containerId ++ ": " ++ message_or_self err))).

Definition getContainerOsType_steps (containerId : string) : Proc string :=
  if invalid_arg containerId then
    PThrow (new_Error "Invalid containerId provided to getContainerOsType")
  else
    ptry
      (containerData <- await_inspect containerId ;;
       PReturn (Js.or_default (option_map Js.toLowerCase (Os containerData))
                              "linux"))
      (fun err =>
         PThrow (new_Error ("Failed to get OS type for container "
                            ++ containerId ++ ": " ++ message_or_self err))).

Definition getPublicIP_steps
    (runCommand : string -> list string -> Proc ExecResult)
    (getContainerOsType : option (string -> Proc string))
    (containerId : string) : Proc (option string) :=
  if invalid_arg containerId then
    PThrow (new_Error "Invalid containerId provided to getPublicIP")
  else
    osType <- match getContainerOsType with
              | Some f => f containerId
              | None =>
                  PThrow (mkError "TypeError"
                    "Cannot read properties of undefined (reading 'includes')")
              end ;;
    let cmd := command_for osType in
    r <- runCommand containerId cmd ;;
    if exit_zero (exitCode r)
       && Js.test_digits_dots (Js.trim (output r))
    then PReturn (Some (Js.trim (output r)))
    else PReturn None.

Definition getLocation_steps (debug : bool) (ip : string) : Proc string :=
  if invalid_arg ip then
    PThrow (new_Error "Invalid IP address provided to getLocation")
  else
    ptry
      (response <- await_fetch ("http://ip-api.com/json/" ++ ip) ;;
       data <- answered (json response) ;;
       match data with
       | JsonNull =>
           PThrow (mkError "TypeError"
                     "Cannot read properties of null (reading 'status')")
       | JsonPrimitive => PReturn "undefined, undefined"
       | JsonObject status country city =>
           if match status with Some s => s =? "fail" | None => false end
           then PReturn "Unknown"
           else PReturn (template country ++ ", " ++ template city)%string
       end)
      (fun err =>
         (if debug
          then PEmit (console_event
                        ("[DEBUG] Failed to get location for IP " ++ ip ++ ":")
                        err)
                     (PReturn tt)
          else PReturn tt) ;;;
         PReturn "Lookup Failed").

Definition getContainerStatus_steps (debug : bool) (containerId : string)
  : Proc StatusRow :=
  if invalid_arg containerId then
    PThrow (new_Error "Invalid containerId provided to getContainerStatus")
  else
    ptry
      (containerData <- await_inspect containerId ;;
       let name := display_name containerData in
       if negb (Running containerData) then
         PReturn (name, ("Container " ++ Status containerData)%string,
                  "Unknown")
       else
         ip <- getPublicIP_steps runCommand_steps
                                 (Some getContainerOsType_steps)
                                 containerId ;;
         location <- match ip with
                     | Some a => if Js.truthy a then getLocation_steps debug a
                                 else PReturn "Unknown"
                     | None => PReturn "Unknown"
                     end ;;
         PReturn (name,
                  match ip with Some a => a | None => "Retrieval failed" end,
                  location))
      (fun err =>
         PThrow (new_Error ("Failed to get status for container "
                            ++ containerId ++ ": " ++ message_or_self err))).

End Steps.

(** The most requests one status pipeline makes: inspect, inspect, exec and
    the geolocation lookup. *)
Definition pipeline_requests : nat := 4.

(** How far a promise has got: suspended at a request whose answer is under
    way, fulfilled, or rejected. *)
Inductive Progress (A : Type) : Type :=
| Waits (resume : Proc A)
| Fulfils (a : A)
| Rejects (e : JsError).
Arguments Waits {A} resume.
Arguments Fulfils {A} a.
Arguments Rejects {A} e.

(** A promise among those given to [Promise.all]. A suspended one carries
    the length the trace had when its request was issued, which orders the
    requests under way by age. *)
Inductive Slot (A : Type) : Type :=
| Waiting (stamp : nat) (resume : Proc A)
| Fulfilled (a : A)
| Rejected (e : JsError).
Arguments Waiting {A} stamp resume.
Arguments Fulfilled {A} a.
Arguments Rejected {A} e.

Fixpoint first_rejection {A} (slots : list (Slot A)) : option JsError :=
  match slots with
  | [] => None
  | Rejected e :: _ => Some e
  | _ :: rest => first_rejection rest
  end.

Fixpoint waiting_stamps {A} (slots : list (Slot A)) : list nat :=
  match slots with
  | [] => []
  | Waiting t _ :: rest => t :: waiting_stamps rest
  | _ :: rest => waiting_stamps rest
  end.

Fixpoint fulfilled_values {A} (slots : list (Slot A)) : list A :=
  match slots with
  | [] => []
  | Fulfilled a :: rest => a :: fulfilled_values rest
  | _ :: rest => fulfilled_values rest
  end.

Fixpoint insert_stamp (t : nat) (l : list nat) : list nat :=
  match l with
  | [] => [t]
  | u :: r => if (t <=? u)%nat then t :: l else u :: insert_stamp t r
  end.

(** The stamps from the oldest to the youngest. *)
Definition by_age (l : list nat) : list nat := fold_right insert_stamp [] l.

Section Run.

Context {W : Type} (E : Engine W).

(** The steps of [p] played one after the other: every request is answered
    on the spot. *)
Fixpoint run {A} (p : Proc A) (s : State W) : Outcome A * State W :=
  match p with
  | PReturn a => (Returned a, s)
  | PThrow e => (Thrown e, s)
  | PEmit ev k => run k (mkState (world s) (trace s ++ [ev]))
  | PInspect id k =>
      let (r, w') := inspect E id (world s) in
      run (k r) (mkState w' (trace s ++ [EvInspect id]))
  | PExec id cmd k =>
      let (r, w') := exec E id cmd (world s) in
      run (k r) (mkState w' (trace s ++ [EvExec id cmd]))
  | PFetch url k =>
      let (r, w') := fetch E url (world s) in
      run (k r) (mkState w' (trace s ++ [EvFetch url]))
  end.

(** [p] goes on until it issues its next request or settles. The request
    reaches the outside world at once; what the promise does with the answer
    is kept for the moment the answer arrives. *)
Fixpoint advance {A} (p : Proc A) (s : State W) : Progress A * State W :=
  match p with
  | PReturn a => (Fulfils a, s)
  | PThrow e => (Rejects e, s)
  | PEmit ev k => advance k (mkState (world s) (trace s ++ [ev]))
  | PInspect id k =>
      let (r, w') := inspect E id (world s) in
      (Waits (k r), mkState w' (trace s ++ [EvInspect id]))
  | PExec id cmd k =>
      let (r, w') := exec E id cmd (world s) in
      (Waits (k r), mkState w' (trace s ++ [EvExec id cmd]))
  | PFetch url k =>
      let (r, w') := fetch E url (world s) in
      (Waits (k r), mkState w' (trace s ++ [EvFetch url]))
  end.

Definition slot_of {A} (g : Progress A) (s : State W) : Slot A :=
  match g with
  | Waits q => Waiting (length (trace s)) q
  | Fulfils a => Fulfilled a
  | Rejects e => Rejected e
  end.

(** [ps.map(f)] for an [async] function [f]: every promise is started, in
    array order, and runs up to its first request. *)
Fixpoint start_all {A} (ps : list (Proc A)) (s : State W)
  : list (Slot A) * State W :=
  match ps with
  | [] => ([], s)
  | p :: rest =>
      let (g, s1) := advance p s in
      let (slots, s2) := start_all rest s1 in
      (slot_of g s1 :: slots, s2)
  end.

(** The answer to the request stamped [t] arrives: its promise goes on. *)
Fixpoint deliver {A} (t : nat) (slots : list (Slot A)) (s : State W)
  : list (Slot A) * State W :=
  match slots with
  | [] => ([], s)
  | Waiting u q :: rest =>
      if (t =? u)%nat then
        let (g, s') := advance q s in (slot_of g s' :: rest, s')
      else
        let (rest', s') := deliver t rest s in (Waiting u q :: rest', s')
  | slot :: rest =>
      let (rest', s') := deliver t rest s in (slot :: rest', s')
  end.

(** The stamp of the answer that arrives next. *)
Definition next_arrival {A} (slots : list (Slot A)) (s : State W) : nat :=
  let stamps := waiting_stamps slots in
  nth (arrival E (world s) (length stamps) mod length stamps)
      (by_age stamps) 0.

(** [Promise.all] waiting: it rejects as soon as one promise is rejected,
    with that promise's error, and leaves the other promises where they are;
    it is fulfilled with the values in array order once every promise is
    fulfilled; otherwise the next answer arrives. [steps] bounds the number
    of answers waited for; [None] says the bound was too small. *)
Fixpoint settle {A} (steps : nat) (slots : list (Slot A)) (s : State W)
  : option (Outcome (list A) * State W) :=
  match first_rejection slots with
  | Some e => Some (Thrown e, s)
  | None =>
      match waiting_stamps slots with
      | [] => Some (Returned (fulfilled_values slots), s)
      | _ :: _ =>
          match steps with
          | O => None
          | S steps' =>
              let (slots', s') := deliver (next_arrival slots s) slots s in
              settle steps' slots' s'
          end
      end
  end.

(** [Promise.all(ps)] for promises that make at most [requests] requests
    each. The caller's [catch] ends the process when the result is a
    rejection, so what the other promises would still do is not played. *)
Definition Promise_all {A} (requests : nat) (ps : list (Proc A))
  : M W (list A) :=
  fun s =>
    let (slots, s1) := start_all ps s in
    match settle (requests * length ps) slots s1 with
    | Some r => r
    | None =>
        (Thrown (mkError "RangeError" "more answers than requests allowed"),
         s1)
    end.

End Run.

Section Cli.

Context {W : Type} (E : Engine W).

(** The [try]/[catch] statement inside the [for] loop of
    [listContainerPorts]: the row pushed for one entry. *)
Definition port_row (name id : string) : M W PortRow :=
  try_catch
    (ports <- getContainerPorts E id ;;
     ret (name,
          match ports with
          | [] => "No ports exposed"
          | _ :: _ => Js.join newline ports
          end))
    (fun err =>
       ret (name,
            ("Error retrieving ports ("
             ++ message_or_self err ++ ")")%string)).

(** The [for] loop of [listContainerPorts], from the entries still to visit
    and the rows pushed so far. *)
Fixpoint portRows_loop (entries : list (string * string))
    (portRows : list PortRow) : M W (list PortRow) :=
  match entries with
  | [] => ret portRows
  | (name, id) :: rest =>
      row <- port_row name id ;;
      portRows_loop rest (portRows ++ [row])
  end.

Definition listContainerPorts (containerMap : JsObject.t string) : M W unit :=
  let entries := JsObject.entries containerMap in
  match entries with
  | [] => emit (EvStdout "No Docker containers found.")
  | _ :: _ =>
      portRows <- portRows_loop entries [] ;;
      showPortsTable portRows
  end.

(** [containerMap[selected]] handed to [getContainerStatus]: [undefined]
    fails the argument guard exactly as the empty string does. *)
Definition selected_id (containerMap : JsObject.t string) (selected : string)
  : string :=
  match JsObject.get selected containerMap with
  | Some id => id
  | None => ""
  end.

(** The [All] branch returns the promise of [Promise.all] without awaiting
    it, so its rejection is not seen by the [catch] of this function; the
    other branch awaits inside the [try]. [ids.map(getContainerStatus)]
    starts every pipeline before any answer is looked at. *)
Definition getSelectedContainerResults (containerMap : JsObject.t string)
  : M W (list StatusRow) :=
  r <- try_catch
         (selected <- promptContainer E containerMap ;;
          let ids := JsObject.values containerMap in
          if selected =? "All" then
            ret (Promise (Promise_all E pipeline_requests
                            (map (getContainerStatus_steps (env_DEBUG E))
                                 ids)))
          else
            row <- getContainerStatus E (selected_id containerMap selected) ;;
            ret (Value [row]))
         (fun err =>
            console_error "Prompt failed:" err ;;;
            process_exit 1%Z) ;;
  match r with
  | Value v => ret v
  | Promise p => p
  end.

Definition main (args : list string) : M W unit :=
  if args_include "-v" args || args_include "--version" args then
    emit (EvStdout ("Docker IP Retrieval version: " ++ VERSION))
  else
    running <- isDockerRunning E ;;
    if negb running then
      emit (EvStdout "Docker is not running or not detected. Please ensure Docker is installed and running.") ;;;
      process_exit 1%Z
    else
      try_catch
        (containerMap <- getContainerMap E ;;
         match JsObject.keys containerMap with
         | [] => emit (EvStdout "No Docker containers found.")
         | _ :: _ =>
             if args_include "--ports" args || args_include "-p" args then
               listContainerPorts containerMap
             else
               results <- getSelectedContainerResults containerMap ;;
               showResults results COL_WIDTHS
         end)
        (fun error =>
           console_error "Unexpected error:" error ;;;
           process_exit 1%Z).

End Cli.

(* ------------------------------------------------------------------ *)
(** ** The structural IPv4 pattern, in the words of the specification *)

(** A digit group: one or more digits. *)
Definition digit_group (g : string) : bool :=
  Js.truthy g && Js.all_chars Js.is_digit g.

(** "One-or-more digit groups separated by exactly three dots": four digit
    groups with a dot between neighbours, no octet range. *)
Definition spec_structural_ipv4 (s : string) : bool :=
  match Js.split "." s with
  | [a; b; c; d] => digit_group a && digit_group b
                    && digit_group c && digit_group d
  | _ => false
  end.

(** What the test of [getPublicIP] amounts to: a non-empty text made of the
    characters [0]..[9] and [.] only. *)
Definition DigitsAndDots (s : string) : Prop :=
  s <> "" /\
  Forall (fun c => In c (list_ascii_of_string "0123456789."))
         (list_ascii_of_string s).

(* ------------------------------------------------------------------ *)
(** ** Scenarios: engines that answer from fixed tables *)

Module Scenario.

(** An engine without internal state, whose answers arrive in the order of
    the requests. *)
Definition scripted
    (ls : Reply (list ContainerInfo))
    (insp : string -> Reply InspectData)
    (ex : string -> list string -> Reply ExecRaw)
    (ft : string -> Reply Response)
    (pr : Reply string) : Engine unit :=
  mkEngine unit
    (fun w => (Ok tt, w))
    (fun w => (ls, w))
    (fun id w => (insp id, w))
    (fun id cmd w => (ex id cmd, w))
    (fun url w => (ft url, w))
    (fun _ w => (pr, w))
    false
    (fun _ _ => 0).

Definition start : State unit := mkState tt [].

Definition running (name : string) : InspectData :=
  mkInspect (Some name) true "running" None None.

Definition ashburn : Response :=
  mkResponse (Ok (JsonObject (Some "success") (Some "US") (Some "Ashburn"))).

Definition three : list ContainerInfo :=
  [ mkContainer (Some ["/a"]) "ida";
    mkContainer (Some ["/b"]) "idb";
    mkContainer (Some ["/c"]) "idc" ].

Definition inspect_three (id : string) : Reply InspectData :=
  if id =? "ida" then Ok (running "/a")
  else if id =? "idb" then Ok (running "/b")
  else if id =? "idc" then Ok (running "/c")
  else Fail (new_Error ("No such container: " ++ id)).

Definition exec_ip (ip : string) (id : string) (cmd : list string)
  : Reply ExecRaw :=
  Ok (mkExecRaw [ip; String "010" ""] (Some 0%Z)).

(** Three running containers; the exec call of [b] is rejected. *)
Definition exec_b_throws : Engine unit :=
  scripted (Ok three) inspect_three
    (fun id cmd =>
       if id =? "idb" then Fail (new_Error "container is restarting")
       else exec_ip "203.0.113.7" id cmd)
    (fun _ => Ok ashburn)
    (Ok "All").

(** Three listed containers; [b] is gone when it is inspected. *)
Definition inspect_b_fails : Engine unit :=
  scripted (Ok three)
    (fun id => if id =? "idb"
               then Fail (new_Error "No such container: idb")
               else inspect_three id)
    (exec_ip "203.0.113.7")
    (fun _ => Ok ashburn)
    (Ok "All").

(** All three pipelines succeed. *)
Definition all_fine : Engine unit :=
  scripted (Ok three) inspect_three (exec_ip "203.0.113.7")
    (fun _ => Ok ashburn) (Ok "All").

(** One running container [web] whose command prints [out]. *)
Definition web_prints (out : string) : Engine unit :=
  scripted (Ok [mkContainer (Some ["/web"]) "idw"])
    (fun _ => Ok (running "/web"))
    (exec_ip out)
    (fun _ => Ok ashburn)
    (Ok "web").

(** One container [db] that has exited. *)
Definition db_exited : Engine unit :=
  scripted (Ok [mkContainer (Some ["/db"]) "idd"])
    (fun _ => Ok (mkInspect (Some "/db") false "exited" None None))
    (fun _ _ => Fail (new_Error "container is not running"))
    (fun _ => Ok ashburn)
    (Ok "db").

(** A running container whose inspect data says [Os: "Windows"]. *)
Definition windows_box : Engine unit :=
  scripted (Ok [mkContainer (Some ["/iis"]) "idi"])
    (fun _ => Ok (mkInspect (Some "/iis") true "running" (Some "Windows") None))
    (exec_ip "203.0.113.7")
    (fun _ => Ok ashburn)
    (Ok "iis").

(** A container that cannot be inspected at all. *)
Definition gone : Engine unit :=
  scripted (Ok [mkContainer (Some ["/web"]) "idw"])
    (fun id => Fail (new_Error ("No such container: " ++ id)))
    (exec_ip "203.0.113.7")
    (fun _ => Ok ashburn)
    (Ok "web").

(** [web] publishes [80/tcp] on [0.0.0.0:8080]; [db] publishes nothing;
    [old] cannot be inspected. *)
Definition with_ports : Engine unit :=
  scripted
    (Ok [ mkContainer (Some ["/web"]) "idw";
          mkContainer (Some ["/db"]) "idd";
          mkContainer (Some ["/old"]) "ido" ])
    (fun id =>
       if id =? "idw" then
         Ok (mkInspect (Some "/web") true "running" None
               (Some [("80/tcp", Some [mkBinding "0.0.0.0" "8080"])]))
       else if id =? "idd" then
         Ok (mkInspect (Some "/db") true "running" None
               (Some [("5432/tcp", None)]))
       else Fail (new_Error "No such container: ido"))
    (exec_ip "203.0.113.7")
    (fun _ => Ok ashburn)
    (Ok "All").

(** A paused container: the engine reports [Running: true] with the status
    [paused], and refuses to execute anything in it. *)
Definition paused_box : Engine unit :=
  scripted (Ok [mkContainer (Some ["/web"]) "idw"])
    (fun _ => Ok (mkInspect (Some "/web") true "paused" None None))
    (fun id _ =>
       Fail (new_Error ("Container " ++ id
                        ++ " is paused, unpause the container before exec")))
    (fun _ => Ok ashburn)
    (Ok "web").

(** Three running containers; the exec call of [a] is rejected and [b] is
    gone when it is inspected. *)
Definition a_exec_b_inspect : Engine unit :=
  scripted (Ok three)
    (fun id => if id =? "idb"
               then Fail (new_Error "No such container: idb")
               else inspect_three id)
    (fun id cmd =>
       if id =? "ida" then Fail (new_Error "container is restarting")
       else exec_ip "203.0.113.7" id cmd)
    (fun _ => Ok ashburn)
    (Ok "All").

(** No container can be inspected. *)
Definition all_gone : Engine unit :=
  scripted (Ok three)
    (fun id => Fail (new_Error ("No such container: " ++ id)))
    (exec_ip "203.0.113.7")
    (fun _ => Ok ashburn)
    (Ok "All").

(** The engine [E], except that the answer to the youngest request always
    arrives first. *)
Definition youngest_first (E : Engine unit) : Engine unit :=
  mkEngine unit (ping E) (listContainers E) (inspect E) (exec E) (fetch E)
    (prompt E) (env_DEBUG E) (fun _ n => pred n).

(** Two containers that both normalise to [web]. *)
Definition twins : list ContainerInfo :=
  [ mkContainer (Some ["/web"]) "id1";
    mkContainer (Some ["web"]) "id2";
    mkContainer (Some ["/db"]) "id3" ].

End Scenario.

(* ------------------------------------------------------------------ *)
(** ** Vocabulary for the properties of the whole program *)

(** Every event that [m] adds to the trace satisfies [P]; the events that
    were there before stay. *)
Definition emits_only {W A} (P : Event -> Prop) (m : M W A) : Prop :=
  forall s, exists evs, trace (snd (m s)) = trace s ++ evs /\ Forall P evs.

(** The two command vectors [getPublicIP] chooses between. *)
Definition known_command (cmd : list string) : Prop :=
  cmd = ["sh"; "-c"; "curl -s https://api.ipify.org"]
  \/ cmd = ["curl"; "-s"; "https://api.ipify.org"].

(** A geolocation request for a text of digits and dots. *)
Definition lookup_url (url : string) : Prop :=
  exists ip,
    url = ("http://ip-api.com/json/" ++ ip)%string /\ DigitsAndDots ip.

(** What one status pipeline of container [id] may do: inspect [id], run a
    known command in [id], look up digits and dots, and write to the error
    stream when debugging is on. *)
Definition pipeline_event (debug : bool) (id : string) (ev : Event) : Prop :=
  match ev with
  | EvInspect i => i = id
  | EvExec i cmd => i = id /\ known_command cmd
  | EvFetch url => lookup_url url
  | EvStderr _ => debug = true
  | EvStderrError _ _ => debug = true
  | _ => False
  end.

(** What the program as a whole may do: any event, but an exec only with a
    known command and a request only for digits and dots. *)
Definition program_event (ev : Event) : Prop :=
  match ev with
  | EvExec _ cmd => known_command cmd
  | EvFetch url => lookup_url url
  | _ => True
  end.

(** Events of a run that neither executes anything in a container, nor
    contacts the geolocation service, nor prompts. *)
Definition read_only_event (ev : Event) : Prop :=
  match ev with
  | EvExec _ _ | EvFetch _ | EvPrompt _ | EvResultsTable _ _ => False
  | _ => True
  end.

(** The bindings of an entry of [Ports]; [null] counts as none. *)
Definition bindings_of (entry : string * option (list Binding))
  : list Binding :=
  match snd entry with Some bs => bs | None => [] end.

Definition has_bindings (entry : string * option (list Binding)) : bool :=
  match bindings_of entry with [] => false | _ :: _ => true end.

(** The flags [main] looks for. *)
Definition wants_version (args : list string) : Prop :=
  In "-v" args \/ In "--version" args.

Definition wants_ports (args : list string) : Prop :=
  In "--ports" args \/ In "-p" args.

(** What [isDockerRunning] leaves in the trace when the ping fails. *)
Definition ping_failure_events (debug : bool) (e : JsError) : list Event :=
  EvPing ::
  (if debug
   then [console_event "[DEBUG] Docker ping failed:" e]
   else []).

(** [p] makes at most [n] requests, whatever the answers. *)
Fixpoint within {A} (n : nat) (p : Proc A) : Prop :=
  match p with
  | PReturn _ | PThrow _ => True
  | PEmit _ k => within n k
  | PInspect _ k =>
      match n with O => False | S m => forall r, within m (k r) end
  | PExec _ _ k =>
      match n with O => False | S m => forall r, within m (k r) end
  | PFetch _ k =>
      match n with O => False | S m => forall r, within m (k r) end
  end.

(** Every event of [p] satisfies [P], whatever the answers. *)
Fixpoint proc_emits {A} (P : Event -> Prop) (p : Proc A) : Prop :=
  match p with
  | PReturn _ | PThrow _ => True
  | PEmit ev k => P ev /\ proc_emits P k
  | PInspect id k => P (EvInspect id) /\ forall r, proc_emits P (k r)
  | PExec id cmd k => P (EvExec id cmd) /\ forall r, proc_emits P (k r)
  | PFetch url k => P (EvFetch url) /\ forall r, proc_emits P (k r)
  end.

(** Every value that [p] can return satisfies [Q], whatever the answers. *)
Fixpoint proc_returns {A} (Q : A -> Prop) (p : Proc A) : Prop :=
  match p with
  | PReturn a => Q a
  | PThrow _ => True
  | PEmit _ k => proc_returns Q k
  | PInspect _ k => forall r, proc_returns Q (k r)
  | PExec _ _ k => forall r, proc_returns Q (k r)
  | PFetch _ k => forall r, proc_returns Q (k r)
  end.

(** Every error that [p] can throw satisfies [T], whatever the answers. *)
Fixpoint proc_throws {A} (T : JsError -> Prop) (p : Proc A) : Prop :=
  match p with
  | PReturn _ => True
  | PThrow e => T e
  | PEmit _ k => proc_throws T k
  | PInspect _ k => forall r, proc_throws T (k r)
  | PExec _ _ k => forall r, proc_throws T (k r)
  | PFetch _ k => forall r, proc_throws T (k r)
  end.

(** A way [p] can end on the engine [E]: every request is answered as [E]
    answers it in some state of the world. *)
Inductive may_settle {W} (E : Engine W) {A} : Proc A -> Outcome A -> Prop :=
| may_return a : may_settle E (PReturn a) (Returned a)
| may_throw e : may_settle E (PThrow e) (Thrown e)
| may_emit ev k r : may_settle E k r -> may_settle E (PEmit ev k) r
| may_inspect id k w r :
    may_settle E (k (fst (inspect E id w))) r ->
    may_settle E (PInspect id k) r
| may_exec id cmd k w r :
    may_settle E (k (fst (exec E id cmd w))) r ->
    may_settle E (PExec id cmd k) r
| may_fetch url k w r :
    may_settle E (k (fst (fetch E url w))) r ->
    may_settle E (PFetch url k) r.

(** The ways a promise given to [Promise.all] can still end. *)
Definition slot_may {W} (E : Engine W) {A} (slot : Slot A) (r : Outcome A)
  : Prop :=
  match slot with
  | Waiting _ q => may_settle E q r
  | Fulfilled a => r = Returned a
  | Rejected e => r = Thrown e
  end.

(** The answer under way included, the promise makes at most [b] requests. *)
Definition slot_fits {A} (b : nat) (slot : Slot A) : Prop :=
  match slot with
  | Waiting _ q => match b with O => False | S m => within m q end
  | _ => True
  end.

Definition slot_emits {A} (P : Event -> Prop) (slot : Slot A) : Prop :=
  match slot with
  | Waiting _ q => proc_emits P q
  | _ => True
  end.

(** The answers of [E] to inspect, exec and fetch do not depend on the state
    of the world. *)
Definition fixed_answers {W} (E : Engine W) : Prop :=
  (forall id w w', fst (inspect E id w) = fst (inspect E id w'))
  /\ (forall id cmd w w', fst (exec E id cmd w) = fst (exec E id cmd w'))
  /\ (forall url w w', fst (fetch E url w) = fst (fetch E url w')).

Module Cases.

(** The engine cannot be reached. *)
Definition docker_down : Engine unit :=
  mkEngine unit
    (fun w => (Fail (new_Error "connect ENOENT /var/run/docker.sock"), w))
    (fun w => (Fail (new_Error "connect ENOENT /var/run/docker.sock"), w))
    (fun id w => (Fail (new_Error "connect ENOENT /var/run/docker.sock"), w))
    (fun id cmd w =>
       (Fail (new_Error "connect ENOENT /var/run/docker.sock"), w))
    (fun url w => (Ok Scenario.ashburn, w))
    (fun _ w => (Ok "All", w))
    false
    (fun _ _ => 0).

(** The engine runs no container at all. *)
Definition nothing_listed : Engine unit :=
  Scenario.scripted (Ok []) Scenario.inspect_three
    (Scenario.exec_ip "203.0.113.7") (fun _ => Ok Scenario.ashburn) (Ok "All").

(** The engine answers the ping but not the listing. *)
Definition listing_fails : Engine unit :=
  Scenario.scripted (Fail (new_Error "socket hang up")) Scenario.inspect_three
    (Scenario.exec_ip "203.0.113.7") (fun _ => Ok Scenario.ashburn) (Ok "All").

(** The prompt cannot run (no interactive terminal). *)
Definition prompt_fails : Engine unit :=
  Scenario.scripted (Ok Scenario.three) Scenario.inspect_three
    (Scenario.exec_ip "203.0.113.7") (fun _ => Ok Scenario.ashburn)
    (Fail (new_Error "stdin is not a TTY")).

(** The user picks [b] among three running containers. *)
Definition picks_b : Engine unit :=
  Scenario.scripted (Ok Scenario.three) Scenario.inspect_three
    (Scenario.exec_ip "203.0.113.7") (fun _ => Ok Scenario.ashburn) (Ok "b").

(** The user picks [b], whose exec call is rejected. *)
Definition picks_b_exec_throws : Engine unit :=
  Scenario.scripted (Ok Scenario.three) Scenario.inspect_three
    (fun id cmd => Fail (new_Error "container is restarting"))
    (fun _ => Ok Scenario.ashburn) (Ok "b").

(** Three running containers without published ports, two of which
    normalise to the name [web]. *)
Definition twins_listed : Engine unit :=
  Scenario.scripted (Ok Scenario.twins)
    (fun _ => Ok (Scenario.running "/web"))
    (Scenario.exec_ip "203.0.113.7") (fun _ => Ok Scenario.ashburn)
    (Ok "All").

(** The name-to-id map of the three containers. *)
Definition three_map : JsObject.t string :=
  [("a", "ida"); ("b", "idb"); ("c", "idc")].

(** One port bound twice, one without bindings, one bound once. *)
Definition some_ports : list (string * option (list Binding)) :=
  [ ("80/tcp", Some [mkBinding "0.0.0.0" "8080"; mkBinding "::" "8080"]);
    ("9000/tcp", None);
    ("443/tcp", Some [mkBinding "0.0.0.0" "8443"]) ].

(** A container [web] that publishes [some_ports]. *)
Definition web_with_ports : Engine unit :=
  Scenario.scripted (Ok [mkContainer (Some ["/web"]) "idw"])
    (fun _ => Ok (mkInspect (Some "/web") true "running" None
                    (Some some_ports)))
    (Scenario.exec_ip "203.0.113.7") (fun _ => Ok Scenario.ashburn)
    (Ok "All").

End Cases.

(* ================================================================== *)
(** * Properties *)

(** ** Running computations *)

Section MonadFacts.

Context {W : Type}.

Lemma call_Ok {A} (ev : Event) (oracle : W -> Reply A * W) s a w' :
  oracle (world s) = (Ok a, w') ->
  call ev oracle s = (Returned a, mkState w' (trace s ++ [ev])).
Proof. intros H. unfold call. rewrite H. reflexivity. Qed.

Lemma call_Fail {A} (ev : Event) (oracle : W -> Reply A * W) s e w' :
  oracle (world s) = (Fail e, w') ->
  call ev oracle s = (Thrown e, mkState w' (trace s ++ [ev])).
Proof. intros H. unfold call. rewrite H. reflexivity. Qed.

Lemma bind_Returned {A B} (m : M W A) (k : A -> M W B) s a s1 :
  m s = (Returned a, s1) -> bind m k s = k a s1.
Proof. intros H. unfold bind. rewrite H. reflexivity. Qed.

Lemma bind_Thrown {A B} (m : M W A) (k : A -> M W B) s e s1 :
  m s = (Thrown e, s1) -> bind m k s = (Thrown e, s1).
Proof. intros H. unfold bind. rewrite H. reflexivity. Qed.

Lemma bind_Returned_inv {A B} (m : M W A) (k : A -> M W B) s b s' :
  bind m k s = (Returned b, s') ->
  exists a s1, m s = (Returned a, s1) /\ k a s1 = (Returned b, s').
Proof.
  unfold bind. destruct (m s) as [[a | e | c] s1]; intros H.
  - exists a, s1. split; [reflexivity | exact H].
  - discriminate H.
  - discriminate H.
Qed.

Lemma try_catch_Returned {A} (m : M W A) h s a s1 :
  m s = (Returned a, s1) -> try_catch m h s = (Returned a, s1).
Proof. intros H. unfold try_catch. rewrite H. reflexivity. Qed.

Lemma try_catch_Thrown {A} (m : M W A) h s e s1 :
  m s = (Thrown e, s1) -> try_catch m h s = h e s1.
Proof. intros H. unfold try_catch. rewrite H. reflexivity. Qed.

(** A handler that rethrows never turns a failure into a value. *)
Lemma try_rethrow_Returned_inv {A} (m : M W A) (wrap : JsError -> JsError)
      s a s' :
  try_catch m (fun err => throw (wrap err)) s = (Returned a, s') ->
  m s = (Returned a, s').
Proof.
  unfold try_catch, throw.
  destruct (m s) as [[x | e | c] s1]; intros H;
    [exact H | discriminate H | exact H].
Qed.

Lemma no_exit_ret {A} (a : A) : no_exit (@ret W A a).
Proof. intros s c s' H. discriminate H. Qed.

Lemma no_exit_throw {A} e : no_exit (@throw W A e).
Proof. intros s c s' H. discriminate H. Qed.

Lemma no_exit_emit ev : no_exit (@emit W ev).
Proof. intros s c s' H. discriminate H. Qed.

Lemma no_exit_console_error label e : no_exit (@console_error W label e).
Proof. intros s c s' H. discriminate H. Qed.

Lemma no_exit_call {A} ev (oracle : W -> Reply A * W) :
  no_exit (call ev oracle).
Proof.
  intros s c s'. unfold call.
  destruct (oracle (world s)) as [[a | e] w']; discriminate.
Qed.

Lemma no_exit_bind {A B} (m : M W A) (k : A -> M W B) :
  no_exit m -> (forall a, no_exit (k a)) -> no_exit (bind m k).
Proof.
  intros Hm Hk s c s'. unfold bind.
  destruct (m s) as [[a | e | c'] s1] eqn:Hms.
  - apply Hk.
  - discriminate.
  - exfalso. exact (Hm _ _ _ Hms).
Qed.

Lemma no_exit_try_catch {A} (m : M W A) h :
  no_exit m -> (forall e, no_exit (h e)) -> no_exit (try_catch m h).
Proof.
  intros Hm Hh s c s'. unfold try_catch.
  destruct (m s) as [[a | e | c'] s1] eqn:Hms.
  - discriminate.
  - apply Hh.
  - exfalso. exact (Hm _ _ _ Hms).
Qed.

Lemma no_exit_if {A} (b : bool) (m1 m2 : M W A) :
  no_exit m1 -> no_exit m2 -> no_exit (if b then m1 else m2).
Proof. destruct b; trivial. Qed.

End MonadFacts.

Create HintDb noexit.
#[export] Hint Resolve no_exit_ret no_exit_throw no_exit_emit
no_exit_console_error no_exit_call
no_exit_bind no_exit_try_catch no_exit_if : noexit.

Section UtilsNeverExit.

Context {W : Type} (E : Engine W).

Lemma no_exit_runCommand id cmd : no_exit (runCommand E id cmd).
Proof. unfold runCommand. auto 10 with noexit. Qed.

Lemma no_exit_getContainerOsType id : no_exit (getContainerOsType E id).
Proof. unfold getContainerOsType. auto 10 with noexit. Qed.

Lemma no_exit_getLocation ip : no_exit (getLocation E ip).
Proof.
  unfold getLocation. apply no_exit_if; [auto with noexit|].
  apply no_exit_try_catch.
  - apply no_exit_bind; [auto with noexit|]. intros r.
    apply no_exit_bind.
    + destruct (json r); auto with noexit.
    + intros [ | | st co ci]; auto with noexit.
  - intros e. apply no_exit_bind; auto with noexit.
Qed.

Lemma no_exit_getPublicIP id :
  no_exit (getPublicIP (runCommand E) (Some (getContainerOsType E)) id).
Proof.
  unfold getPublicIP. apply no_exit_if; [auto with noexit|].
  apply no_exit_bind; [apply no_exit_getContainerOsType|]. intros os.
  apply no_exit_bind; [apply no_exit_runCommand|]. intros r.
  auto with noexit.
Qed.

Lemma no_exit_getContainerStatus id : no_exit (getContainerStatus E id).
Proof.
  unfold getContainerStatus. apply no_exit_if; [auto with noexit|].
  apply no_exit_try_catch; [|auto with noexit].
  apply no_exit_bind; [auto with noexit|]. intros d.
  apply no_exit_if; [auto with noexit|].
  apply no_exit_bind; [apply no_exit_getPublicIP|]. intros ip.
  apply no_exit_bind; [|auto with noexit].
  destruct ip as [a|]; [|auto with noexit].
  apply no_exit_if; [apply no_exit_getLocation | auto with noexit].
Qed.

Lemma no_exit_getContainerPorts id : no_exit (getContainerPorts E id).
Proof. unfold getContainerPorts. auto 10 with noexit. Qed.

End UtilsNeverExit.

(** ** The test of the public-IP resolver *)

Lemma is_digit_or_dot_existsb (c : ascii) :
  Js.is_digit_or_dot c
  = existsb (Ascii.eqb c) (list_ascii_of_string "0123456789.").
Proof.
  destruct c as [b0 b1 b2 b3 b4 b5 b6 b7].
  destruct b0, b1, b2, b3, b4, b5, b6, b7; reflexivity.
Qed.

Lemma is_digit_or_dot_In (c : ascii) :
  Js.is_digit_or_dot c = true
  <-> In c (list_ascii_of_string "0123456789.").
Proof.
  rewrite is_digit_or_dot_existsb, existsb_exists. split.
  - intros [x [Hin Heq]]. apply Ascii.eqb_eq in Heq. subst x. exact Hin.
  - intros Hin. exists c. split; [exact Hin | apply Ascii.eqb_refl].
Qed.

Lemma all_chars_Forall (p : ascii -> bool) (s : string) :
  Js.all_chars p s = true
  <-> Forall (fun c => p c = true) (list_ascii_of_string s).
Proof.
  induction s as [|c r IH]; simpl.
  - split; [constructor | reflexivity].
  - rewrite andb_true_iff, IH. split.
    + intros [Hc Hr]. constructor; assumption.
    + intros H. inversion H; subst. split; assumption.
Qed.

Lemma test_digits_dots_spec (s : string) :
  Js.test_digits_dots s = true <-> DigitsAndDots s.
Proof.
  unfold DigitsAndDots. destruct s as [|c r].
  - simpl. split; [discriminate | intros [H _]; contradiction H; reflexivity].
  - unfold Js.test_digits_dots. rewrite all_chars_Forall. split.
    + intros H. split; [discriminate|].
      eapply Forall_impl; [|exact H].
      intros a Ha. apply is_digit_or_dot_In. exact Ha.
    + intros [_ H]. eapply Forall_impl; [|exact H].
      intros a Ha. apply is_digit_or_dot_In. exact Ha.
Qed.

Lemma is_digit_is_digit_or_dot (c : ascii) :
  Js.is_digit c = true -> Js.is_digit_or_dot c = true.
Proof. unfold Js.is_digit_or_dot. intros ->. reflexivity. Qed.

(** Dot-separated digit groups are made of digits and dots. *)
Lemma split_dot_groups (s : string) :
  forallb (Js.all_chars Js.is_digit) (Js.split "." s) = true ->
  Js.all_chars Js.is_digit_or_dot s = true.
Proof.
  induction s as [|c r IH]; [reflexivity|].
  cbn [Js.split Js.all_chars].
  destruct (Ascii.eqb "." c) eqn:Hc.
  - apply Ascii.eqb_eq in Hc. subst c. cbn [forallb Js.all_chars].
    intros H. rewrite IH; [reflexivity | exact H].
  - destruct (Js.split "." r) as [|w ws] eqn:Hsp.
    + cbn [forallb Js.all_chars]. rewrite !andb_true_r.
      intros H. rewrite (is_digit_is_digit_or_dot _ H). apply IH. reflexivity.
    + cbn [forallb Js.all_chars]. intros H.
      apply andb_true_iff in H. destruct H as [H Hws].
      apply andb_true_iff in H. destruct H as [Hd Hw].
      rewrite (is_digit_is_digit_or_dot _ Hd).
      apply IH. cbn [forallb]. rewrite Hw, Hws. reflexivity.
Qed.

Lemma spec_structural_ipv4_test (t : string) :
  spec_structural_ipv4 t = true -> Js.test_digits_dots t = true.
Proof.
  unfold spec_structural_ipv4, digit_group. intros H.
  destruct t as [|c r]; [discriminate H|].
  unfold Js.test_digits_dots. apply split_dot_groups.
  destruct (Js.split "." (String c r)) as [|a [|b [|e [|d [|x l]]]]];
    try discriminate H.
  cbn [forallb].
  repeat (apply andb_true_iff in H; destruct H as [H ?]).
  repeat match goal with
         | K : (_ && _)%bool = true |- _ =>
             apply andb_true_iff in K; destruct K
         end.
  repeat (apply andb_true_iff; split); trivial.
Qed.

(** C3, as amended. The resolver accepts the exec result as the IP if and
    only if the exit code is 0 and the trimmed output is a non-empty text of
    digits and dots; every other result yields null. Every text of four
    digit groups separated by exactly three dots passes that test, whatever
    the octets' range; the test asks for no particular number of groups. *)
Theorem C3_getPublicIP_accepts_digits_and_dots :
  forall (W : Type) (rc : string -> list string -> M W ExecResult)
         (gos : string -> M W string) (id : string) (s s1 s2 : State W)
         (osType : string) (r : ExecResult),
    id <> "" ->
    gos id s = (Returned osType, s1) ->
    rc id (command_for osType) s1 = (Returned r, s2) ->
    (exists res,
        getPublicIP rc (Some gos) id s = (Returned res, s2) /\
        (forall ip, res = Some ip <->
                    exitCode r = Some 0%Z /\ ip = Js.trim (output r)
                    /\ DigitsAndDots ip) /\
        (res = None <->
         ~ (exitCode r = Some 0%Z /\ DigitsAndDots (Js.trim (output r)))))
    /\ (forall t, spec_structural_ipv4 t = true -> DigitsAndDots t).
Proof.
  intros W rc gos id s s1 s2 osType r Hid Hos Hrc. split.
  - unfold getPublicIP.
    assert (Hinv : invalid_arg id = false).
    { unfold invalid_arg, Js.truthy. destruct (id =? "") eqn:He.
      - apply String.eqb_eq in He. contradiction.
      - reflexivity. }
    rewrite Hinv. rewrite (bind_Returned _ _ _ _ _ Hos).
    rewrite (bind_Returned _ _ _ _ _ Hrc).
    assert (Hz : exit_zero (exitCode r) = true <-> exitCode r = Some 0%Z).
    { unfold exit_zero. destruct (exitCode r) as [[|p|p]|]; split;
        intros H; try reflexivity; discriminate H. }
    destruct (exit_zero (exitCode r)
              && Js.test_digits_dots (Js.trim (output r))) eqn:Hacc.
    + apply andb_true_iff in Hacc. destruct Hacc as [Hx Ht].
      apply Hz in Hx. apply test_digits_dots_spec in Ht.
      eexists. split; [reflexivity|]. split.
      * intros ip. split.
        -- intros H. injection H as <-. auto.
        -- intros [_ [-> _]]. reflexivity.
      * split; [discriminate|]. intros H. exfalso. apply H. auto.
    + eexists. split; [reflexivity|]. split.
      * intros ip. split; [discriminate|].
        intros [Hx [-> Ht]]. exfalso.
        apply Hz in Hx. apply test_digits_dots_spec in Ht.
        rewrite Hx, Ht in Hacc. discriminate Hacc.
      * split; [|reflexivity]. intros _ [Hx Ht].
        apply Hz in Hx. apply test_digits_dots_spec in Ht.
        rewrite Hx, Ht in Hacc. discriminate Hacc.
  - intros t Ht. apply test_digits_dots_spec.
    apply spec_structural_ipv4_test. exact Ht.
Qed.

(** The exec result [("203.0.113.7", 0)] is accepted. *)
Lemma C3_accepts_digits_and_dots_witness :
  exists res,
    getPublicIP (fun _ _ => ret (mkExecResult "203.0.113.7" (Some 0%Z)))
                (Some (fun _ => ret "linux")) "idw" Scenario.start
    = (Returned res, Scenario.start)
    /\ res = Some "203.0.113.7".
Proof.
  destruct (C3_getPublicIP_accepts_digits_and_dots unit
              (fun _ _ => ret (mkExecResult "203.0.113.7" (Some 0%Z)))
              (fun _ => ret "linux") "idw"
              Scenario.start Scenario.start Scenario.start "linux"
              (mkExecResult "203.0.113.7" (Some 0%Z)))
    as [[res [Hrun [Hiff _]]] _].
  - discriminate.
  - reflexivity.
  - reflexivity.
  - exists res. split; [exact Hrun|]. apply Hiff.
    split; [reflexivity|]. split; [reflexivity|].
    apply test_digits_dots_spec. reflexivity.
Defined.

(** C3, as stated, fails: with exit code 0 the output [1.2] is accepted as
    the IP although it is not made of digit groups separated by exactly
    three dots. *)
Lemma C3_counterexample_two_groups :
  getPublicIP (fun _ _ => ret (mkExecResult "1.2" (Some 0%Z)))
              (Some (fun _ => ret "linux")) "idw" Scenario.start
  = (Returned (Some "1.2"), Scenario.start)
  /\ spec_structural_ipv4 (Js.trim "1.2") = false.
Proof. split; reflexivity. Qed.

(** ** Single pipelines *)

Lemma invalid_arg_false (x : string) : x <> "" -> invalid_arg x = false.
Proof.
  intros H. unfold invalid_arg, Js.truthy.
  destruct (x =? "") eqn:He; [|reflexivity].
  apply String.eqb_eq in He. contradiction.
Qed.

(** C6. For a (non-empty) IP the geolocation resolver always returns a
    text and never throws: "Unknown" when the response's status is "fail",
    "Lookup Failed" when the request or the parsing of the body fails, and
    otherwise country, comma, space, city exactly as received, empty fields
    included. *)
Theorem C6_getLocation_never_throws :
  forall (W : Type) (E : Engine W) (ip : string) (s : State W),
    ip <> "" ->
    let url := ("http://ip-api.com/json/" ++ ip)%string in
    (exists loc s', getLocation E ip s = (Returned loc, s')) /\
    (forall resp w' country city,
        fetch E url (world s) = (Ok resp, w') ->
        json resp = Ok (JsonObject (Some "fail") country city) ->
        fst (getLocation E ip s) = Returned "Unknown") /\
    (forall e w',
        fetch E url (world s) = (Fail e, w') ->
        fst (getLocation E ip s) = Returned "Lookup Failed") /\
    (forall resp e w',
        fetch E url (world s) = (Ok resp, w') ->
        json resp = Fail e ->
        fst (getLocation E ip s) = Returned "Lookup Failed") /\
    (forall resp w' status country city,
        fetch E url (world s) = (Ok resp, w') ->
        json resp = Ok (JsonObject status (Some country) (Some city)) ->
        status <> Some "fail" ->
        fst (getLocation E ip s)
        = Returned (country ++ ", " ++ city)%string).
Proof.
  intros W E ip s Hip url.
  unfold getLocation. rewrite (invalid_arg_false _ Hip). fold url.
  unfold try_catch, bind, call, throw, ret, console_error, emit.
  repeat split.
  - destruct (fetch E url (world s)) as [[resp | e] w'].
    + destruct (json resp) as [[ | | st co ci] | e].
      * destruct (env_DEBUG E); eauto.
      * eauto.
      * destruct (match st with Some s0 => s0 =? "fail" | None => false end);
          eauto.
      * destruct (env_DEBUG E); eauto.
    + destruct (env_DEBUG E); eauto.
  - intros resp w' country city Hf Hj. rewrite Hf, Hj. reflexivity.
  - intros e w' Hf. rewrite Hf. destruct (env_DEBUG E); reflexivity.
  - intros resp e w' Hf Hj. rewrite Hf, Hj.
    destruct (env_DEBUG E); reflexivity.
  - intros resp w' status country city Hf Hj Hst. rewrite Hf, Hj.
    destruct status as [st|]; [|reflexivity].
    destruct (st =? "fail") eqn:He; [|reflexivity].
    apply String.eqb_eq in He. subst st. contradiction Hst. reflexivity.
Qed.

(** The address 203.0.113.7 with the answer (success, US, Ashburn). *)
Lemma C6_getLocation_witness :
  fst (getLocation Scenario.all_fine "203.0.113.7" Scenario.start)
  = Returned "US, Ashburn".
Proof.
  apply (proj2 (proj2 (proj2 (proj2
           (C6_getLocation_never_throws unit Scenario.all_fine "203.0.113.7"
              Scenario.start ltac:(discriminate)))))
           Scenario.ashburn tt (Some "success") "US" "Ashburn").
  - reflexivity.
  - reflexivity.
  - discriminate.
Defined.

Section PipelineSteps.

Context {W : Type} (E : Engine W).

Lemma getContainerOsType_Ok id s d w1 :
  id <> "" ->
  inspect E id (world s) = (Ok d, w1) ->
  getContainerOsType E id s
  = (Returned (Js.or_default (option_map Js.toLowerCase (Os d)) "linux"),
     mkState w1 (trace s ++ [EvInspect id])).
Proof.
  intros Hid Hins. unfold getContainerOsType.
  rewrite (invalid_arg_false _ Hid). apply try_catch_Returned.
  rewrite (bind_Returned _ _ _ _ _ (call_Ok _ _ _ _ _ Hins)). reflexivity.
Qed.

Lemma getContainerOsType_Fail id s e w1 :
  id <> "" ->
  inspect E id (world s) = (Fail e, w1) ->
  getContainerOsType E id s
  = (Thrown (new_Error ("Failed to get OS type for container " ++ id
                        ++ ": " ++ message_or_self e)),
     mkState w1 (trace s ++ [EvInspect id])).
Proof.
  intros Hid Hins. unfold getContainerOsType.
  rewrite (invalid_arg_false _ Hid).
  erewrite try_catch_Thrown; [reflexivity|].
  apply bind_Thrown. apply call_Fail. exact Hins.
Qed.

Lemma runCommand_Ok id cmd s raw w1 :
  id <> "" ->
  exec E id cmd (world s) = (Ok raw, w1) ->
  runCommand E id cmd s
  = (Returned (mkExecResult
                 (Js.trim (Js.strip_nonprintable
                             (String.concat "" (chunks raw))))
                 (ExitCode raw)),
     mkState w1 (trace s ++ [EvExec id cmd])).
Proof.
  intros Hid Hex. unfold runCommand.
  rewrite (invalid_arg_false _ Hid). apply try_catch_Returned.
  rewrite (bind_Returned _ _ _ _ _ (call_Ok _ _ _ _ _ Hex)). reflexivity.
Qed.

Lemma runCommand_Fail id cmd s e w1 :
  id <> "" ->
  exec E id cmd (world s) = (Fail e, w1) ->
  runCommand E id cmd s
  = (Thrown (new_Error ("Failed to run command in container " ++ id
                        ++ ": " ++ message_or_self e)),
     mkState w1 (trace s ++ [EvExec id cmd])).
Proof.
  intros Hid Hex. unfold runCommand.
  rewrite (invalid_arg_false _ Hid).
  erewrite try_catch_Thrown; [reflexivity|].
  apply bind_Thrown. apply call_Fail. exact Hex.
Qed.

Lemma runCommand_trace id cmd s :
  id <> "" ->
  trace (snd (runCommand E id cmd s)) = trace s ++ [EvExec id cmd].
Proof.
  intros Hid. destruct (exec E id cmd (world s)) as [[raw | e] w1] eqn:Hex.
  - rewrite (runCommand_Ok _ _ _ _ _ Hid Hex). reflexivity.
  - rewrite (runCommand_Fail _ _ _ _ _ Hid Hex). reflexivity.
Qed.

(** Whatever the resolver returns as an IP has passed its test. *)
Lemma getPublicIP_Some_inv
      (rc : string -> list string -> M W ExecResult)
      (gos : option (string -> M W string)) id s a s' :
  getPublicIP rc gos id s = (Returned (Some a), s') ->
  Js.test_digits_dots a = true.
Proof.
  unfold getPublicIP. destruct (invalid_arg id); [discriminate|].
  intros H. apply bind_Returned_inv in H. destruct H as [os [s1 [_ H]]].
  apply bind_Returned_inv in H. destruct H as [r [s2 [_ H]]].
  destruct (exit_zero (exitCode r)
            && Js.test_digits_dots (Js.trim (output r))) eqn:Hacc.
  - injection H as <- _. apply andb_true_iff in Hacc. apply Hacc.
  - discriminate H.
Qed.


Lemma getContainerStatus_exec_Fail_trace id s d w1 d' w2 e w3 :
  id <> "" ->
  inspect E id (world s) = (Ok d, w1) ->
  Running d = true ->
  inspect E id w1 = (Ok d', w2) ->
  let cmd := command_for (Js.or_default (option_map Js.toLowerCase (Os d'))
                                        "linux") in
  exec E id cmd w2 = (Fail e, w3) ->
  getContainerStatus E id s
  = (Thrown (new_Error
               ("Failed to get status for container " ++ id
                ++ ": Failed to run command in container " ++ id
                ++ ": " ++ message_or_self e)),
     mkState w3 (trace s ++ [EvInspect id; EvInspect id; EvExec id cmd])).
Proof.
  intros Hid Hins Hrun Hos cmd Hex. unfold getContainerStatus.
  rewrite (invalid_arg_false _ Hid).
  match goal with
  | |- try_catch ?m ?h ?s0 = _ =>
      assert (Hbody :
        m s0 = (Thrown (new_Error
                          ("Failed to run command in container "
                           ++ id ++ ": " ++ message_or_self e)),
                mkState w3 (trace s ++ [EvInspect id; EvInspect id;
                                        EvExec id cmd])))
  end.
  { rewrite (bind_Returned _ _ _ _ _ (call_Ok _ _ _ _ _ Hins)).
    rewrite Hrun. cbn [negb]. apply bind_Thrown.
    unfold getPublicIP. rewrite (invalid_arg_false _ Hid).
    rewrite (bind_Returned _ _ _ _ _
               (getContainerOsType_Ok id (mkState w1 (trace s ++ [EvInspect id]))
                  d' w2 Hid Hos)).
    apply bind_Thrown. fold cmd. cbn [trace world].
    rewrite (runCommand_Fail id cmd
               (mkState w2 ((trace s ++ [EvInspect id]) ++ [EvInspect id]))
               e w3 Hid Hex).
    cbn [trace]. rewrite <- !app_assoc. reflexivity. }
  rewrite (try_catch_Thrown _ _ _ _ _ Hbody). reflexivity.
Qed.

(** A rejected inspect call makes the pipeline of its container throw. *)
Lemma getContainerStatus_inspect_Fail id s e w1 :
  id <> "" ->
  inspect E id (world s) = (Fail e, w1) ->
  getContainerStatus E id s
  = (Thrown (new_Error ("Failed to get status for container " ++ id
                        ++ ": " ++ message_or_self e)),
     mkState w1 (trace s ++ [EvInspect id])).
Proof.
  intros Hid Hins. unfold getContainerStatus.
  rewrite (invalid_arg_false _ Hid).
  erewrite try_catch_Thrown; [reflexivity|].
  apply bind_Thrown. apply call_Fail. exact Hins.
Qed.

End PipelineSteps.

(** C4, as amended. What decides is the flag [State.Running] of the inspect
    data, not the name of the state. For every container whose flag is false
    the resolved row is exactly (name, "Container " + State.Status,
    "Unknown"), and the one inspect call is the only call made: no exec, no
    geolocation request. For a container whose flag is true, whatever its
    status text says, the pipeline goes on: it inspects again and runs the
    command, and it throws when the exec call is rejected. *)
Theorem C4_not_running_short_circuit :
  forall (W : Type) (E : Engine W) (id : string) (s : State W)
         (d : InspectData) (w1 : W),
    id <> "" ->
    inspect E id (world s) = (Ok d, w1) ->
    (Running d = false ->
     getContainerStatus E id s
     = (Returned (display_name d, ("Container " ++ Status d)%string,
                  "Unknown"),
        mkState w1 (trace s ++ [EvInspect id])))
    /\ (Running d = true ->
        forall d' w2 e w3,
          inspect E id w1 = (Ok d', w2) ->
          let cmd :=
            command_for (Js.or_default (option_map Js.toLowerCase (Os d'))
                                       "linux") in
          exec E id cmd w2 = (Fail e, w3) ->
          getContainerStatus E id s
          = (Thrown (new_Error
                       ("Failed to get status for container " ++ id
                        ++ ": Failed to run command in container " ++ id
                        ++ ": " ++ message_or_self e)),
             mkState w3 (trace s ++ [EvInspect id; EvInspect id;
                                     EvExec id cmd]))).
Proof.
  intros W E id s d w1 Hid Hins. split.
  - intros Hrun. unfold getContainerStatus. rewrite (invalid_arg_false _ Hid).
    apply try_catch_Returned.
    rewrite (bind_Returned _ _ _ _ _ (call_Ok _ _ _ _ _ Hins)).
    rewrite Hrun. reflexivity.
  - intros Hrun d' w2 e w3 Hos cmd Hex.
    exact (getContainerStatus_exec_Fail_trace E id s d w1 d' w2 e w3
             Hid Hins Hrun Hos Hex).
Qed.

(** The exited container [db] gives the row (db, Container exited, Unknown)
    after one inspect call. *)
Lemma C4_not_running_witness :
  getContainerStatus Scenario.db_exited "idd" Scenario.start
  = (Returned ("db", "Container exited", "Unknown"),
     mkState tt [EvInspect "idd"]).
Proof.
  apply (proj1 (C4_not_running_short_circuit unit Scenario.db_exited "idd"
                  Scenario.start
                  (mkInspect (Some "/db") false "exited" None None) tt
                  ltac:(discriminate) eq_refl)).
  reflexivity.
Defined.

(** C4, as stated, fails: a paused container is not in the state "running",
    yet the engine reports [Running: true] for it and the pipeline does not
    stop after the first inspect call. It inspects again and tries to run
    the command; the engine refuses, and the pipeline throws instead of
    giving the row (web, Container paused, Unknown). *)
Lemma C4_counterexample_paused :
  fst (inspect Scenario.paused_box "idw" tt)
  = Ok (mkInspect (Some "/web") true "paused" None None)
  /\ getContainerStatus Scenario.paused_box "idw" Scenario.start
     = (Thrown (new_Error "Failed to get status for container idw: Failed to run command in container idw: Container idw is paused, unpause the container before exec"),
        mkState tt [EvInspect "idw"; EvInspect "idw";
                    EvExec "idw" ["sh"; "-c"; curlCmd]]).
Proof. split; reflexivity. Qed.

(** C5, as amended. For a running container whose command exits with a
    code other than 0, or whose trimmed output is not a non-empty text of
    digits and dots, the resolved IP is null and the row is
    (name, "Retrieval failed", "Unknown"); no geolocation request is made. *)
Theorem C5_failed_resolution_row :
  forall (W : Type) (E : Engine W) (id : string) (s : State W)
         (d d' : InspectData) (raw : ExecRaw) (w1 w2 w3 : W),
    id <> "" ->
    inspect E id (world s) = (Ok d, w1) ->
    Running d = true ->
    inspect E id w1 = (Ok d', w2) ->
    let cmd := command_for
                 (Js.or_default (option_map Js.toLowerCase (Os d')) "linux") in
    exec E id cmd w2 = (Ok raw, w3) ->
    let out := Js.trim (Js.strip_nonprintable
                          (String.concat "" (chunks raw))) in
    ExitCode raw <> Some 0%Z \/ ~ DigitsAndDots (Js.trim out) ->
    getPublicIP (runCommand E) (Some (getContainerOsType E)) id
                (mkState w1 (trace s ++ [EvInspect id]))
    = (Returned None,
       mkState w3 (trace s ++ [EvInspect id; EvInspect id; EvExec id cmd]))
    /\ getContainerStatus E id s
       = (Returned (display_name d, "Retrieval failed", "Unknown"),
          mkState w3 (trace s ++ [EvInspect id; EvInspect id; EvExec id cmd])).
Proof.
  intros W E id s d d' raw w1 w2 w3 Hid Hins Hrun Hos cmd Hex out Hbad.
  assert (Hip :
    getPublicIP (runCommand E) (Some (getContainerOsType E)) id
                (mkState w1 (trace s ++ [EvInspect id]))
    = (Returned None,
       mkState w3 (trace s ++ [EvInspect id; EvInspect id; EvExec id cmd]))).
  { unfold getPublicIP. rewrite (invalid_arg_false _ Hid).
    rewrite (bind_Returned _ _ _ _ _
               (getContainerOsType_Ok E id
                  (mkState w1 (trace s ++ [EvInspect id])) d' w2 Hid Hos)).
    fold cmd.
    rewrite (bind_Returned _ _ _ _ _
               (runCommand_Ok E id cmd
                  (mkState w2 ((trace s ++ [EvInspect id]) ++ [EvInspect id]))
                  raw w3 Hid Hex)).
    cbn [output exitCode trace]. fold out.
    assert (Hacc : exit_zero (ExitCode raw)
                   && Js.test_digits_dots (Js.trim out) = false).
    { destruct Hbad as [Hx | Ht].
      - unfold exit_zero. destruct (ExitCode raw) as [[|p|p]|];
          try reflexivity. contradiction Hx. reflexivity.
      - destruct (Js.test_digits_dots (Js.trim out)) eqn:Htest.
        + contradiction Ht. apply test_digits_dots_spec. exact Htest.
        + apply andb_false_r. }
    rewrite Hacc. unfold ret. rewrite <- !app_assoc. reflexivity. }
  split; [exact Hip|].
  unfold getContainerStatus. rewrite (invalid_arg_false _ Hid).
  apply try_catch_Returned.
  rewrite (bind_Returned _ _ _ _ _ (call_Ok _ _ _ _ _ Hins)).
  rewrite Hrun. cbn [negb].
  rewrite (bind_Returned _ _ _ _ _ Hip). reflexivity.
Qed.

(** A running container whose command prints "connection refused". *)
Lemma C5_failed_resolution_witness :
  getContainerStatus (Scenario.web_prints "connection refused") "idw"
                     Scenario.start
  = (Returned ("web", "Retrieval failed", "Unknown"),
     mkState tt [EvInspect "idw"; EvInspect "idw";
                 EvExec "idw" ["sh"; "-c"; "curl -s https://api.ipify.org"]]).
Proof.
  apply (C5_failed_resolution_row unit
           (Scenario.web_prints "connection refused") "idw" Scenario.start
           (Scenario.running "/web") (Scenario.running "/web")
           (mkExecRaw ["connection refused"; String "010" ""] (Some 0%Z))
           tt tt tt).
  - discriminate.
  - reflexivity.
  - reflexivity.
  - reflexivity.
  - reflexivity.
  - right. intros H. apply test_digits_dots_spec in H. discriminate H.
Defined.

(** C5, as stated, fails: a running container whose command exits with 0
    and prints [1..2], which is not a text of dot-separated digit groups,
    gets a row with that text as its IP and a looked-up location. *)
Lemma C5_counterexample_empty_group :
  getContainerStatus (Scenario.web_prints "1..2") "idw" Scenario.start
  = (Returned ("web", "1..2", "US, Ashburn"),
     mkState tt [EvInspect "idw"; EvInspect "idw";
                 EvExec "idw" ["sh"; "-c"; "curl -s https://api.ipify.org"];
                 EvFetch "http://ip-api.com/json/1..2"])
  /\ spec_structural_ipv4 "1..2" = false.
Proof. split; reflexivity. Qed.

(** C7, as amended. The OS type is "linux" when the inspected [Os] is absent
    or empty, and the lower-cased [Os] otherwise; the command vector is
    [curl -s https://api.ipify.org] split at its spaces when the OS type
    contains "win", and [sh -c "curl -s https://api.ipify.org"] otherwise.
    When the inspect call fails nothing is defaulted: the resolver throws
    and runs no command. *)
Theorem C7_os_type_and_command :
  forall (W : Type) (E : Engine W) (id : string) (s : State W),
    id <> "" ->
    (forall d w1,
        inspect E id (world s) = (Ok d, w1) ->
        exists cmd,
          trace (snd (getPublicIP (runCommand E) (Some (getContainerOsType E))
                                  id s))
          = trace s ++ [EvInspect id; EvExec id cmd]
          /\ (Os d = None \/ Os d = Some "" ->
              cmd = ["sh"; "-c"; "curl -s https://api.ipify.org"])
          /\ (forall os, Os d = Some os ->
                         Js.includes "win" (Js.toLowerCase os) = true ->
                         cmd = ["curl"; "-s"; "https://api.ipify.org"])
          /\ (forall os, Os d = Some os ->
                         Js.includes "win" (Js.toLowerCase os) = false ->
                         cmd = ["sh"; "-c"; "curl -s https://api.ipify.org"]))
    /\ (forall e w1,
           inspect E id (world s) = (Fail e, w1) ->
           getPublicIP (runCommand E) (Some (getContainerOsType E)) id s
           = (Thrown (new_Error ("Failed to get OS type for container "
                                 ++ id ++ ": " ++ message_or_self e)),
              mkState w1 (trace s ++ [EvInspect id]))).
Proof.
  intros W E id s Hid. split.
  - intros d w1 Hins.
    exists (command_for
              (Js.or_default (option_map Js.toLowerCase (Os d)) "linux")).
    split.
    + unfold getPublicIP. rewrite (invalid_arg_false _ Hid).
      rewrite (bind_Returned _ _ _ _ _
                 (getContainerOsType_Ok E id s d w1 Hid Hins)).
      pose proof (runCommand_trace E id
                    (command_for
                       (Js.or_default (option_map Js.toLowerCase (Os d))
                                      "linux"))
                    (mkState w1 (trace s ++ [EvInspect id])) Hid) as Htr.
      unfold bind.
      destruct (runCommand E id _ _) as [[r | e | c] s2];
        cbn [snd trace] in Htr |- *.
      * destruct (exit_zero (exitCode r) && _);
          cbn [ret snd trace]; rewrite Htr, <- app_assoc; reflexivity.
      * rewrite Htr, <- app_assoc. reflexivity.
      * rewrite Htr, <- app_assoc. reflexivity.
    + split; [|split].
      * intros [H | H]; rewrite H; reflexivity.
      * intros os Hos Hwin. rewrite Hos. cbn [option_map Js.or_default].
        destruct (Js.truthy (Js.toLowerCase os)) eqn:Ht.
        -- unfold command_for. rewrite Hwin. reflexivity.
        -- destruct os; [discriminate Hwin | discriminate Ht].
      * intros os Hos Hwin. rewrite Hos. cbn [option_map Js.or_default].
        destruct (Js.truthy (Js.toLowerCase os)) eqn:Ht.
        -- unfold command_for. rewrite Hwin. reflexivity.
        -- reflexivity.
  - intros e w1 Hins. unfold getPublicIP. rewrite (invalid_arg_false _ Hid).
    apply bind_Thrown. apply getContainerOsType_Fail; assumption.
Qed.

(** A container without [Os] gets the shell-wrapped command. *)
Lemma C7_os_type_witness :
  trace (snd (getPublicIP (runCommand Scenario.all_fine)
                          (Some (getContainerOsType Scenario.all_fine))
                          "ida" Scenario.start))
  = [EvInspect "ida";
     EvExec "ida" ["sh"; "-c"; "curl -s https://api.ipify.org"]].
Proof.
  destruct (proj1 (C7_os_type_and_command unit Scenario.all_fine "ida"
                     Scenario.start ltac:(discriminate))
              (Scenario.running "/a") tt eq_refl)
    as [cmd [Htr [Hdefault _]]].
  rewrite Htr, (Hdefault (or_introl eq_refl)). reflexivity.
Defined.

(** The match is on the lower-cased value: [Windows] selects the split
    command. *)
Example windows_command :
  trace (snd (getPublicIP (runCommand Scenario.windows_box)
                          (Some (getContainerOsType Scenario.windows_box))
                          "idi" Scenario.start))
  = [EvInspect "idi";
     EvExec "idi" ["curl"; "-s"; "https://api.ipify.org"]].
Proof. reflexivity. Qed.

(** C7, as stated, fails on "any failure": when the container cannot be
    inspected the resolver does not fall back to the shell-wrapped command;
    it throws, and no command is run. *)
Lemma C7_counterexample_inspect_failure :
  getPublicIP (runCommand Scenario.gone)
              (Some (getContainerOsType Scenario.gone)) "idw" Scenario.start
  = (Thrown (new_Error
       "Failed to get OS type for container idw: No such container: idw"),
     mkState tt [EvInspect "idw"]).
Proof. reflexivity. Qed.

(** C9, as amended. In every row produced by status resolution, the location
    is a real place (neither "Unknown" nor "Lookup Failed") only when the
    second field is a text accepted by the resolver's test: non-empty, digits
    and dots only. *)
Theorem C9_location_only_with_accepted_ip :
  forall (W : Type) (E : Engine W) (id : string) (s s' : State W)
         (name ipOrStatus location : string),
    getContainerStatus E id s = (Returned (name, ipOrStatus, location), s') ->
    location <> "Unknown" ->
    location <> "Lookup Failed" ->
    DigitsAndDots ipOrStatus.
Proof.
  intros W E id s s' name ipOrStatus location Hrun Hunk _.
  unfold getContainerStatus in Hrun.
  destruct (invalid_arg id); [discriminate Hrun|].
  apply try_rethrow_Returned_inv
    with (wrap := fun err =>
                    new_Error ("Failed to get status for container " ++ id
                               ++ ": " ++ message_or_self err)) in Hrun.
  apply bind_Returned_inv in Hrun. destruct Hrun as [d [s1 [_ Hrun]]].
  destruct (Running d); cbn [negb] in Hrun.
  - apply bind_Returned_inv in Hrun. destruct Hrun as [ip [s2 [Hip Hrun]]].
    apply bind_Returned_inv in Hrun. destruct Hrun as [loc [s3 [Hloc Hrun]]].
    injection Hrun as _ Hfield Hl _. subst loc.
    destruct ip as [a|].
    + subst ipOrStatus. apply test_digits_dots_spec.
      eapply getPublicIP_Some_inv. exact Hip.
    + injection Hloc as Hl _. contradiction Hunk. symmetry. exact Hl.
  - injection Hrun as _ _ Hl _. contradiction Hunk. symmetry. exact Hl.
Qed.

(** The row (a, 203.0.113.7, "US, Ashburn"). *)
Lemma C9_location_witness : DigitsAndDots "203.0.113.7".
Proof.
  apply (C9_location_only_with_accepted_ip unit Scenario.all_fine "ida"
           Scenario.start
           (mkState tt [EvInspect "ida"; EvInspect "ida";
                        EvExec "ida" ["sh"; "-c"; curlCmd];
                        EvFetch "http://ip-api.com/json/203.0.113.7"])
           "a" "203.0.113.7" "US, Ashburn").
  - reflexivity.
  - discriminate.
  - discriminate.
Defined.

(** C9, as stated, fails: the row of a container whose command prints
    [8.8.8] names a real place next to a text that is no IPv4 address. *)
Lemma C9_counterexample_place_without_ipv4 :
  fst (getContainerStatus (Scenario.web_prints "8.8.8") "idw" Scenario.start)
  = Returned ("web", "8.8.8", "US, Ashburn")
  /\ spec_structural_ipv4 "8.8.8" = false.
Proof. split; reflexivity. Qed.

(** ** Objects as maps *)

Section ObjectFacts.

Context {V : Type}.

Lemma has_In (k : string) (o : JsObject.t V) :
  JsObject.has k o = true <-> In k (JsObject.keys o).
Proof.
  unfold JsObject.has, JsObject.keys.
  induction o as [|[k' v'] r IH]; cbn [JsObject.get map fst In].
  - split; [discriminate | contradiction].
  - destruct (k =? k') eqn:He.
    + apply String.eqb_eq in He. subst k'. split; auto.
    + apply String.eqb_neq in He. rewrite IH. split; [auto|].
      intros [H | H]; [contradiction He; symmetry; exact H | exact H].
Qed.

Lemma keys_update (k : string) (v : V) (o : JsObject.t V) :
  JsObject.keys (JsObject.update k v o) = JsObject.keys o.
Proof.
  unfold JsObject.keys.
  induction o as [|[k' v'] r IH]; cbn [JsObject.update map fst];
    [reflexivity|].
  destruct (k =? k'); cbn [map fst]; [reflexivity | rewrite IH; reflexivity].
Qed.

Lemma get_update_same (k : string) (v : V) (o : JsObject.t V) :
  JsObject.has k o = true ->
  JsObject.get k (JsObject.update k v o) = Some v.
Proof.
  unfold JsObject.has.
  induction o as [|[k' v'] r IH]; cbn [JsObject.update JsObject.get];
    [discriminate|].
  destruct (k =? k') eqn:He; cbn [JsObject.get]; rewrite He;
    [reflexivity | exact IH].
Qed.

Lemma get_update_other (k k' : string) (v : V) (o : JsObject.t V) :
  k' <> k ->
  JsObject.get k' (JsObject.update k v o) = JsObject.get k' o.
Proof.
  intros Hne.
  induction o as [|[k0 v0] r IH]; cbn [JsObject.update JsObject.get];
    [reflexivity|].
  destruct (k =? k0) eqn:He; cbn [JsObject.get].
  - apply String.eqb_eq in He. subst k0.
    apply String.eqb_neq in Hne. rewrite Hne. reflexivity.
  - rewrite IH. reflexivity.
Qed.

Lemma keys_insert_index_In (n : N) (k k' : string) (v : V)
      (o : JsObject.t V) :
  In k' (JsObject.keys (JsObject.insert_index n k v o))
  <-> k' = k \/ In k' (JsObject.keys o).
Proof.
  unfold JsObject.keys.
  induction o as [|[k0 v0] r IH]; cbn [JsObject.insert_index map fst In].
  - split; intros [H | H]; auto.
  - destruct (JsObject.array_index k0) as [m|];
      [destruct (n <? m)%N|]; cbn [map fst In]; try rewrite IH;
      split; intros H; intuition auto.
Qed.

Lemma keys_insert_index_NoDup (n : N) (k : string) (v : V)
      (o : JsObject.t V) :
  ~ In k (JsObject.keys o) ->
  NoDup (JsObject.keys o) ->
  NoDup (JsObject.keys (JsObject.insert_index n k v o)).
Proof.
  induction o as [|[k0 v0] r IH]; intros Hnot Hnd.
  - cbn. constructor; [intros [] | constructor].
  - cbn [JsObject.insert_index].
    assert (Hcons : NoDup (JsObject.keys ((k, v) :: (k0, v0) :: r))).
    { unfold JsObject.keys in *. cbn [map fst] in *.
      constructor; assumption. }
    destruct (JsObject.array_index k0) as [m|];
      [destruct (n <? m)%N|]; try exact Hcons.
    unfold JsObject.keys in *. cbn [map fst] in *.
    inversion Hnd as [|x l Hx Hl]; subst.
    constructor.
    + intros Hin. apply (keys_insert_index_In n k k0 v r) in Hin.
      destruct Hin as [-> | Hin]; [apply Hnot; left; reflexivity|].
      exact (Hx Hin).
    + apply IH; [|exact Hl]. intros Hin. apply Hnot. right. exact Hin.
Qed.

Lemma get_insert_index_same (n : N) (k : string) (v : V)
      (o : JsObject.t V) :
  ~ In k (JsObject.keys o) ->
  JsObject.get k (JsObject.insert_index n k v o) = Some v.
Proof.
  induction o as [|[k0 v0] r IH]; intros Hnot;
    cbn [JsObject.insert_index JsObject.get].
  - rewrite String.eqb_refl. reflexivity.
  - assert (Hk0 : (k =? k0) = false).
    { apply String.eqb_neq. intros ->. apply Hnot. left. reflexivity. }
    destruct (JsObject.array_index k0) as [m|];
      [destruct (n <? m)%N|]; cbn [JsObject.get];
      rewrite ?String.eqb_refl, ?Hk0; try reflexivity.
    apply IH. intros Hin. apply Hnot. right. exact Hin.
Qed.

Lemma get_insert_index_other (n : N) (k k' : string) (v : V)
      (o : JsObject.t V) :
  k' <> k ->
  JsObject.get k' (JsObject.insert_index n k v o) = JsObject.get k' o.
Proof.
  intros Hne. apply String.eqb_neq in Hne.
  induction o as [|[k0 v0] r IH]; cbn [JsObject.insert_index JsObject.get].
  - rewrite Hne. reflexivity.
  - destruct (JsObject.array_index k0) as [m|];
      [destruct (n <? m)%N|]; cbn [JsObject.get]; rewrite ?Hne, ?IH;
      reflexivity.
Qed.

Lemma get_app_last_same (k : string) (v : V) (o : JsObject.t V) :
  ~ In k (JsObject.keys o) ->
  JsObject.get k (o ++ [(k, v)]) = Some v.
Proof.
  induction o as [|[k0 v0] r IH]; intros Hnot; cbn [app JsObject.get].
  - rewrite String.eqb_refl. reflexivity.
  - assert (Hk0 : (k =? k0) = false).
    { apply String.eqb_neq. intros ->. apply Hnot. left. reflexivity. }
    rewrite Hk0. apply IH. intros Hin. apply Hnot. right. exact Hin.
Qed.

Lemma get_app_last_other (k k' : string) (v : V) (o : JsObject.t V) :
  k' <> k ->
  JsObject.get k' (o ++ [(k, v)]) = JsObject.get k' o.
Proof.
  intros Hne. apply String.eqb_neq in Hne.
  induction o as [|[k0 v0] r IH]; cbn [app JsObject.get].
  - rewrite Hne. reflexivity.
  - rewrite IH. reflexivity.
Qed.

Lemma get_set_same (k : string) (v : V) (o : JsObject.t V) :
  JsObject.get k (JsObject.set k v o) = Some v.
Proof.
  unfold JsObject.set. destruct (JsObject.has k o) eqn:Hhas.
  - apply get_update_same. exact Hhas.
  - assert (Hnot : ~ In k (JsObject.keys o)).
    { intros Hin. apply has_In in Hin. congruence. }
    destruct (JsObject.array_index k).
    + apply get_insert_index_same. exact Hnot.
    + apply get_app_last_same. exact Hnot.
Qed.

Lemma get_set_other (k k' : string) (v : V) (o : JsObject.t V) :
  k' <> k ->
  JsObject.get k' (JsObject.set k v o) = JsObject.get k' o.
Proof.
  intros Hne. unfold JsObject.set. destruct (JsObject.has k o).
  - apply get_update_other. exact Hne.
  - destruct (JsObject.array_index k).
    + apply get_insert_index_other. exact Hne.
    + apply get_app_last_other. exact Hne.
Qed.

Lemma keys_set_In (k k' : string) (v : V) (o : JsObject.t V) :
  In k' (JsObject.keys (JsObject.set k v o))
  <-> k' = k \/ In k' (JsObject.keys o).
Proof.
  unfold JsObject.set. destruct (JsObject.has k o) eqn:Hhas.
  - rewrite keys_update. apply has_In in Hhas. split; [auto|].
    intros [-> | H]; assumption.
  - destruct (JsObject.array_index k).
    + apply keys_insert_index_In.
    + unfold JsObject.keys. rewrite map_app, in_app_iff. cbn.
      split; intros H; intuition auto.
Qed.

Lemma keys_set_NoDup (k : string) (v : V) (o : JsObject.t V) :
  NoDup (JsObject.keys o) -> NoDup (JsObject.keys (JsObject.set k v o)).
Proof.
  intros Hnd. unfold JsObject.set. destruct (JsObject.has k o) eqn:Hhas.
  - rewrite keys_update. exact Hnd.
  - assert (Hnot : ~ In k (JsObject.keys o)).
    { intros Hin. apply has_In in Hin. congruence. }
    destruct (JsObject.array_index k).
    + apply keys_insert_index_NoDup; assumption.
    + unfold JsObject.keys in *. rewrite map_app. cbn [map fst].
      apply NoDup_app; [exact Hnd | constructor; [intros [] | constructor] |].
      intros a Ha [<- | []]. exact (Hnot Ha).
Qed.

Lemma assign_all_cons k0 (v0 : V) (r : list (string * V)) (o : JsObject.t V) :
  JsObject.assign_all ((k0, v0) :: r) o
  = JsObject.assign_all r (JsObject.set k0 v0 o).
Proof. reflexivity. Qed.

Lemma assign_all_keys_In (l : list (string * V)) (o : JsObject.t V) k :
  In k (JsObject.keys (JsObject.assign_all l o))
  <-> In k (map fst l) \/ In k (JsObject.keys o).
Proof.
  revert o. induction l as [|[k0 v0] r IH]; intros o.
  - cbn. split; [auto | intros [[] | H]; exact H].
  - rewrite assign_all_cons, IH, keys_set_In. cbn [map fst In].
    split; intros H; intuition auto.
Qed.

Lemma assign_all_keys_NoDup (l : list (string * V)) (o : JsObject.t V) :
  NoDup (JsObject.keys o) -> NoDup (JsObject.keys (JsObject.assign_all l o)).
Proof.
  revert o. induction l as [|[k0 v0] r IH]; intros o Hnd.
  - exact Hnd.
  - rewrite assign_all_cons. apply IH. apply keys_set_NoDup. exact Hnd.
Qed.

Lemma assign_all_get_untouched (l : list (string * V)) (o : JsObject.t V) k :
  ~ In k (map fst l) ->
  JsObject.get k (JsObject.assign_all l o) = JsObject.get k o.
Proof.
  revert o. induction l as [|[k0 v0] r IH]; intros o Hnot.
  - reflexivity.
  - rewrite assign_all_cons.
    rewrite IH; [|intros Hin; apply Hnot; right; exact Hin].
    apply get_set_other. intros ->. apply Hnot. left. reflexivity.
Qed.

Lemma assign_all_app (l1 l2 : list (string * V)) (o : JsObject.t V) :
  JsObject.assign_all (l1 ++ l2) o
  = JsObject.assign_all l2 (JsObject.assign_all l1 o).
Proof. unfold JsObject.assign_all. apply fold_left_app. Qed.

End ObjectFacts.

(** ** Pipelines step by step *)

Section StepFacts.

Context {W : Type} (E : Engine W).











(** However a pipeline is played, it ends in one of the ways it can end. *)
Lemma run_may {A} (p : Proc A) (s : State W) :
  may_settle E p (fst (run E p s)).
Proof.
  revert s.
  induction p as [a | e | ev k IH | id k IH | id cmd k IH | url k IH];
    intros s; cbn [run].
  - constructor.
  - constructor.
  - apply may_emit. apply IH.
  - destruct (inspect E id (world s)) as [r w'] eqn:Hq.
    apply may_inspect with (w := world s). rewrite Hq. apply IH.
  - destruct (exec E id cmd (world s)) as [r w'] eqn:Hq.
    apply may_exec with (w := world s). rewrite Hq. apply IH.
  - destruct (fetch E url (world s)) as [r w'] eqn:Hq.
    apply may_fetch with (w := world s). rewrite Hq. apply IH.
Qed.


Lemma may_settle_not_Exited {A} (p : Proc A) c : ~ may_settle E p (Exited c).
Proof.
  intros H. remember (Exited c) as r eqn:Hr.
  induction H; try discriminate Hr; auto.
Qed.

End StepFacts.

(** ** How many requests a pipeline makes, and what it leaves in the trace *)

Lemma within_le {A} (p : Proc A) (n m : nat) :
  within n p -> n <= m -> within m p.
Proof.
  revert n m.
  induction p as [a | e | ev k IH | id k IH | id cmd k IH | url k IH];
    intros n m H Hle; cbn [within] in *; trivial.
  - exact (IH _ _ H Hle).
  - destruct n as [|n]; [destruct H|]. destruct m as [|m]; [lia|].
    intros r. apply (IH r n m); [apply H | lia].
  - destruct n as [|n]; [destruct H|]. destruct m as [|m]; [lia|].
    intros r. apply (IH r n m); [apply H | lia].
  - destruct n as [|n]; [destruct H|]. destruct m as [|m]; [lia|].
    intros r. apply (IH r n m); [apply H | lia].
Qed.

Lemma within_pbind {A B} (p : Proc A) (f : A -> Proc B) (n m : nat) :
  within n p -> (forall a, within m (f a)) -> within (n + m) (pbind p f).
Proof.
  intros H Hf. revert n H.
  induction p as [a | e | ev k IH | id k IH | id cmd k IH | url k IH];
    intros n H; cbn [within pbind] in *.
  - apply within_le with (n := m); [apply Hf | lia].
  - exact I.
  - apply IH. exact H.
  - destruct n as [|n]; [destruct H|]. cbn [Nat.add].
    intros r. apply IH. apply H.
  - destruct n as [|n]; [destruct H|]. cbn [Nat.add].
    intros r. apply IH. apply H.
  - destruct n as [|n]; [destruct H|]. cbn [Nat.add].
    intros r. apply IH. apply H.
Qed.

Lemma within_ptry {A} (p : Proc A) (h : JsError -> Proc A) (n m : nat) :
  within n p -> (forall e, within m (h e)) -> within (n + m) (ptry p h).
Proof.
  intros H Hh. revert n H.
  induction p as [a | e | ev k IH | id k IH | id cmd k IH | url k IH];
    intros n H; cbn [within ptry] in *.
  - exact I.
  - apply within_le with (n := m); [apply Hh | lia].
  - apply IH. exact H.
  - destruct n as [|n]; [destruct H|]. cbn [Nat.add].
    intros r. apply IH. apply H.
  - destruct n as [|n]; [destruct H|]. cbn [Nat.add].
    intros r. apply IH. apply H.
  - destruct n as [|n]; [destruct H|]. cbn [Nat.add].
    intros r. apply IH. apply H.
Qed.

Lemma within_answered {A} (r : Reply A) (n : nat) : within n (answered r).
Proof. destruct r; exact I. Qed.

Lemma within_runCommand id cmd : within 1 (runCommand_steps id cmd).
Proof.
  unfold runCommand_steps. destruct (invalid_arg id); [exact I|].
  apply (within_ptry _ _ 1 0); [|intros e; exact I].
  apply (within_pbind _ _ 1 0); [|intros raw; exact I].
  intros r. apply within_answered.
Qed.

Lemma within_getContainerOsType id : within 1 (getContainerOsType_steps id).
Proof.
  unfold getContainerOsType_steps. destruct (invalid_arg id); [exact I|].
  apply (within_ptry _ _ 1 0); [|intros e; exact I].
  apply (within_pbind _ _ 1 0); [|intros d; exact I].
  intros r. apply within_answered.
Qed.

Lemma within_getPublicIP id :
  within 2 (getPublicIP_steps runCommand_steps
              (Some getContainerOsType_steps) id).
Proof.
  unfold getPublicIP_steps. destruct (invalid_arg id); [exact I|].
  apply (within_pbind _ _ 1 1); [apply within_getContainerOsType|].
  intros os.
  apply (within_pbind _ _ 1 0); [apply within_runCommand|].
  intros r.
  destruct (exit_zero (exitCode r)
            && Js.test_digits_dots (Js.trim (output r))); exact I.
Qed.

Lemma within_getLocation debug ip : within 1 (getLocation_steps debug ip).
Proof.
  unfold getLocation_steps. destruct (invalid_arg ip); [exact I|].
  apply (within_ptry _ _ 1 0).
  - apply (within_pbind _ _ 1 0).
    + intros r. apply within_answered.
    + intros resp. apply (within_pbind _ _ 0 0).
      * apply within_answered.
      * intros [ | | st co ci]; try exact I.
        destruct (match st with Some s0 => s0 =? "fail" | None => false end);
          exact I.
  - intros e. destruct debug; exact I.
Qed.

(** One status pipeline makes at most four requests. *)
Lemma within_getContainerStatus debug id :
  within pipeline_requests (getContainerStatus_steps debug id).
Proof.
  unfold getContainerStatus_steps, pipeline_requests.
  destruct (invalid_arg id); [exact I|].
  apply (within_ptry _ _ 4 0); [|intros e; exact I].
  apply (within_pbind _ _ 1 3); [intros r; apply within_answered|].
  intros d. destruct (negb (Running d)); [exact I|].
  apply (within_pbind _ _ 2 1); [apply within_getPublicIP|].
  intros ip. apply (within_pbind _ _ 1 0).
  - destruct ip as [a|]; [|exact I].
    destruct (Js.truthy a); [apply within_getLocation | exact I].
  - intros loc. exact I.
Qed.

Lemma proc_emits_impl {A} (P Q : Event -> Prop) (p : Proc A) :
  (forall ev, P ev -> Q ev) -> proc_emits P p -> proc_emits Q p.
Proof.
  intros HPQ.
  induction p as [a | e | ev k IH | id k IH | id cmd k IH | url k IH];
    cbn [proc_emits]; trivial.
  - intros [H1 H2]. split; auto.
  - intros [H1 H2]. split; auto.
  - intros [H1 H2]. split; auto.
  - intros [H1 H2]. split; auto.
Qed.

Lemma proc_emits_pbind {A B} P (p : Proc A) (f : A -> Proc B) :
  proc_emits P p -> (forall a, proc_emits P (f a)) ->
  proc_emits P (pbind p f).
Proof.
  intros H Hf.
  induction p as [a | e | ev k IH | id k IH | id cmd k IH | url k IH];
    cbn [proc_emits pbind] in *.
  - apply Hf.
  - exact I.
  - destruct H as [H1 H2]. split; auto.
  - destruct H as [H1 H2]. split; auto.
  - destruct H as [H1 H2]. split; auto.
  - destruct H as [H1 H2]. split; auto.
Qed.

Lemma proc_emits_ptry {A} P (p : Proc A) (h : JsError -> Proc A) :
  proc_emits P p -> (forall e, proc_emits P (h e)) ->
  proc_emits P (ptry p h).
Proof.
  intros H Hh.
  induction p as [a | e | ev k IH | id k IH | id cmd k IH | url k IH];
    cbn [proc_emits ptry] in *.
  - exact I.
  - apply Hh.
  - destruct H as [H1 H2]. split; auto.
  - destruct H as [H1 H2]. split; auto.
  - destruct H as [H1 H2]. split; auto.
  - destruct H as [H1 H2]. split; auto.
Qed.

Lemma proc_emits_answered {A} P (r : Reply A) : proc_emits P (answered r).
Proof. destruct r; exact I. Qed.

(** ** Promise.all *)

Lemma insert_stamp_In (t x : nat) (l : list nat) :
  In x (insert_stamp t l) <-> x = t \/ In x l.
Proof.
  induction l as [|u r IH]; cbn [insert_stamp].
  - cbn. intuition auto.
  - destruct (t <=? u)%nat; cbn [In]; [intuition auto|].
    rewrite IH. intuition auto.
Qed.

Lemma insert_stamp_length (t : nat) (l : list nat) :
  length (insert_stamp t l) = S (length l).
Proof.
  induction l as [|u r IH]; cbn [insert_stamp]; [reflexivity|].
  destruct (t <=? u)%nat; cbn [length]; [reflexivity|].
  rewrite IH. reflexivity.
Qed.

Lemma by_age_In (x : nat) (l : list nat) : In x (by_age l) <-> In x l.
Proof.
  unfold by_age. induction l as [|t r IH]; cbn [fold_right In].
  - reflexivity.
  - rewrite insert_stamp_In, IH. intuition auto.
Qed.

Lemma by_age_length (l : list nat) : length (by_age l) = length l.
Proof.
  unfold by_age. induction l as [|t r IH]; cbn [fold_right length].
  - reflexivity.
  - rewrite insert_stamp_length, IH. reflexivity.
Qed.

Lemma Forall2_refl_on {A} (R : A -> A -> Prop) (l : list A) :
  (forall a, R a a) -> Forall2 R l l.
Proof. intros H. induction l; constructor; auto. Qed.

Lemma Forall2_compose {A B C} (R : A -> B -> Prop) (Q : B -> C -> Prop)
      (T : A -> C -> Prop) la lb lc :
  (forall a b c, R a b -> Q b c -> T a c) ->
  Forall2 R la lb -> Forall2 Q lb lc -> Forall2 T la lc.
Proof.
  intros H HR. revert lc.
  induction HR as [|a b la lb Hab HR IH]; intros lc HQ; inversion HQ; subst.
  - constructor.
  - constructor; eauto.
Qed.

Lemma Forall2_Exists_back {A B} (R : A -> B -> Prop) (P : A -> Prop)
      (Q : B -> Prop) la lb :
  (forall a b, R a b -> Q b -> P a) ->
  Forall2 R la lb -> Exists Q lb -> Exists P la.
Proof.
  intros H HR. induction HR as [|a b la lb Hab HR IH]; intros HQ;
    inversion HQ; subst.
  - apply Exists_cons_hd. eauto.
  - apply Exists_cons_tl. auto.
Qed.

Section BatchFacts.

Context {W : Type} (E : Engine W) {A : Type}.

Lemma settle_eq (n : nat) (slots : list (Slot A)) (s : State W) :
  settle E n slots s
  = match first_rejection slots with
    | Some e => Some (Thrown e, s)
    | None =>
        match waiting_stamps slots with
        | [] => Some (Returned (fulfilled_values slots), s)
        | _ :: _ =>
            match n with
            | O => None
            | S n' =>
                let (slots', s') :=
                  deliver E (next_arrival E slots s) slots s in
                settle E n' slots' s'
            end
        end
    end.
Proof. destruct n; reflexivity. Qed.

Lemma next_arrival_In (slots : list (Slot A)) (s : State W) :
  waiting_stamps slots <> [] ->
  In (next_arrival E slots s) (waiting_stamps slots).
Proof.
  intros Hne. unfold next_arrival. apply by_age_In. apply nth_In.
  rewrite by_age_length. apply Nat.mod_upper_bound.
  destruct (waiting_stamps slots); [contradiction Hne; reflexivity|].
  discriminate.
Qed.

(** *** The ways the promises can end *)

Lemma advance_may (p : Proc A) (s : State W) (r : Outcome A) :
  slot_may E (slot_of (fst (advance E p s)) (snd (advance E p s))) r ->
  may_settle E p r.
Proof.
  revert s.
  induction p as [a | e | ev k IH | id k IH | id cmd k IH | url k IH];
    intros s; cbn [advance].
  - cbn. intros ->. constructor.
  - cbn. intros ->. constructor.
  - intros H. apply may_emit. exact (IH _ H).
  - destruct (inspect E id (world s)) as [r0 w'] eqn:Hq. cbn.
    intros H. apply may_inspect with (w := world s). rewrite Hq. exact H.
  - destruct (exec E id cmd (world s)) as [r0 w'] eqn:Hq. cbn.
    intros H. apply may_exec with (w := world s). rewrite Hq. exact H.
  - destruct (fetch E url (world s)) as [r0 w'] eqn:Hq. cbn.
    intros H. apply may_fetch with (w := world s). rewrite Hq. exact H.
Qed.

Lemma start_all_cons (p : Proc A) (ps : list (Proc A)) (s : State W) :
  start_all E (p :: ps) s
  = (slot_of (fst (advance E p s)) (snd (advance E p s))
       :: fst (start_all E ps (snd (advance E p s))),
     snd (start_all E ps (snd (advance E p s)))).
Proof.
  cbn [start_all]. destruct (advance E p s) as [g s1]. cbn [fst snd].
  destruct (start_all E ps s1); reflexivity.
Qed.

Lemma start_all_app (ps1 ps2 : list (Proc A)) (s : State W) :
  start_all E (ps1 ++ ps2) s
  = (fst (start_all E ps1 s)
       ++ fst (start_all E ps2 (snd (start_all E ps1 s))),
     snd (start_all E ps2 (snd (start_all E ps1 s)))).
Proof.
  revert s. induction ps1 as [|p ps IH]; intros s.
  - cbn. destruct (start_all E ps2 s); reflexivity.
  - cbn [app]. rewrite !start_all_cons. rewrite IH. reflexivity.
Qed.


Lemma start_all_may (ps : list (Proc A)) (s : State W) :
  Forall2 (fun p slot => forall r, slot_may E slot r -> may_settle E p r)
          ps (fst (start_all E ps s)).
Proof.
  revert s. induction ps as [|p ps IH]; intros s.
  - constructor.
  - rewrite start_all_cons. cbn [fst]. constructor.
    + intros r. apply advance_may.
    + apply IH.
Qed.

Lemma deliver_may (t : nat) (slots : list (Slot A)) (s : State W) :
  Forall2 (fun slot slot' => forall r, slot_may E slot' r -> slot_may E slot r)
          slots (fst (deliver E t slots s)).
Proof.
  revert s. induction slots as [|[u q | a | e] rest IH]; intros s;
    cbn [deliver].
  - constructor.
  - destruct (t =? u)%nat.
    + destruct (advance E q s) as [g s1] eqn:Hq. cbn [fst]. constructor.
      * intros r Hr. cbn [slot_may]. apply (advance_may q s).
        rewrite Hq. exact Hr.
      * apply Forall2_refl_on. auto.
    + specialize (IH s). destruct (deliver E t rest s) as [rest' s1].
      cbn [fst] in *. constructor; [auto | exact IH].
  - specialize (IH s). destruct (deliver E t rest s) as [rest' s1].
    cbn [fst] in *. constructor; [auto | exact IH].
  - specialize (IH s). destruct (deliver E t rest s) as [rest' s1].
    cbn [fst] in *. constructor; [auto | exact IH].
Qed.

Lemma first_rejection_Exists (slots : list (Slot A)) (e : JsError) :
  first_rejection slots = Some e ->
  Exists (fun slot => slot_may E slot (Thrown e)) slots.
Proof.
  induction slots as [|[u q | a | e0] rest IH]; cbn [first_rejection];
    intros H.
  - discriminate H.
  - apply Exists_cons_tl. auto.
  - apply Exists_cons_tl. auto.
  - injection H as ->. apply Exists_cons_hd. reflexivity.
Qed.

Lemma all_fulfilled (slots : list (Slot A)) :
  first_rejection slots = None -> waiting_stamps slots = [] ->
  Forall2 (fun slot a => slot_may E slot (Returned a))
          slots (fulfilled_values slots).
Proof.
  induction slots as [|[u q | a | e0] rest IH];
    cbn [first_rejection waiting_stamps fulfilled_values]; intros Hr Hw.
  - constructor.
  - discriminate Hw.
  - constructor; [reflexivity | auto].
  - discriminate Hr.
Qed.

(** [Promise.all] is fulfilled with one value for each promise, in array
    order, each of them a value its promise can end with; or it is rejected
    with an error one of its promises can end with. *)
Lemma settle_may (n : nat) (slots : list (Slot A)) (s : State W)
      (out : Outcome (list A)) (s' : State W) :
  settle E n slots s = Some (out, s') ->
  match out with
  | Returned rows =>
      Forall2 (fun slot a => slot_may E slot (Returned a)) slots rows
  | Thrown e => Exists (fun slot => slot_may E slot (Thrown e)) slots
  | Exited _ => False
  end.
Proof.
  revert slots s. induction n as [|n IH]; intros slots s;
    rewrite settle_eq;
    destruct (first_rejection slots) as [e|] eqn:Hr;
    try (intros H; injection H as <- _;
         exact (first_rejection_Exists _ _ Hr));
    destruct (waiting_stamps slots) as [|t ts] eqn:Hw;
    try (intros H; injection H as <- _; exact (all_fulfilled _ Hr Hw)).
  - discriminate.
  - pose proof (deliver_may (next_arrival E slots s) slots s) as Hd.
    destruct (deliver E (next_arrival E slots s) slots s) as [slots' s1].
    cbn [fst] in Hd. intros H. specialize (IH _ _ H).
    destruct out as [rows | e | c].
    + eapply Forall2_compose; [|exact Hd|exact IH].
      intros a b c Hab Hbc. apply Hab. exact Hbc.
    + eapply Forall2_Exists_back; [|exact Hd|exact IH].
      intros a b Hab Hb. apply Hab. exact Hb.
    + exact IH.
Qed.

(** *** Enough steps *)

Lemma advance_fits (p : Proc A) (s : State W) (n : nat) :
  within n p ->
  slot_fits n (slot_of (fst (advance E p s)) (snd (advance E p s))).
Proof.
  revert s.
  induction p as [a | e | ev k IH | id k IH | id cmd k IH | url k IH];
    intros s H; cbn [advance within] in *.
  - exact I.
  - exact I.
  - apply IH. exact H.
  - destruct (inspect E id (world s)) as [r0 w']. cbn.
    destruct n; [exact H | apply H].
  - destruct (exec E id cmd (world s)) as [r0 w']. cbn.
    destruct n; [exact H | apply H].
  - destruct (fetch E url (world s)) as [r0 w']. cbn.
    destruct n; [exact H | apply H].
Qed.

Lemma start_all_fits (ps : list (Proc A)) (s : State W) (n : nat) :
  Forall (within n) ps ->
  Forall2 slot_fits (map (fun _ => n) ps) (fst (start_all E ps s)).
Proof.
  intros H. revert s. induction H as [|p ps Hp Hps IH]; intros s.
  - constructor.
  - rewrite start_all_cons. cbn [fst map]. constructor.
    + apply advance_fits. exact Hp.
    + apply IH.
Qed.

Lemma deliver_fits (t : nat) (slots : list (Slot A)) (s : State W)
      (bs : list nat) :
  In t (waiting_stamps slots) ->
  Forall2 slot_fits bs slots ->
  exists bs',
    Forall2 slot_fits bs' (fst (deliver E t slots s))
    /\ S (list_sum bs') = list_sum bs.
Proof.
  intros Hin Hfit. revert s Hin.
  induction Hfit as [|b slot bs slots Hb Hfit IH]; intros s Hin.
  - destruct Hin.
  - destruct slot as [u q | a | e]; cbn [deliver waiting_stamps] in *.
    + destruct (t =? u)%nat eqn:Htu.
      * destruct b as [|m]; [destruct Hb|].
        pose proof (advance_fits q s m Hb) as Hq.
        destruct (advance E q s) as [g s1]. cbn [fst snd] in *.
        exists (m :: bs). split; [constructor; assumption | reflexivity].
      * destruct Hin as [Hin | Hin];
          [subst u; rewrite Nat.eqb_refl in Htu; discriminate Htu|].
        destruct (IH s Hin) as [bs' [Hfit' Hsum]].
        destruct (deliver E t slots s) as [rest' s1]. cbn [fst] in *.
        exists (b :: bs'). split; [constructor; assumption|].
        change (list_sum (b :: bs')) with (b + list_sum bs'). change (list_sum (b :: bs)) with (b + list_sum bs). lia.
    + destruct (IH s Hin) as [bs' [Hfit' Hsum]].
      destruct (deliver E t slots s) as [rest' s1]. cbn [fst] in *.
      exists (b :: bs'). split; [constructor; assumption|].
      change (list_sum (b :: bs')) with (b + list_sum bs'). change (list_sum (b :: bs)) with (b + list_sum bs). lia.
    + destruct (IH s Hin) as [bs' [Hfit' Hsum]].
      destruct (deliver E t slots s) as [rest' s1]. cbn [fst] in *.
      exists (b :: bs'). split; [constructor; assumption|].
      change (list_sum (b :: bs')) with (b + list_sum bs'). change (list_sum (b :: bs)) with (b + list_sum bs). lia.
Qed.

(** With as many steps as the promises can still make requests, [settle]
    comes to a result. *)
Lemma settle_enough (n : nat) (slots : list (Slot A)) (s : State W)
      (bs : list nat) :
  Forall2 slot_fits bs slots -> list_sum bs <= n ->
  exists r, settle E n slots s = Some r.
Proof.
  revert slots s bs. induction n as [|n IH]; intros slots s bs Hfit Hsum;
    rewrite settle_eq;
    destruct (first_rejection slots) as [e|]; eauto;
    destruct (waiting_stamps slots) as [|t ts] eqn:Hw; eauto;
    assert (Hin : In (next_arrival E slots s) (waiting_stamps slots))
      by (apply next_arrival_In; rewrite Hw; discriminate);
    destruct (deliver_fits _ _ s _ Hin Hfit) as [bs' [Hfit' Hs']].
  - lia.
  - destruct (deliver E (next_arrival E slots s) slots s) as [slots' s1].
    cbn [fst] in Hfit'. apply (IH slots' s1 bs' Hfit'). lia.
Qed.

Lemma list_sum_const {B} (n : nat) (l : list B) :
  list_sum (map (fun _ => n) l) = n * length l.
Proof.
  induction l as [|x r IH]; [cbn; lia|].
  change (list_sum (map (fun _ => n) (x :: r)))
    with (n + list_sum (map (fun _ : B => n) r)).
  rewrite IH. cbn [length]. lia.
Qed.

(** [Promise.all] over promises within the bound is [settle] after
    [start_all]: the bound is never too small. *)
Lemma Promise_all_settled (n : nat) (ps : list (Proc A)) (s : State W) :
  Forall (within n) ps ->
  settle E (n * length ps) (fst (start_all E ps s)) (snd (start_all E ps s))
  = Some (Promise_all E n ps s).
Proof.
  intros Hps. unfold Promise_all.
  destruct (settle_enough (n * length ps) (fst (start_all E ps s))
              (snd (start_all E ps s)) (map (fun _ => n) ps))
    as [r Hr].
  - apply start_all_fits. exact Hps.
  - rewrite list_sum_const. lia.
  - destruct (start_all E ps s) as [slots s1]. cbn [fst snd] in *.
    rewrite Hr. reflexivity.
Qed.

Lemma Promise_all_may (n : nat) (ps : list (Proc A)) (s : State W) :
  Forall (within n) ps ->
  match fst (Promise_all E n ps s) with
  | Returned rows =>
      Forall2 (fun p a => may_settle E p (Returned a)) ps rows
  | Thrown e => Exists (fun p => may_settle E p (Thrown e)) ps
  | Exited _ => False
  end.
Proof.
  intros Hps. pose proof (Promise_all_settled n ps s Hps) as Hs.
  destruct (Promise_all E n ps s) as [out s']. cbn [fst].
  apply settle_may in Hs.
  pose proof (start_all_may ps s) as Hst.
  destruct out as [rows | e | c].
  - eapply Forall2_compose; [|exact Hst|exact Hs].
    intros p slot a Hp Ha. apply Hp. exact Ha.
  - eapply Forall2_Exists_back; [|exact Hst|exact Hs].
    intros p slot Hp Hslot. apply Hp. exact Hslot.
  - exact Hs.
Qed.

Lemma Promise_all_no_exit (n : nat) (ps : list (Proc A)) :
  no_exit (Promise_all E n ps).
Proof.
  intros s c s' H. unfold Promise_all in H.
  destruct (start_all E ps s) as [slots s1].
  destruct (settle E (n * length ps) slots s1) as [[out s2]|] eqn:Hs.
  - subst. injection H as -> ->.
    exact (settle_may _ _ _ _ _ Hs).
  - discriminate H.
Qed.

(** *** What the promises leave in the trace *)

Lemma advance_emits P (p : Proc A) (s : State W) :
  proc_emits P p ->
  exists evs,
    trace (snd (advance E p s)) = trace s ++ evs
    /\ Forall P evs
    /\ slot_emits P (slot_of (fst (advance E p s)) (snd (advance E p s))).
Proof.
  revert s.
  induction p as [a | e | ev k IH | id k IH | id cmd k IH | url k IH];
    intros s H; cbn [advance proc_emits] in *.
  - exists []. rewrite app_nil_r. repeat split; constructor.
  - exists []. rewrite app_nil_r. repeat split; constructor.
  - destruct H as [H1 H2].
    destruct (IH (mkState (world s) (trace s ++ [ev])) H2)
      as [evs [Ht [Hevs Hslot]]].
    exists (ev :: evs). cbn [trace] in Ht. rewrite Ht, <- app_assoc.
    repeat split; [constructor; assumption | exact Hslot].
  - destruct H as [H1 H2].
    destruct (inspect E id (world s)) as [r0 w']. cbn.
    exists [EvInspect id]. repeat split; [constructor; auto | apply H2].
  - destruct H as [H1 H2].
    destruct (exec E id cmd (world s)) as [r0 w']. cbn.
    exists [EvExec id cmd]. repeat split; [constructor; auto | apply H2].
  - destruct H as [H1 H2].
    destruct (fetch E url (world s)) as [r0 w']. cbn.
    exists [EvFetch url]. repeat split; [constructor; auto | apply H2].
Qed.

Lemma start_all_emits P (ps : list (Proc A)) (s : State W) :
  Forall (proc_emits P) ps ->
  exists evs,
    trace (snd (start_all E ps s)) = trace s ++ evs
    /\ Forall P evs
    /\ Forall (slot_emits P) (fst (start_all E ps s)).
Proof.
  intros H. revert s. induction H as [|p ps Hp Hps IH]; intros s.
  - exists []. cbn. rewrite app_nil_r. repeat split; constructor.
  - rewrite start_all_cons. cbn [fst snd].
    destruct (advance_emits P p s Hp) as [evs1 [Ht1 [He1 Hs1]]].
    destruct (IH (snd (advance E p s))) as [evs2 [Ht2 [He2 Hs2]]].
    exists (evs1 ++ evs2). rewrite Ht2, Ht1, <- app_assoc.
    repeat split.
    + apply Forall_app. split; assumption.
    + constructor; assumption.
Qed.

Lemma deliver_emits P (t : nat) (slots : list (Slot A)) (s : State W) :
  Forall (slot_emits P) slots ->
  exists evs,
    trace (snd (deliver E t slots s)) = trace s ++ evs
    /\ Forall P evs
    /\ Forall (slot_emits P) (fst (deliver E t slots s)).
Proof.
  intros H. revert s.
  induction H as [|slot rest Hslot Hrest IH]; intros s.
  - exists []. cbn. rewrite app_nil_r. repeat split; constructor.
  - assert (Hskip :
      exists evs,
        trace (snd (let (rest', s') := deliver E t rest s in
                    (slot :: rest', s')))
        = trace s ++ evs
        /\ Forall P evs
        /\ Forall (slot_emits P)
                  (fst (let (rest', s') := deliver E t rest s in
                        (slot :: rest', s')))).
    { destruct (IH s) as [evs [Ht [He Hs]]].
      destruct (deliver E t rest s) as [rest' s1]. cbn [fst snd] in *.
      exists evs. repeat split; [exact Ht | exact He|].
      constructor; assumption. }
    destruct slot as [u q | a | e]; cbn [deliver]; try exact Hskip.
    destruct (t =? u)%nat; [|exact Hskip].
    destruct (advance_emits P q s Hslot) as [evs [Ht [He Hs]]].
    destruct (advance E q s) as [g s1]. cbn [fst snd] in *.
    exists evs. repeat split; [exact Ht | exact He|].
    constructor; assumption.
Qed.

Lemma settle_emits P (n : nat) (slots : list (Slot A)) (s : State W) r :
  Forall (slot_emits P) slots ->
  settle E n slots s = Some r ->
  exists evs, trace (snd r) = trace s ++ evs /\ Forall P evs.
Proof.
  revert slots s. induction n as [|n IH]; intros slots s Hslots;
    rewrite settle_eq;
    destruct (first_rejection slots) as [e|];
    try (intros H; injection H as <-; exists []; cbn;
         rewrite app_nil_r; split; [reflexivity | constructor]);
    destruct (waiting_stamps slots) as [|t ts];
    try (intros H; injection H as <-; exists []; cbn;
         rewrite app_nil_r; split; [reflexivity | constructor]).
  - discriminate.
  - destruct (deliver_emits P (next_arrival E slots s) slots s Hslots)
      as [evs1 [Ht1 [He1 Hs1]]].
    destruct (deliver E (next_arrival E slots s) slots s) as [slots' s1].
    cbn [fst snd] in *. intros H.
    destruct (IH _ _ Hs1 H) as [evs2 [Ht2 He2]].
    exists (evs1 ++ evs2). rewrite Ht2, Ht1, <- app_assoc.
    split; [reflexivity | apply Forall_app; split; assumption].
Qed.

Lemma emits_only_Promise_all P (n : nat) (ps : list (Proc A)) :
  Forall (proc_emits P) ps -> emits_only P (Promise_all E n ps).
Proof.
  intros Hps s. unfold Promise_all.
  destruct (start_all_emits P ps s Hps) as [evs1 [Ht1 [He1 Hs1]]].
  destruct (start_all E ps s) as [slots s1]. cbn [fst snd] in *.
  destruct (settle E (n * length ps) slots s1) as [r|] eqn:Hr.
  - destruct (settle_emits P _ _ _ _ Hs1 Hr) as [evs2 [Ht2 He2]].
    exists (evs1 ++ evs2). rewrite Ht2, Ht1, <- app_assoc.
    split; [reflexivity | apply Forall_app; split; assumption].
  - exists evs1. split; assumption.
Qed.

End BatchFacts.

Lemma pipelines_within {W} (E : Engine W) (ids : list string) :
  Forall (within pipeline_requests)
         (map (getContainerStatus_steps (env_DEBUG E)) ids).
Proof.
  apply Forall_forall. intros p Hp. apply in_map_iff in Hp.
  destruct Hp as [id [<- _]]. apply within_getContainerStatus.
Qed.

Lemma getSelectedContainerResults_All {W} (E : Engine W)
      (containerMap : JsObject.t string) (s : State W) (w1 : W) :
  prompt E (getContainerChoices containerMap) (world s) = (Ok "All", w1) ->
  getSelectedContainerResults E containerMap s
  = Promise_all E pipeline_requests
      (map (getContainerStatus_steps (env_DEBUG E))
           (JsObject.values containerMap))
      (mkState w1 (trace s ++ [EvPrompt (getContainerChoices containerMap)])).
Proof.
  intros Hp. unfold getSelectedContainerResults.
  rewrite (bind_Returned _ _ s
             (Promise (Promise_all E pipeline_requests
                         (map (getContainerStatus_steps (env_DEBUG E))
                              (JsObject.values containerMap))))
             (mkState w1 (trace s
                          ++ [EvPrompt (getContainerChoices containerMap)]))).
  - reflexivity.
  - apply try_catch_Returned. unfold promptContainer.
    rewrite (bind_Returned _ _ _ _ _ (call_Ok _ _ _ _ _ Hp)). reflexivity.
Qed.

(** ** Batch mode *)


Lemma Exists_map_left {A B} (P : B -> Prop) (f : A -> B) (l : list A) :
  Exists P (map f l) -> exists a, In a l /\ P (f a).
Proof.
  intros H. apply Exists_exists in H. destruct H as [b [Hb HP]].
  apply in_map_iff in Hb. destruct Hb as [a [<- Ha]]. eauto.
Qed.

(** A pipeline whose first inspect call is rejected is suspended with
    nothing left to do but to throw. *)
Lemma pipeline_start_inspect_Fail {W} (E : Engine W) debug id (s : State W)
      e w1 :
  id <> "" ->
  inspect E id (world s) = (Fail e, w1) ->
  advance E (getContainerStatus_steps debug id) s
  = (Waits (PThrow (new_Error ("Failed to get status for container " ++ id
                               ++ ": " ++ message_or_self e))),
     mkState w1 (trace s ++ [EvInspect id])).
Proof.
  intros Hid Hins. unfold getContainerStatus_steps.
  rewrite (invalid_arg_false _ Hid).
  unfold await_inspect. cbn [pbind ptry advance]. rewrite Hins.
  reflexivity.
Qed.


(** The scripted engines answer the same at every moment. *)
Lemma scripted_fixed_answers ls insp ex ft pr :
  fixed_answers (Scenario.scripted ls insp ex ft pr).
Proof. repeat split. Qed.


(** The rejection that counts is the first one in time. When [a]'s exec call
    is rejected and [b] is gone, and the answers arrive in the order of the
    requests, the batch is rejected with [b]'s error: [b]'s first answer
    arrives when [a] has not yet run its command. *)
Example first_rejection_in_time :
  getSelectedContainerResults Scenario.a_exec_b_inspect
    [("a", "ida"); ("b", "idb"); ("c", "idc")] Scenario.start
  = (Thrown (new_Error
       "Failed to get status for container idb: No such container: idb"),
     mkState tt [ EvPrompt ["All"; "a"; "b"; "c"];
                  EvInspect "ida"; EvInspect "idb"; EvInspect "idc";
                  EvInspect "ida" ]).
Proof. reflexivity. Qed.

(** Which error the batch reports depends on the order of arrival. *)
Example rejection_depends_on_arrival :
  fst (getSelectedContainerResults Scenario.all_gone
         [("a", "ida"); ("b", "idb"); ("c", "idc")] Scenario.start)
  = Thrown (new_Error
      "Failed to get status for container ida: No such container: ida")
  /\ fst (getSelectedContainerResults
            (Scenario.youngest_first Scenario.all_gone)
            [("a", "ida"); ("b", "idb"); ("c", "idc")] Scenario.start)
     = Thrown (new_Error
         "Failed to get status for container idc: No such container: idc").
Proof. split; reflexivity. Qed.

(** C2, as amended. For a container id whose inspect call fails, status
    resolution produces no row: it throws an error naming the container and
    the cause. A batch in which the first inspect call of a pipeline fails
    is rejected as a whole, wherever the container stands in it and in
    whatever order the answers arrive. *)
Theorem C2_inspect_failure_rejects :
  forall (W : Type) (E : Engine W) (id : string) (s : State W)
         (e : JsError) (w1 : W),
    id <> "" ->
    inspect E id (world s) = (Fail e, w1) ->
    getContainerStatus E id s
    = (Thrown (new_Error ("Failed to get status for container " ++ id
                          ++ ": " ++ message_or_self e)),
       mkState w1 (trace s ++ [EvInspect id]))
    /\ (forall pre post s0,
           snd (start_all E
                  (map (getContainerStatus_steps (env_DEBUG E)) pre) s0)
           = s ->
           exists e' s',
             Promise_all E pipeline_requests
               (map (getContainerStatus_steps (env_DEBUG E))
                    (pre ++ id :: post)) s0
             = (Thrown e', s')).
Proof.
  intros W E id s e w1 Hid Hins.
  pose proof (getContainerStatus_inspect_Fail E id s e w1 Hid Hins) as Hrow.
  split; [exact Hrow|].
  intros pre post s0 Hs. subst s.
  pose proof (Promise_all_settled E pipeline_requests
                (map (getContainerStatus_steps (env_DEBUG E))
                     (pre ++ id :: post)) s0
                (pipelines_within E _)) as Hset.
  destruct (Promise_all E pipeline_requests
              (map (getContainerStatus_steps (env_DEBUG E))
                   (pre ++ id :: post)) s0) as [out s'].
  apply settle_may in Hset.
  destruct out as [rows | e' | c].
  - exfalso. rewrite map_app in Hset. cbn [map] in Hset.
    rewrite start_all_app in Hset. cbn [fst] in Hset.
    rewrite start_all_cons in Hset. cbn [fst] in Hset.
    apply Forall2_app_inv_l in Hset.
    destruct Hset as [rows1 [rows2 [_ [Hrest _]]]].
    inversion Hrest as [|slot row slots rows' Hslot Hrest']; subst.
    rewrite (pipeline_start_inspect_Fail E _ id _ e w1 Hid Hins) in Hslot.
    cbn in Hslot. inversion Hslot.
  - exists e', s'. reflexivity.
  - destruct Hset.
Qed.

(** The container [b] has vanished between listing and inspection. *)
Lemma C2_inspect_failure_witness :
  getContainerStatus Scenario.inspect_b_fails "idb" Scenario.start
  = (Thrown (new_Error
       "Failed to get status for container idb: No such container: idb"),
     mkState tt [EvInspect "idb"]).
Proof.
  apply (proj1 (C2_inspect_failure_rejects unit Scenario.inspect_b_fails
                  "idb" Scenario.start
                  (new_Error "No such container: idb") tt
                  ltac:(discriminate) eq_refl)).
Defined.

(** C2, as stated, fails: when [b] cannot be inspected there is no
    "Retrieval failed" row for it; the batch is rejected and the run ends
    with code 1 without a table. *)
Lemma C2_counterexample_inspect_fails :
  fst (getSelectedContainerResults Scenario.inspect_b_fails
         [("a", "ida"); ("b", "idb"); ("c", "idc")] Scenario.start)
  = Thrown (new_Error
      "Failed to get status for container idb: No such container: idb")
  /\ fst (main Scenario.inspect_b_fails [] Scenario.start) = Exited 1%Z
  /\ last (trace (snd (main Scenario.inspect_b_fails [] Scenario.start)))
          EvPing
     = EvStderr "Unexpected error: Failed to get status for container idb: No such container: idb".
Proof. repeat split; reflexivity. Qed.

(** ** The name-to-id map *)

Lemma map_keys_of_listing (containers : list ContainerInfo) :
  map fst (map (fun c => (map_key c, Id c)) containers)
  = map map_key containers.
Proof. rewrite map_map. reflexivity. Qed.

(** A list with a repeated element is longer than any duplicate-free list
    of the same elements. *)
Lemma NoDup_shorter {A} (ks l : list A) :
  NoDup ks -> incl ks l -> ~ NoDup l -> length ks < length l.
Proof.
  intros Hnd Hincl Hdup.
  destruct (Nat.lt_ge_cases (length ks) (length l)) as [Hlt | Hge];
    [exact Hlt|].
  exfalso. apply Hdup.
  exact (NoDup_incl_NoDup Hnd Hge Hincl).
Qed.


(** Two containers named [web]: the map keeps the second id, and "All" mode
    would run two pipelines for three containers. *)
Example twins_collapse :
  JsObject.fromEntries (map (fun c => (map_key c, Id c)) Scenario.twins)
  = [("web", "id2"); ("db", "id3")].
Proof. reflexivity. Qed.

(** Names that are array indices come first in the map's order, whatever
    their place in the listing. *)
Example index_names_first :
  JsObject.values
    (JsObject.fromEntries
       (map (fun c => (map_key c, Id c))
            [ mkContainer (Some ["/web"]) "id1";
              mkContainer (Some ["/42"]) "id2";
              mkContainer (Some ["/7"]) "id3" ]))
  = ["id3"; "id2"; "id1"].
Proof. reflexivity. Qed.

(** ** Ports mode *)

Lemma string_append_assoc (a b c : string) :
  ((a ++ b) ++ c = a ++ (b ++ c))%string.
Proof.
  induction a as [|x a IH]; cbn; [reflexivity | rewrite IH; reflexivity].
Qed.

Lemma format_binding_truthy (cp : string) (b : Binding) :
  Js.truthy (format_binding cp b) = true.
Proof.
  unfold format_binding. destruct (HostIp b); reflexivity.
Qed.

Lemma format_ports_no_bindings
      (ports : list (string * option (list Binding))) :
  Forall (fun p => snd p = None \/ snd p = Some []) ports ->
  format_ports ports = [].
Proof.
  unfold format_ports.
  induction 1 as [|[cp bs] r Hp Hr IH]; [reflexivity|].
  cbn [map format_port filter_Boolean]. cbn [snd] in Hp.
  destruct Hp as [-> | ->]; exact IH.
Qed.

Lemma truthy_append (a b : string) :
  Js.truthy a = true -> Js.truthy (a ++ b) = true.
Proof. destruct a; [discriminate | reflexivity]. Qed.

Lemma join_truthy (sep x : string) (l : list string) :
  Js.truthy x = true -> Js.truthy (Js.join sep (x :: l)) = true.
Proof.
  intros Hx. unfold Js.join. cbn [String.concat].
  destruct l; [exact Hx | apply truthy_append; exact Hx].
Qed.

Lemma format_ports_filter (ports : list (string * option (list Binding))) :
  format_ports ports
  = map (fun p => Js.join ", " (map (format_binding (fst p)) (bindings_of p)))
        (filter has_bindings ports).
Proof.
  induction ports as [|[cp bs] r IH]; [reflexivity|].
  destruct bs as [[|b bs]|].
  - exact IH.
  - change (format_ports ((cp, Some (b :: bs)) :: r))
      with (if Js.truthy (Js.join ", " (format_binding cp b
                                        :: map (format_binding cp) bs))
            then Js.join ", " (format_binding cp b
                               :: map (format_binding cp) bs)
                 :: format_ports r
            else format_ports r).
    rewrite (join_truthy ", " (format_binding cp b)
               (map (format_binding cp) bs) (format_binding_truthy cp b)).
    rewrite IH. reflexivity.
  - exact IH.
Qed.

Lemma fromEntries_keys_nonempty {V} (l : list (string * V)) :
  l <> [] -> JsObject.keys (JsObject.fromEntries l) <> [].
Proof.
  destruct l as [|[k v] r]; [intros H; contradiction H; reflexivity|].
  intros _ Hnil.
  assert (Hin : In k (JsObject.keys (JsObject.fromEntries ((k, v) :: r)))).
  { unfold JsObject.fromEntries. apply assign_all_keys_In.
    left. left. reflexivity. }
  rewrite Hnil in Hin. destruct Hin.
Qed.

Section PortRows.

Context {W : Type} (E : Engine W).

Lemma port_row_invalid name s :
  port_row E name "" s
  = (Returned (name, "Error retrieving ports (Invalid containerId provided to getContainerPorts)"), s).
Proof. reflexivity. Qed.

Lemma port_row_inspect_Fail name id s e w1 :
  id <> "" ->
  inspect E id (world s) = (Fail e, w1) ->
  port_row E name id s
  = (Returned (name,
               ("Error retrieving ports (Failed to get ports for container "
                ++ id ++ ": " ++ message_or_self e ++ ")")%string),
     mkState w1 (trace s ++ [EvInspect id])).
Proof.
  intros Hid Hins. unfold port_row.
  assert (Hports :
    getContainerPorts E id s
    = (Thrown (new_Error ("Failed to get ports for container " ++ id
                          ++ ": " ++ message_or_self e)),
       mkState w1 (trace s ++ [EvInspect id]))).
  { unfold getContainerPorts. rewrite (invalid_arg_false _ Hid).
    erewrite try_catch_Thrown; [reflexivity|].
    apply bind_Thrown. apply call_Fail. exact Hins. }
  rewrite (try_catch_Thrown _ _ _ _ _ (bind_Thrown _ _ _ _ _ Hports)).
  unfold ret. f_equal. f_equal. f_equal.
  change (message_or_self
            (new_Error ("Failed to get ports for container " ++ id
                        ++ ": " ++ message_or_self e)))
    with ("Failed to get ports for container " ++ id
          ++ ": " ++ message_or_self e)%string.
  rewrite !string_append_assoc. reflexivity.
Qed.

Lemma port_row_inspect_Ok name id s d w1 :
  id <> "" ->
  inspect E id (world s) = (Ok d, w1) ->
  port_row E name id s
  = (Returned (name,
               match format_ports
                       (match Ports d with Some p => p | None => [] end) with
               | [] => "No ports exposed"
               | _ :: _ =>
                   Js.join newline
                     (format_ports
                        (match Ports d with Some p => p | None => [] end))
               end),
     mkState w1 (trace s ++ [EvInspect id])).
Proof.
  intros Hid Hins. unfold port_row.
  assert (Hports :
    getContainerPorts E id s
    = (Returned (format_ports
                   (match Ports d with Some p => p | None => [] end)),
       mkState w1 (trace s ++ [EvInspect id]))).
  { unfold getContainerPorts. rewrite (invalid_arg_false _ Hid).
    apply try_catch_Returned.
    rewrite (bind_Returned _ _ _ _ _ (call_Ok _ _ _ _ _ Hins)).
    reflexivity. }
  apply try_catch_Returned. rewrite (bind_Returned _ _ _ _ _ Hports).
  reflexivity.
Qed.

(** Every entry gets a row, and the row carries the entry's name. *)
Lemma port_row_total name id s :
  exists cell s', port_row E name id s = (Returned (name, cell), s').
Proof.
  destruct (string_dec id "") as [-> | Hid].
  - rewrite port_row_invalid. eauto.
  - destruct (inspect E id (world s)) as [[d | e] w1] eqn:Hins.
    + rewrite (port_row_inspect_Ok _ _ _ _ _ Hid Hins). eauto.
    + rewrite (port_row_inspect_Fail _ _ _ _ _ Hid Hins). eauto.
Qed.

Lemma portRows_loop_rows entries : forall acc s,
  exists rows s',
    portRows_loop E entries acc s = (Returned (acc ++ rows), s')
    /\ map fst rows = map fst entries.
Proof.
  induction entries as [|[name id] rest IH]; intros acc s.
  - exists [], s. rewrite app_nil_r. split; reflexivity.
  - cbn [portRows_loop].
    destruct (port_row_total name id s) as [cell [s1 Hrow]].
    rewrite (bind_Returned _ _ _ _ _ Hrow). cbv beta.
    destruct (IH (acc ++ [(name, cell)]) s1) as [rows [s' [Hloop Hnames]]].
    exists ((name, cell) :: rows), s'. split.
    + etransitivity; [exact Hloop|]. rewrite <- app_assoc. reflexivity.
    + cbn [map fst]. rewrite Hnames. reflexivity.
Qed.

Lemma portRows_loop_app l1 l2 : forall acc s,
  portRows_loop E (l1 ++ l2) acc s
  = bind (portRows_loop E l1 acc) (fun acc' => portRows_loop E l2 acc') s.
Proof.
  induction l1 as [|[name id] rest IH]; intros acc s.
  - reflexivity.
  - cbn [app portRows_loop]. unfold bind in IH |- *.
    destruct (port_row E name id s) as [[row | e | c] s1];
      [rewrite IH; reflexivity | reflexivity | reflexivity].
Qed.

End PortRows.

(** C8, as amended. In ports mode there is exactly one row for each entry
    of the name-to-id map, that is, for each distinct normalised name of the
    listing, in the map's order and under that name; a container whose name
    is taken by a later container of the listing gets no row, so the rows
    are fewer than the containers whenever a name is repeated. The cell of
    a row renders each port that has bindings as its bindings, every one
    written [HostIp:HostPort->containerPort], joined by a comma and a space,
    and joins these ports by line feeds; for one binding of one port it
    reads [HostIp:HostPort->containerPort]. A container without any binding
    shows "No ports exposed". When fetching the ports of a container fails,
    the error is shown in that container's row and the loop goes on with
    the next entry; the table is printed with all the rows. *)
Theorem C8_ports_mode_rows :
  forall (W : Type) (E : Engine W) (containers : list ContainerInfo)
         (s : State W),
    let names := map map_key containers in
    let containerMap :=
      JsObject.fromEntries (map (fun c => (map_key c, Id c)) containers) in
    exists rows s',
      portRows_loop E containerMap [] s = (Returned rows, s')
      /\ map fst rows = JsObject.keys containerMap
      /\ NoDup (map fst rows)
      /\ (forall name, In name (map fst rows) <-> In name names)
      /\ length rows <= length containers
      /\ (~ NoDup names -> length rows < length containers)
      /\ (forall pre name id post,
             containerMap = pre ++ (name, id) :: post ->
             let si := snd (portRows_loop E pre [] s) in
             exists cell,
               nth_error rows (length pre) = Some (name, cell)
               /\ (id = "" ->
                   cell = "Error retrieving ports (Invalid containerId provided to getContainerPorts)")
               /\ (forall e w',
                      id <> "" ->
                      inspect E id (world si) = (Fail e, w') ->
                      cell = ("Error retrieving ports (Failed to get ports for container "
                              ++ id ++ ": " ++ message_or_self e ++ ")")%string)
               /\ (forall d w',
                      id <> "" ->
                      inspect E id (world si) = (Ok d, w') ->
                      let bound :=
                        filter has_bindings
                          (match Ports d with Some p => p | None => [] end) in
                      (bound = [] -> cell = "No ports exposed")
                      /\ (bound <> [] ->
                          cell
                          = Js.join newline
                              (map (fun p =>
                                      Js.join ", "
                                        (map (fun b =>
                                                (HostIp b ++ ":" ++ HostPort b
                                                 ++ "->" ++ fst p)%string)
                                             (bindings_of p)))
                                   bound))
                      /\ (forall cp b,
                             Ports d = Some [(cp, Some [b])] ->
                             cell = (HostIp b ++ ":" ++ HostPort b
                                     ++ "->" ++ cp)%string)))
      /\ (containers <> [] ->
          listContainerPorts E containerMap s
          = (Returned tt,
             mkState (world s') (trace s' ++ [EvPortsTable rows]))).
Proof.
  intros W E containers s names containerMap.
  destruct (portRows_loop_rows E containerMap [] s)
    as [rows [s' [Hloop Hnames]]].
  cbn [app] in Hloop. exists rows, s'.
  assert (Hnd : NoDup (JsObject.keys containerMap)).
  { unfold containerMap, JsObject.fromEntries.
    apply assign_all_keys_NoDup. constructor. }
  assert (Hin : forall k, In k (JsObject.keys containerMap) <-> In k names).
  { intros k. unfold containerMap, JsObject.fromEntries.
    rewrite assign_all_keys_In, map_keys_of_listing. fold names.
    cbn. split; [intros [H | []]; exact H | auto]. }
  assert (Hlen : length rows = length (JsObject.keys containerMap)).
  { unfold JsObject.keys. rewrite <- Hnames. symmetry. apply length_map. }
  split; [exact Hloop|]. split; [exact Hnames|].
  split; [rewrite Hnames; exact Hnd|].
  split; [intros name; rewrite Hnames; apply Hin|].
  split; [|split; [|split]].
  - rewrite Hlen, <- (length_map map_key containers). fold names.
    apply NoDup_incl_length; [exact Hnd|].
    intros k Hk. apply Hin. exact Hk.
  - intros Hdup. rewrite Hlen, <- (length_map map_key containers).
    fold names. apply NoDup_shorter; [exact Hnd | | exact Hdup].
    intros k Hk. apply Hin. exact Hk.
  - intros pre name id post Hsplit si.
    destruct (portRows_loop_rows E pre [] s) as [rpre [s1 [Hpre Hnpre]]].
    cbn [app] in Hpre.
    assert (Hsi : si = s1) by (unfold si; rewrite Hpre; reflexivity).
    destruct (port_row_total E name id s1) as [cell [s2 Hrow]].
    destruct (portRows_loop_rows E post (rpre ++ [(name, cell)]) s2)
      as [rpost [s3 [Hpost _]]].
    assert (Hall : portRows_loop E containerMap [] s
                   = (Returned ((rpre ++ [(name, cell)]) ++ rpost), s3)).
    { rewrite Hsplit, portRows_loop_app.
      rewrite (bind_Returned _ _ _ _ _ Hpre). cbn [portRows_loop].
      rewrite (bind_Returned _ _ _ _ _ Hrow). exact Hpost. }
    rewrite Hloop in Hall. injection Hall as Hrows _.
    assert (Hlenpre : length pre = length rpre).
    { rewrite <- (length_map fst pre), <- Hnpre. apply length_map. }
    exists cell. rewrite Hsi. split; [|split; [|split]].
    + rewrite Hrows, Hlenpre, <- app_assoc.
      rewrite nth_error_app2; [|lia]. rewrite Nat.sub_diag. reflexivity.
    + intros ->. rewrite port_row_invalid in Hrow.
      injection Hrow as <- _. reflexivity.
    + intros e w' Hid Hins.
      rewrite (port_row_inspect_Fail E name id s1 e w' Hid Hins) in Hrow.
      injection Hrow as <- _. reflexivity.
    + intros d w' Hid Hins bound.
      rewrite (port_row_inspect_Ok E name id s1 d w' Hid Hins) in Hrow.
      injection Hrow as Hcell _.
      rewrite format_ports_filter in Hcell. fold bound in Hcell.
      split; [|split].
      * intros Hb. rewrite Hb in Hcell. symmetry. exact Hcell.
      * intros Hb. destruct bound as [|p r]; [contradiction Hb; reflexivity|].
        symmetry. exact Hcell.
      * intros cp b Hp. unfold bound in Hcell. rewrite Hp in Hcell.
        symmetry. exact Hcell.
  - intros Hne. unfold listContainerPorts, JsObject.entries.
    destruct containerMap as [|x r] eqn:Hmap.
    + exfalso. apply (fromEntries_keys_nonempty
                        (map (fun c => (map_key c, Id c)) containers)).
      * destruct containers; [contradiction Hne; reflexivity | discriminate].
      * fold containerMap. rewrite Hmap. reflexivity.
    + rewrite (bind_Returned _ _ _ _ _ Hloop). reflexivity.
Qed.

(** C8, as stated, fails: of three listed containers two normalise to the
    name [web]; the table has two rows, and the container [id1] has none. *)
Lemma C8_counterexample_twins :
  listContainers Cases.twins_listed tt
  = (Ok [ mkContainer (Some ["/web"]) "id1";
          mkContainer (Some ["web"]) "id2";
          mkContainer (Some ["/db"]) "id3" ], tt)
  /\ main Cases.twins_listed ["--ports"] Scenario.start
     = (Returned tt,
        mkState tt
          [EvPing; EvListContainers; EvInspect "id2"; EvInspect "id3";
           EvPortsTable [("web", "No ports exposed");
                         ("db", "No ports exposed")]]).
Proof. split; reflexivity. Qed.

(** A port bound on two addresses, a port without bindings and a port bound
    once give a cell of two lines. *)
Example ports_cell_lines :
  snd (main Cases.web_with_ports ["-p"] Scenario.start)
  = mkState tt
      [EvPing; EvListContainers; EvInspect "idw";
       EvPortsTable
         [("web",
           "0.0.0.0:8080->80/tcp, :::8080->80/tcp" ++ newline
           ++ "0.0.0.0:8443->443/tcp")%string]].
Proof. reflexivity. Qed.

(** End-to-end: [web] publishes 80/tcp on 0.0.0.0:8080, [db] publishes
    nothing, [old] cannot be inspected. *)
Example ports_table :
  snd (main Scenario.with_ports ["--ports"] Scenario.start)
  = mkState tt
      [EvPing; EvListContainers;
       EvInspect "idw"; EvInspect "idd"; EvInspect "ido";
       EvPortsTable
         [("web", "0.0.0.0:8080->80/tcp");
          ("db", "No ports exposed");
          ("old", "Error retrieving ports (Failed to get ports for container ido: No such container: ido)")]].
Proof. reflexivity. Qed.

(** End-to-end: the three scenarios of the status table. *)
Example status_rows :
  fst (getContainerStatus Scenario.all_fine "ida" Scenario.start)
  = Returned ("a", "203.0.113.7", "US, Ashburn")
  /\ fst (getContainerStatus Scenario.db_exited "idd" Scenario.start)
     = Returned ("db", "Container exited", "Unknown")
  /\ fst (getContainerStatus (Scenario.web_prints "connection refused")
                             "idw" Scenario.start)
     = Returned ("web", "Retrieval failed", "Unknown").
Proof. repeat split; reflexivity. Qed.

(* ================================================================== *)
(** * Further properties *)

(** ** What [runCommand] hands back *)

Lemma all_chars_strip_nonprintable (s : string) :
  Js.all_chars Js.is_printable (Js.strip_nonprintable s) = true.
Proof.
  induction s as [|c r IH]; [reflexivity|].
  cbn [Js.strip_nonprintable]. destruct (Js.is_printable c) eqn:Hc.
  - cbn [Js.all_chars]. rewrite Hc, IH. reflexivity.
  - exact IH.
Qed.

Lemma all_chars_trimStart (p : ascii -> bool) (s : string) :
  Js.all_chars p s = true -> Js.all_chars p (Js.trimStart s) = true.
Proof.
  induction s as [|c r IH]; [reflexivity|].
  cbn [Js.trimStart]. destruct (Js.is_space c); [|trivial].
  cbn [Js.all_chars]. intros H. apply andb_true_iff in H. apply IH, H.
Qed.

Lemma all_chars_trimEnd (p : ascii -> bool) (s : string) :
  Js.all_chars p s = true -> Js.all_chars p (Js.trimEnd s) = true.
Proof.
  induction s as [|c r IH]; [reflexivity|].
  cbn [Js.trimEnd Js.all_chars]. intros H.
  apply andb_true_iff in H. destruct H as [Hc Hr].
  destruct (Js.is_space c && (Js.trimEnd r =? "")); [reflexivity|].
  cbn [Js.all_chars]. rewrite Hc, (IH Hr). reflexivity.
Qed.

(** A text that is empty or starts with something else than white space. *)
Lemma trimStart_fixed (s : string) :
  match s with
  | EmptyString => True
  | String c _ => Js.is_space c = false
  end ->
  Js.trimStart s = s.
Proof. destruct s as [|c r]; [reflexivity|]. cbn. intros ->. reflexivity. Qed.

Lemma trimStart_head (s : string) :
  match Js.trimStart s with
  | EmptyString => True
  | String c _ => Js.is_space c = false
  end.
Proof.
  induction s as [|c r IH]; [exact I|].
  cbn [Js.trimStart]. destruct (Js.is_space c) eqn:Hc; [exact IH | exact Hc].
Qed.

Lemma trimEnd_head (s : string) :
  match s with
  | EmptyString => True
  | String c _ => Js.is_space c = false
  end ->
  match Js.trimEnd s with
  | EmptyString => True
  | String c _ => Js.is_space c = false
  end.
Proof.
  destruct s as [|c r]; [trivial|]. cbn [Js.trimEnd]. intros Hc.
  rewrite Hc. cbn [andb]. exact Hc.
Qed.

Lemma trimEnd_idempotent (s : string) :
  Js.trimEnd (Js.trimEnd s) = Js.trimEnd s.
Proof.
  induction s as [|c r IH]; [reflexivity|].
  cbn [Js.trimEnd].
  destruct (Js.is_space c && (Js.trimEnd r =? "")) eqn:Hcut; [reflexivity|].
  cbn [Js.trimEnd]. rewrite IH, Hcut. reflexivity.
Qed.

Lemma trim_idempotent (s : string) : Js.trim (Js.trim s) = Js.trim s.
Proof.
  unfold Js.trim.
  rewrite (trimStart_fixed (Js.trimEnd (Js.trimStart s))).
  - apply trimEnd_idempotent.
  - apply trimEnd_head. apply trimStart_head.
Qed.

Lemma runCommand_Returned_inv {W} (E : Engine W) id cmd s r s' :
  runCommand E id cmd s = (Returned r, s') ->
  exists raw,
    output r = Js.trim (Js.strip_nonprintable (String.concat "" (chunks raw)))
    /\ exitCode r = ExitCode raw
    /\ exec E id cmd (world s) = (Ok raw, world s').
Proof.
  unfold runCommand. destruct (invalid_arg id); [discriminate|].
  intros H.
  apply try_rethrow_Returned_inv
    with (wrap := fun err =>
                    new_Error ("Failed to run command in container " ++ id
                               ++ ": " ++ message_or_self err)) in H.
  unfold bind, call, ret in H.
  destruct (exec E id cmd (world s)) as [[raw | e] w1]; [|discriminate H].
  injection H as <- <-. exists raw. repeat split; reflexivity.
Qed.

(** X1. Whatever the engine streams back, the output that [runCommand]
    returns holds printable ASCII characters only and has no white space at
    either end (trimming it again changes nothing); the exit code is the
    engine's. *)
Theorem runCommand_output_clean :
  forall (W : Type) (E : Engine W) (id : string) (cmd : list string)
         (s s' : State W) (r : ExecResult),
    runCommand E id cmd s = (Returned r, s') ->
    Js.all_chars Js.is_printable (output r) = true
    /\ Js.trim (output r) = output r
    /\ exists raw, exec E id cmd (world s) = (Ok raw, world s')
                   /\ exitCode r = ExitCode raw.
Proof.
  intros W E id cmd s s' r H.
  destruct (runCommand_Returned_inv E id cmd s r s' H)
    as [raw [Hout [Hexit Hexec]]].
  split; [|split].
  - rewrite Hout. unfold Js.trim.
    apply all_chars_trimEnd, all_chars_trimStart,
      all_chars_strip_nonprintable.
  - rewrite Hout. apply trim_idempotent.
  - exists raw. split; assumption.
Qed.

(** The chunks [203.0.113.7] and a line feed give the output [203.0.113.7]. *)
Lemma runCommand_output_clean_witness :
  Js.all_chars Js.is_printable "203.0.113.7" = true
  /\ Js.trim "203.0.113.7" = "203.0.113.7"
  /\ exists raw,
       exec Scenario.all_fine "ida" ["sh"; "-c"; curlCmd] tt = (Ok raw, tt)
       /\ Some 0%Z = ExitCode raw.
Proof.
  apply (runCommand_output_clean unit Scenario.all_fine "ida"
           ["sh"; "-c"; curlCmd] Scenario.start
           (mkState tt [EvExec "ida" ["sh"; "-c"; curlCmd]])
           (mkExecResult "203.0.113.7" (Some 0%Z))).
  reflexivity.
Defined.

(** ** The pipeline of a container whose IP is resolved *)

Lemma getLocation_returns {W} (E : Engine W) (ip : string) (s : State W) :
  ip <> "" -> exists loc s', getLocation E ip s = (Returned loc, s').
Proof.
  intros Hip. unfold getLocation. rewrite (invalid_arg_false _ Hip).
  unfold try_catch, bind, call, throw, ret, console_error, emit.
  destruct (fetch E _ (world s)) as [[resp | e] w'].
  - destruct (json resp) as [[ | | st co ci] | e].
    + destruct (env_DEBUG E); eauto.
    + eauto.
    + destruct (match st with Some s0 => s0 =? "fail" | None => false end);
        eauto.
    + destruct (env_DEBUG E); eauto.
  - destruct (env_DEBUG E); eauto.
Qed.

Lemma getLocation_trace {W} (E : Engine W) (ip : string) (s : State W) :
  ip <> "" ->
  exists rest,
    trace (snd (getLocation E ip s))
    = trace s ++ EvFetch ("http://ip-api.com/json/" ++ ip) :: rest.
Proof.
  intros Hip. unfold getLocation. rewrite (invalid_arg_false _ Hip).
  unfold try_catch, bind, call, throw, ret, console_error, emit.
  destruct (fetch E _ (world s)) as [[resp | e] w'].
  - destruct (json resp) as [[ | | st co ci] | e].
    + destruct (env_DEBUG E); cbn [snd trace]; rewrite <- ?app_assoc;
        eexists; reflexivity.
    + cbn [snd trace]. eexists; reflexivity.
    + destruct (match st with Some s0 => s0 =? "fail" | None => false end);
        cbn [snd trace]; eexists; reflexivity.
    + destruct (env_DEBUG E); cbn [snd trace]; rewrite <- ?app_assoc;
        eexists; reflexivity.
  - destruct (env_DEBUG E); cbn [snd trace]; rewrite <- ?app_assoc;
      eexists; reflexivity.
Qed.

Lemma DigitsAndDots_truthy (ip : string) :
  DigitsAndDots ip -> Js.truthy ip = true.
Proof. intros [Hne _]. destruct ip; [contradiction Hne|]; reflexivity. Qed.

(** X2. For a running container whose command exits with 0 and whose
    sanitised output is a text of digits and dots, the row is
    (name, that output, location), where the location is what the geolocation
    resolver returns for that output; the pipeline makes exactly these calls:
    inspect, inspect, exec, then the geolocation request. *)
Theorem getContainerStatus_resolved_row :
  forall (W : Type) (E : Engine W) (id : string) (s : State W)
         (d d' : InspectData) (raw : ExecRaw) (w1 w2 w3 : W),
    id <> "" ->
    inspect E id (world s) = (Ok d, w1) ->
    Running d = true ->
    inspect E id w1 = (Ok d', w2) ->
    let cmd := command_for
                 (Js.or_default (option_map Js.toLowerCase (Os d')) "linux") in
    exec E id cmd w2 = (Ok raw, w3) ->
    let out := Js.trim (Js.strip_nonprintable
                          (String.concat "" (chunks raw))) in
    ExitCode raw = Some 0%Z ->
    DigitsAndDots out ->
    let s3 := mkState w3 (trace s ++ [EvInspect id; EvInspect id;
                                      EvExec id cmd]) in
    exists loc s',
      getLocation E out s3 = (Returned loc, s')
      /\ getContainerStatus E id s
         = (Returned (display_name d, out, loc), s')
      /\ exists rest,
           trace s' = trace s3
                      ++ EvFetch ("http://ip-api.com/json/" ++ out) :: rest.
Proof.
  intros W E id s d d' raw w1 w2 w3 Hid Hins Hrun Hos cmd Hex out Hzero Hdd s3.
  assert (Hne : out <> "") by (destruct Hdd as [H _]; exact H).
  destruct (getLocation_returns E out s3 Hne) as [loc [s' Hloc]].
  exists loc, s'. split; [exact Hloc|].
  assert (Hip :
    getPublicIP (runCommand E) (Some (getContainerOsType E)) id
                (mkState w1 (trace s ++ [EvInspect id]))
    = (Returned (Some out), s3)).
  { unfold getPublicIP. rewrite (invalid_arg_false _ Hid).
    rewrite (bind_Returned _ _ _ _ _
               (getContainerOsType_Ok E id
                  (mkState w1 (trace s ++ [EvInspect id])) d' w2 Hid Hos)).
    fold cmd.
    rewrite (bind_Returned _ _ _ _ _
               (runCommand_Ok E id cmd
                  (mkState w2 ((trace s ++ [EvInspect id]) ++ [EvInspect id]))
                  raw w3 Hid Hex)).
    cbn [output exitCode trace]. fold out.
    unfold out at 1 2. rewrite trim_idempotent. fold out.
    rewrite Hzero. cbn [exit_zero andb].
    apply test_digits_dots_spec in Hdd. rewrite Hdd.
    unfold ret, s3. rewrite <- !app_assoc. reflexivity. }
  split.
  - unfold getContainerStatus. rewrite (invalid_arg_false _ Hid).
    apply try_catch_Returned.
    rewrite (bind_Returned _ _ _ _ _ (call_Ok _ _ _ _ _ Hins)).
    rewrite Hrun. cbn [negb].
    rewrite (bind_Returned _ _ _ _ _ Hip).
    rewrite (DigitsAndDots_truthy _ Hdd).
    rewrite (bind_Returned _ _ _ _ _ Hloc). reflexivity.
  - destruct (getLocation_trace E out s3 Hne) as [rest Hrest].
    rewrite Hloc in Hrest. exists rest. exact Hrest.
Qed.

(** Container [a] of the three: the row (a, 203.0.113.7, "US, Ashburn"). *)
Lemma getContainerStatus_resolved_witness :
  exists loc s',
    getLocation Scenario.all_fine "203.0.113.7"
      (mkState tt [EvInspect "ida"; EvInspect "ida";
                   EvExec "ida" ["sh"; "-c"; curlCmd]])
    = (Returned loc, s')
    /\ getContainerStatus Scenario.all_fine "ida" Scenario.start
       = (Returned ("a", "203.0.113.7", loc), s')
    /\ exists rest,
         trace s'
         = [EvInspect "ida"; EvInspect "ida";
            EvExec "ida" ["sh"; "-c"; curlCmd]]
           ++ EvFetch "http://ip-api.com/json/203.0.113.7" :: rest.
Proof.
  apply (getContainerStatus_resolved_row unit Scenario.all_fine "ida"
           Scenario.start (Scenario.running "/a") (Scenario.running "/a")
           (mkExecRaw ["203.0.113.7"; String "010" ""] (Some 0%Z))
           tt tt tt).
  - discriminate.
  - reflexivity.
  - reflexivity.
  - reflexivity.
  - reflexivity.
  - reflexivity.
  - apply test_digits_dots_spec. reflexivity.
Defined.

(** ** Selecting one container *)

(** An error with a message is written as one line. *)
Lemma console_event_message (label : string) (e : JsError) :
  Js.truthy (err_message e) = true ->
  console_event label e = EvStderr (label ++ " " ++ message_or_self e).
Proof.
  intros H. unfold console_event, message_or_self. rewrite H. reflexivity.
Qed.

Lemma console_event_no_message (label : string) (e : JsError) :
  err_message e = "" -> console_event label e = EvStderrError label e.
Proof. intros H. unfold console_event. rewrite H. reflexivity. Qed.

Lemma truthy_nonempty (x : string) : x <> "" -> Js.truthy x = true.
Proof. destruct x; [intros H; contradiction H|]; reflexivity. Qed.

(** The errors that status resolution throws carry a message. *)
Lemma getContainerStatus_Thrown_message {W} (E : Engine W) id s e s' :
  getContainerStatus E id s = (Thrown e, s') ->
  Js.truthy (err_message e) = true.
Proof.
  unfold getContainerStatus. destruct (invalid_arg id).
  - intros H. injection H as <- _. reflexivity.
  - unfold try_catch.
    destruct (bind _ _ s) as [[row | e0 | c] s1]; intros H;
      try discriminate H.
    injection H as <- _. reflexivity.
Qed.

Lemma getSelectedContainerResults_one {W} (E : Engine W)
      (containerMap : JsObject.t string) (s : State W)
      (selected : string) (w1 : W) :
  prompt E (getContainerChoices containerMap) (world s) = (Ok selected, w1) ->
  selected <> "All" ->
  getSelectedContainerResults E containerMap s
  = match getContainerStatus E (selected_id containerMap selected)
            (mkState w1 (trace s
                         ++ [EvPrompt (getContainerChoices containerMap)]))
    with
    | (Returned row, s2) => (Returned [row], s2)
    | (Thrown e, s2) =>
        (Exited 1%Z,
         mkState (world s2)
           (trace s2 ++ [console_event "Prompt failed:" e]))
    | (Exited c, s2) => (Exited c, s2)
    end.
Proof.
  intros Hp Hsel. apply String.eqb_neq in Hsel.
  unfold getSelectedContainerResults, promptContainer.
  unfold bind at 1. unfold try_catch.
  rewrite (bind_Returned _ _ _ _ _ (call_Ok _ _ _ _ _ Hp)).
  rewrite Hsel. unfold bind at 1.
  destruct (getContainerStatus E _ _) as [[row | e | c] s2]; reflexivity.
Qed.

(** X3. When the user selects a single container, the result is either
    exactly one row, the one of that container's pipeline, or the process
    ends with code 1 after "Prompt failed: ..." on the error stream; no error
    is thrown to the caller. A selection that names no entry of the map ends
    the process in the same way. *)
Theorem getSelectedContainerResults_single :
  forall (W : Type) (E : Engine W) (containerMap : JsObject.t string)
         (s : State W) (selected : string) (w1 : W),
    prompt E (getContainerChoices containerMap) (world s)
    = (Ok selected, w1) ->
    selected <> "All" ->
    let s1 := mkState w1 (trace s
                          ++ [EvPrompt (getContainerChoices containerMap)]) in
    let id := selected_id containerMap selected in
    (forall row s2,
        getContainerStatus E id s1 = (Returned row, s2) ->
        getSelectedContainerResults E containerMap s = (Returned [row], s2))
    /\ (forall e s2,
           getContainerStatus E id s1 = (Thrown e, s2) ->
           getSelectedContainerResults E containerMap s
           = (Exited 1%Z,
              mkState (world s2)
                (trace s2
                 ++ [EvStderr ("Prompt failed: " ++ message_or_self e)])))
    /\ (JsObject.get selected containerMap = None ->
        getSelectedContainerResults E containerMap s
        = (Exited 1%Z,
           mkState w1
             (trace s1
              ++ [EvStderr "Prompt failed: Invalid containerId provided to getContainerStatus"])))
    /\ (forall e s2,
           getSelectedContainerResults E containerMap s <> (Thrown e, s2)).
Proof.
  intros W E containerMap s selected w1 Hp Hsel s1 id.
  pose proof (getSelectedContainerResults_one E containerMap s selected w1
                Hp Hsel) as Hone.
  fold s1 id in Hone.
  split; [|split; [|split]].
  - intros row s2 Hrow. rewrite Hone, Hrow. reflexivity.
  - intros e s2 Hrow. rewrite Hone, Hrow.
    rewrite (console_event_message _ _
               (getContainerStatus_Thrown_message E _ _ _ _ Hrow)).
    reflexivity.
  - intros Hget. rewrite Hone. unfold id, selected_id. rewrite Hget.
    reflexivity.
  - intros e s2. rewrite Hone.
    destruct (getContainerStatus E id s1) as [[row | e' | c] s3];
      discriminate.
Qed.

(** The user picks [b]; its exec call is rejected. *)
Lemma getSelectedContainerResults_single_witness :
  getSelectedContainerResults Cases.picks_b_exec_throws Cases.three_map
    Scenario.start
  = (Exited 1%Z,
     mkState tt
       [EvPrompt ["All"; "a"; "b"; "c"]; EvInspect "idb"; EvInspect "idb";
        EvExec "idb" ["sh"; "-c"; curlCmd];
        EvStderr "Prompt failed: Failed to get status for container idb: Failed to run command in container idb: container is restarting"]).
Proof.
  apply (proj1 (proj2
           (getSelectedContainerResults_single unit Cases.picks_b_exec_throws
              Cases.three_map Scenario.start "b" tt eq_refl
              ltac:(discriminate)))
           (new_Error "Failed to get status for container idb: Failed to run command in container idb: container is restarting")
           (mkState tt
              [EvPrompt ["All"; "a"; "b"; "c"]; EvInspect "idb";
               EvInspect "idb"; EvExec "idb" ["sh"; "-c"; curlCmd]])).
  reflexivity.
Defined.

Lemma getSelectedContainerResults_prompt_failure_steps {W} (E : Engine W)
      (containerMap : JsObject.t string) (s : State W) (e : JsError)
      (w1 : W) :
  prompt E (getContainerChoices containerMap) (world s) = (Fail e, w1) ->
  getSelectedContainerResults E containerMap s
  = (Exited 1%Z,
     mkState w1
       (trace s ++ [EvPrompt (getContainerChoices containerMap);
                    console_event "Prompt failed:" e])).
Proof.
  intros Hp. unfold getSelectedContainerResults, promptContainer.
  unfold bind at 1. unfold try_catch.
  rewrite (bind_Thrown _ _ _ _ _ (call_Fail _ _ _ _ _ Hp)).
  unfold bind, console_error, emit, process_exit. cbn [world trace].
  rewrite <- app_assoc. reflexivity.
Qed.

(** X4. When the prompt itself fails, no container is inspected: the
    failure is reported through [console.error] and the process ends with
    code 1. An error with a message is written as the line
    "Prompt failed: " followed by the message; for an error without a
    message [console.error] is given the error object itself. *)
Theorem getSelectedContainerResults_prompt_failure :
  forall (W : Type) (E : Engine W) (containerMap : JsObject.t string)
         (s : State W) (e : JsError) (w1 : W),
    prompt E (getContainerChoices containerMap) (world s) = (Fail e, w1) ->
    getSelectedContainerResults E containerMap s
    = (Exited 1%Z,
       mkState w1
         (trace s ++ [EvPrompt (getContainerChoices containerMap);
                      console_event "Prompt failed:" e]))
    /\ (err_message e <> "" ->
        console_event "Prompt failed:" e
        = EvStderr ("Prompt failed: " ++ err_message e))
    /\ (err_message e = "" ->
        console_event "Prompt failed:" e = EvStderrError "Prompt failed:" e).
Proof.
  intros W E containerMap s e w1 Hp. split; [|split].
  - apply getSelectedContainerResults_prompt_failure_steps. exact Hp.
  - intros Hm. unfold console_event.
    rewrite (truthy_nonempty _ Hm). reflexivity.
  - apply console_event_no_message.
Qed.

(** No interactive terminal. *)
Lemma getSelectedContainerResults_prompt_failure_witness :
  getSelectedContainerResults Cases.prompt_fails Cases.three_map
    Scenario.start
  = (Exited 1%Z,
     mkState tt [EvPrompt ["All"; "a"; "b"; "c"];
                 EvStderr "Prompt failed: stdin is not a TTY"]).
Proof.
  apply (proj1 (getSelectedContainerResults_prompt_failure unit
                  Cases.prompt_fails Cases.three_map Scenario.start
                  (new_Error "stdin is not a TTY") tt eq_refl)).
Defined.

(** An error without a message is not written as a line of text. *)
Example prompt_failure_without_message :
  console_event "Prompt failed:" (new_Error "")
  = EvStderrError "Prompt failed:" (new_Error "").
Proof. reflexivity. Qed.

(** ** The entry point *)

Lemma args_include_In (a : string) (args : list string) :
  args_include a args = true <-> In a args.
Proof.
  unfold args_include. rewrite existsb_exists. split.
  - intros [x [Hin Heq]]. apply String.eqb_eq in Heq. subst x. exact Hin.
  - intros Hin. exists a. split; [exact Hin | apply String.eqb_refl].
Qed.

Lemma args_include_not_In (a : string) (args : list string) :
  ~ In a args -> args_include a args = false.
Proof.
  intros H. destruct (args_include a args) eqn:Ha; [|reflexivity].
  apply args_include_In in Ha. contradiction.
Qed.

Lemma version_flag_true (args : list string) :
  wants_version args ->
  args_include "-v" args || args_include "--version" args = true.
Proof.
  intros [H | H]; apply args_include_In in H; rewrite H;
    [reflexivity | apply orb_true_r].
Qed.

Lemma version_flag_false (args : list string) :
  ~ wants_version args ->
  args_include "-v" args || args_include "--version" args = false.
Proof.
  intros H. rewrite !args_include_not_In; [reflexivity | |];
    intros Hin; apply H; [right | left]; exact Hin.
Qed.

Lemma ports_flag_true (args : list string) :
  wants_ports args ->
  args_include "--ports" args || args_include "-p" args = true.
Proof.
  intros [H | H]; apply args_include_In in H; rewrite H;
    [reflexivity | apply orb_true_r].
Qed.

Lemma ports_flag_false (args : list string) :
  ~ wants_ports args ->
  args_include "--ports" args || args_include "-p" args = false.
Proof.
  intros H. rewrite !args_include_not_In; [reflexivity | |];
    intros Hin; apply H; [right | left]; exact Hin.
Qed.

Section EntryPoint.

Context {W : Type} (E : Engine W).

Lemma isDockerRunning_Ok s u w1 :
  ping E (world s) = (Ok u, w1) ->
  isDockerRunning E s = (Returned true, mkState w1 (trace s ++ [EvPing])).
Proof.
  intros Hp. unfold isDockerRunning. apply try_catch_Returned.
  rewrite (bind_Returned _ _ _ _ _ (call_Ok _ _ _ _ _ Hp)). reflexivity.
Qed.

Lemma isDockerRunning_Fail s e w1 :
  ping E (world s) = (Fail e, w1) ->
  isDockerRunning E s
  = (Returned false,
     mkState w1 (trace s ++ ping_failure_events (env_DEBUG E) e)).
Proof.
  intros Hp. unfold isDockerRunning.
  rewrite (try_catch_Thrown _ _ _ _ _
             (bind_Thrown _ _ _ _ _ (call_Fail _ _ _ _ _ Hp))).
  unfold ping_failure_events, bind, console_error, emit, ret.
  destruct (env_DEBUG E); cbn [world trace]; rewrite <- ?app_assoc;
    reflexivity.
Qed.

Lemma isDockerRunning_returns s :
  exists b s', isDockerRunning E s = (Returned b, s').
Proof.
  destruct (ping E (world s)) as [[u | e] w1] eqn:Hp.
  - rewrite (isDockerRunning_Ok _ _ _ Hp). eauto.
  - rewrite (isDockerRunning_Fail _ _ _ Hp). eauto.
Qed.

Lemma getContainerMap_Ok s containers w1 :
  listContainers E (world s) = (Ok containers, w1) ->
  getContainerMap E s
  = (Returned (JsObject.fromEntries
                 (map (fun c => (map_key c, Id c)) containers)),
     mkState w1 (trace s ++ [EvListContainers])).
Proof.
  intros Hls. unfold getContainerMap. apply try_catch_Returned.
  rewrite (bind_Returned _ _ _ _ _ (call_Ok _ _ _ _ _ Hls)). reflexivity.
Qed.

Lemma getContainerMap_Fail s e w1 :
  listContainers E (world s) = (Fail e, w1) ->
  getContainerMap E s
  = (Thrown (new_Error ("Failed to list Docker containers: "
                        ++ message_or_self e)),
     mkState w1 (trace s ++ [EvListContainers])).
Proof.
  intros Hls. unfold getContainerMap.
  rewrite (try_catch_Thrown _ _ _ _ _
             (bind_Thrown _ _ _ _ _ (call_Fail _ _ _ _ _ Hls))).
  reflexivity.
Qed.

(** [main] once the version flags are absent and the engine answers. *)
Lemma main_engine_up args s u w1 :
  ~ wants_version args ->
  ping E (world s) = (Ok u, w1) ->
  main E args s
  = try_catch
      (containerMap <- getContainerMap E ;;
       match JsObject.keys containerMap with
       | [] => emit (EvStdout "No Docker containers found.")
       | _ :: _ =>
           if args_include "--ports" args || args_include "-p" args then
             listContainerPorts E containerMap
           else
             results <- getSelectedContainerResults E containerMap ;;
             showResults results COL_WIDTHS
       end)
      (fun error =>
         console_error "Unexpected error:" error ;;; process_exit 1%Z)
      (mkState w1 (trace s ++ [EvPing])).
Proof.
  intros Hv Hp. unfold main. rewrite (version_flag_false _ Hv).
  rewrite (bind_Returned _ _ _ _ _ (isDockerRunning_Ok _ _ _ Hp)).
  reflexivity.
Qed.

End EntryPoint.

(** X5. With [-v] or [--version] among the arguments, [main] prints the
    version line and does nothing else: it does not even ping the engine,
    whatever the other arguments are. *)
Theorem main_version :
  forall (W : Type) (E : Engine W) (args : list string) (s : State W),
    wants_version args ->
    main E args s
    = (Returned tt,
       mkState (world s)
         (trace s ++ [EvStdout "Docker IP Retrieval version: 1.2.0"])).
Proof.
  intros W E args s Hv. unfold main. rewrite (version_flag_true _ Hv).
  reflexivity.
Qed.

(** [--ports --version] with the engine down. *)
Lemma main_version_witness :
  main Cases.docker_down ["--ports"; "--version"] Scenario.start
  = (Returned tt,
     mkState tt [EvStdout "Docker IP Retrieval version: 1.2.0"]).
Proof.
  apply (main_version unit Cases.docker_down ["--ports"; "--version"]
           Scenario.start).
  right. right. left. reflexivity.
Defined.

(** X6. Without a version flag, when the engine does not answer the ping,
    [main] prints that Docker is not running and ends the process with code
    1; it lists and inspects nothing. With [DEBUG] set, the failure of the
    ping is reported through [console.error] first: as the line
    "[DEBUG] Docker ping failed: " followed by the message when the error
    has one, with the error object itself otherwise. *)
Theorem main_engine_unreachable :
  forall (W : Type) (E : Engine W) (args : list string) (s : State W)
         (e : JsError) (w1 : W),
    ~ wants_version args ->
    ping E (world s) = (Fail e, w1) ->
    main E args s
    = (Exited 1%Z,
       mkState w1
         (trace s ++ ping_failure_events (env_DEBUG E) e
          ++ [EvStdout "Docker is not running or not detected. Please ensure Docker is installed and running."]))
    /\ (env_DEBUG E = false -> ping_failure_events (env_DEBUG E) e = [EvPing])
    /\ (env_DEBUG E = true ->
        err_message e <> "" ->
        ping_failure_events (env_DEBUG E) e
        = [EvPing;
           EvStderr ("[DEBUG] Docker ping failed: " ++ err_message e)])
    /\ (env_DEBUG E = true ->
        err_message e = "" ->
        ping_failure_events (env_DEBUG E) e
        = [EvPing; EvStderrError "[DEBUG] Docker ping failed:" e]).
Proof.
  intros W E args s e w1 Hv Hp. split; [|split; [|split]].
  - unfold main. rewrite (version_flag_false _ Hv).
    rewrite (bind_Returned _ _ _ _ _ (isDockerRunning_Fail E _ _ _ Hp)).
    cbn [negb]. unfold bind, emit, process_exit. cbn [world trace].
    rewrite <- app_assoc. reflexivity.
  - intros ->. reflexivity.
  - intros -> Hm. unfold ping_failure_events, console_event.
    rewrite (truthy_nonempty _ Hm). reflexivity.
  - intros -> Hm. unfold ping_failure_events.
    rewrite (console_event_no_message _ _ Hm). reflexivity.
Qed.

(** The engine socket is missing. *)
Lemma main_engine_unreachable_witness :
  main Cases.docker_down ["-p"] Scenario.start
  = (Exited 1%Z,
     mkState tt
       [EvPing;
        EvStdout "Docker is not running or not detected. Please ensure Docker is installed and running."]).
Proof.
  apply (proj1 (main_engine_unreachable unit Cases.docker_down ["-p"]
                  Scenario.start
                  (new_Error "connect ENOENT /var/run/docker.sock") tt
                  ltac:(intros [[H | []] | [H | []]]; discriminate H)
                  eq_refl)).
Defined.

(** X7. When the engine lists no container, [main] prints "No Docker
    containers found." and returns normally, with or without [--ports]; it
    neither prompts nor prints a table. *)
Theorem main_no_containers :
  forall (W : Type) (E : Engine W) (args : list string) (s : State W)
         (u : unit) (w1 w2 : W),
    ~ wants_version args ->
    ping E (world s) = (Ok u, w1) ->
    listContainers E w1 = (Ok [], w2) ->
    main E args s
    = (Returned tt,
       mkState w2
         (trace s ++ [EvPing; EvListContainers;
                      EvStdout "No Docker containers found."])).
Proof.
  intros W E args s u w1 w2 Hv Hp Hls.
  rewrite (main_engine_up E args s u w1 Hv Hp).
  apply try_catch_Returned.
  rewrite (bind_Returned _ _ _ _ _
             (getContainerMap_Ok E (mkState w1 (trace s ++ [EvPing]))
                [] w2 Hls)).
  unfold emit. cbn. rewrite <- !app_assoc. reflexivity.
Qed.

(** An engine without containers, asked for the ports. *)
Lemma main_no_containers_witness :
  main Cases.nothing_listed ["--ports"] Scenario.start
  = (Returned tt,
     mkState tt [EvPing; EvListContainers;
                 EvStdout "No Docker containers found."]).
Proof.
  apply (main_no_containers unit Cases.nothing_listed ["--ports"]
           Scenario.start tt tt tt).
  - intros [[H | []] | [H | []]]; discriminate H.
  - reflexivity.
  - reflexivity.
Defined.

(** X8. When the listing fails, [main] reports "Unexpected error: Failed to
    list Docker containers: ..." on the error stream and ends the process
    with code 1. *)
Theorem main_listing_failure :
  forall (W : Type) (E : Engine W) (args : list string) (s : State W)
         (u : unit) (e : JsError) (w1 w2 : W),
    ~ wants_version args ->
    ping E (world s) = (Ok u, w1) ->
    listContainers E w1 = (Fail e, w2) ->
    main E args s
    = (Exited 1%Z,
       mkState w2
         (trace s
          ++ [EvPing; EvListContainers;
              EvStderr ("Unexpected error: Failed to list Docker containers: "
                        ++ message_or_self e)])).
Proof.
  intros W E args s u e w1 w2 Hv Hp Hls.
  rewrite (main_engine_up E args s u w1 Hv Hp).
  rewrite (try_catch_Thrown _ _ _ _ _
             (bind_Thrown _ _ _ _ _
                (getContainerMap_Fail E (mkState w1 (trace s ++ [EvPing]))
                   e w2 Hls))).
  unfold bind, console_error, emit, process_exit. cbn [world trace].
  rewrite <- !app_assoc. reflexivity.
Qed.

(** The listing request hangs up. *)
Lemma main_listing_failure_witness :
  main Cases.listing_fails [] Scenario.start
  = (Exited 1%Z,
     mkState tt
       [EvPing; EvListContainers;
        EvStderr "Unexpected error: Failed to list Docker containers: socket hang up"]).
Proof.
  apply (main_listing_failure unit Cases.listing_fails [] Scenario.start
           tt (new_Error "socket hang up") tt tt).
  - intros [[] | []].
  - reflexivity.
  - reflexivity.
Defined.

Lemma proc_throws_ptry {A} (T : JsError -> Prop) (p : Proc A)
      (h : JsError -> Proc A) :
  (forall e, proc_throws T (h e)) -> proc_throws T (ptry p h).
Proof.
  intros Hh.
  induction p as [a | e | ev k IH | id k IH | id cmd k IH | url k IH];
    cbn [proc_throws ptry]; auto.
Qed.

Lemma may_settle_Thrown {W} (E : Engine W) {A} (T : JsError -> Prop)
      (p : Proc A) (e : JsError) :
  proc_throws T p -> may_settle E p (Thrown e) -> T e.
Proof.
  intros Hp H. remember (Thrown e) as r eqn:Hr.
  induction H; cbn [proc_throws] in Hp; try discriminate Hr; auto.
  injection Hr as ->. exact Hp.
Qed.

(** The errors that a status pipeline throws carry a message. *)
Lemma pipeline_throws_message debug id :
  proc_throws (fun e => Js.truthy (err_message e) = true)
              (getContainerStatus_steps debug id).
Proof.
  unfold getContainerStatus_steps. destruct (invalid_arg id).
  - reflexivity.
  - apply proc_throws_ptry. intros e. reflexivity.
Qed.

Lemma batch_rejection_message {W} (E : Engine W) (ids : list string)
      (s : State W) (e : JsError) (s' : State W) :
  Promise_all E pipeline_requests
    (map (getContainerStatus_steps (env_DEBUG E)) ids) s
  = (Thrown e, s') ->
  Js.truthy (err_message e) = true.
Proof.
  intros Hb.
  pose proof (Promise_all_may E pipeline_requests _ s
                (pipelines_within E ids)) as Hmay.
  rewrite Hb in Hmay. cbn [fst] in Hmay.
  apply Exists_map_left in Hmay. destruct Hmay as [id [_ Hid]].
  exact (may_settle_Thrown E _ _ e (pipeline_throws_message _ id) Hid).
Qed.

(** X9. In "All" mode, once the engine has answered the ping and the
    listing: when the batch is fulfilled, [main] prints the status table
    with the rows of the batch, in the batch's order and with the fixed
    column widths, and returns normally; when the batch is rejected, [main]
    writes nothing more than "Unexpected error: " followed by the message of
    the rejection on the error stream and ends the process with code 1,
    leaving the other pipelines where they are. The batch never ends the
    process itself. *)
Theorem main_all_mode :
  forall (W : Type) (E : Engine W) (args : list string) (s : State W)
         (u : unit) (containers : list ContainerInfo) (w1 w2 w3 : W),
    ~ wants_version args ->
    ~ wants_ports args ->
    ping E (world s) = (Ok u, w1) ->
    listContainers E w1 = (Ok containers, w2) ->
    containers <> [] ->
    let containerMap :=
      JsObject.fromEntries (map (fun c => (map_key c, Id c)) containers) in
    prompt E (getContainerChoices containerMap) w2 = (Ok "All", w3) ->
    let batch :=
      Promise_all E pipeline_requests
        (map (getContainerStatus_steps (env_DEBUG E))
             (JsObject.values containerMap))
        (mkState w3 (trace s ++ [EvPing; EvListContainers;
                                 EvPrompt (getContainerChoices containerMap)]))
    in
    (forall rows s4,
        batch = (Returned rows, s4) ->
        main E args s
        = (Returned tt,
           mkState (world s4)
             (trace s4 ++ [EvResultsTable rows [30; 35; 40]%Z])))
    /\ (forall e s4,
           batch = (Thrown e, s4) ->
           main E args s
           = (Exited 1%Z,
              mkState (world s4)
                (trace s4
                 ++ [EvStderr ("Unexpected error: " ++ err_message e)])))
    /\ (forall c s4, batch <> (Exited c, s4)).
Proof.
  intros W E args s u containers w1 w2 w3 Hv Hports Hp Hls Hne
         containerMap Hprompt batch.
  assert (Hmain :
    main E args s
    = try_catch
        (results <- getSelectedContainerResults E containerMap ;;
         showResults results COL_WIDTHS)
        (fun error =>
           console_error "Unexpected error:" error ;;; process_exit 1%Z)
        (mkState w2 (trace s ++ [EvPing; EvListContainers]))).
  { rewrite (main_engine_up E args s u w1 Hv Hp).
    unfold try_catch at 1 2.
    rewrite (bind_Returned _ _ _ _ _
               (getContainerMap_Ok E (mkState w1 (trace s ++ [EvPing]))
                  containers w2 Hls)).
    fold containerMap.
    destruct (JsObject.keys containerMap) as [|k ks] eqn:Hkeys.
    - exfalso. apply (fromEntries_keys_nonempty
                        (map (fun c => (map_key c, Id c)) containers)).
      + destruct containers; [contradiction Hne; reflexivity | discriminate].
      + exact Hkeys.
    - rewrite (ports_flag_false _ Hports). cbn [trace].
      rewrite <- app_assoc. reflexivity. }
  assert (Hsel :
    getSelectedContainerResults E containerMap
      (mkState w2 (trace s ++ [EvPing; EvListContainers]))
    = batch).
  { rewrite (getSelectedContainerResults_All E containerMap
               (mkState w2 (trace s ++ [EvPing; EvListContainers])) w3
               Hprompt).
    unfold batch. cbn [trace]. rewrite <- app_assoc. reflexivity. }
  split; [|split].
  - intros rows s4 Hb. rewrite Hmain. apply try_catch_Returned.
    rewrite Hb in Hsel. rewrite (bind_Returned _ _ _ _ _ Hsel). reflexivity.
  - intros e s4 Hb. rewrite Hmain.
    pose proof (batch_rejection_message E _ _ e s4 Hb) as Hmsg.
    rewrite Hb in Hsel.
    rewrite (try_catch_Thrown _ _ _ _ _ (bind_Thrown _ _ _ _ _ Hsel)).
    unfold bind, console_error, emit, process_exit, console_event.
    rewrite Hmsg. reflexivity.
  - intros c s4 Hb.
    exact (Promise_all_no_exit E pipeline_requests _ _ _ _ Hb).
Qed.

(** Three running containers, all resolved, the answers arriving in the
    order of the requests: the three pipelines advance in turns. *)
Lemma main_all_mode_witness :
  main Scenario.all_fine [] Scenario.start
  = (Returned tt,
     mkState tt
       [EvPing; EvListContainers; EvPrompt ["All"; "a"; "b"; "c"];
        EvInspect "ida"; EvInspect "idb"; EvInspect "idc";
        EvInspect "ida"; EvInspect "idb"; EvInspect "idc";
        EvExec "ida" ["sh"; "-c"; curlCmd];
        EvExec "idb" ["sh"; "-c"; curlCmd];
        EvExec "idc" ["sh"; "-c"; curlCmd];
        EvFetch "http://ip-api.com/json/203.0.113.7";
        EvFetch "http://ip-api.com/json/203.0.113.7";
        EvFetch "http://ip-api.com/json/203.0.113.7";
        EvResultsTable
          [("a", "203.0.113.7", "US, Ashburn");
           ("b", "203.0.113.7", "US, Ashburn");
           ("c", "203.0.113.7", "US, Ashburn")]
          [30; 35; 40]%Z]).
Proof.
  apply (proj1 (main_all_mode unit Scenario.all_fine [] Scenario.start
                  tt Scenario.three tt tt tt
                  ltac:(intros [[] | []]) ltac:(intros [[] | []])
                  eq_refl eq_refl ltac:(discriminate) eq_refl)
           [("a", "203.0.113.7", "US, Ashburn");
            ("b", "203.0.113.7", "US, Ashburn");
            ("c", "203.0.113.7", "US, Ashburn")]
           (mkState tt
              [EvPing; EvListContainers; EvPrompt ["All"; "a"; "b"; "c"];
               EvInspect "ida"; EvInspect "idb"; EvInspect "idc";
               EvInspect "ida"; EvInspect "idb"; EvInspect "idc";
               EvExec "ida" ["sh"; "-c"; curlCmd];
               EvExec "idb" ["sh"; "-c"; curlCmd];
               EvExec "idc" ["sh"; "-c"; curlCmd];
               EvFetch "http://ip-api.com/json/203.0.113.7";
               EvFetch "http://ip-api.com/json/203.0.113.7";
               EvFetch "http://ip-api.com/json/203.0.113.7"])).
  reflexivity.
Defined.

(** With [a]'s exec call rejected and [b] gone, the run reports [b]'s
    error, the first rejection in time. *)
Example main_reports_first_rejection :
  main Scenario.a_exec_b_inspect [] Scenario.start
  = (Exited 1%Z,
     mkState tt
       [EvPing; EvListContainers; EvPrompt ["All"; "a"; "b"; "c"];
        EvInspect "ida"; EvInspect "idb"; EvInspect "idc"; EvInspect "ida";
        EvStderr "Unexpected error: Failed to get status for container idb: No such container: idb"]).
Proof. reflexivity. Qed.

(** X10. With [--ports] or [-p], once the engine has answered the ping and
    listed at least one container, [main] always returns normally after
    printing the ports table: one row per entry of the name-to-id map, in the
    map's order, whatever happens while the ports are fetched. *)
Theorem main_ports_mode :
  forall (W : Type) (E : Engine W) (args : list string) (s : State W)
         (u : unit) (containers : list ContainerInfo) (w1 w2 : W),
    ~ wants_version args ->
    wants_ports args ->
    ping E (world s) = (Ok u, w1) ->
    listContainers E w1 = (Ok containers, w2) ->
    containers <> [] ->
    let containerMap :=
      JsObject.fromEntries (map (fun c => (map_key c, Id c)) containers) in
    exists rows s',
      portRows_loop E containerMap []
        (mkState w2 (trace s ++ [EvPing; EvListContainers]))
      = (Returned rows, s')
      /\ map fst rows = JsObject.keys containerMap
      /\ main E args s
         = (Returned tt,
            mkState (world s') (trace s' ++ [EvPortsTable rows])).
Proof.
  intros W E args s u containers w1 w2 Hv Hports Hp Hls Hne containerMap.
  destruct (portRows_loop_rows E containerMap []
              (mkState w2 (trace s ++ [EvPing; EvListContainers])))
    as [rows [s' [Hloop Hnames]]].
  cbn [app] in Hloop. exists rows, s'.
  split; [exact Hloop|]. split; [exact Hnames|].
  rewrite (main_engine_up E args s u w1 Hv Hp).
  apply try_catch_Returned.
  rewrite (bind_Returned _ _ _ _ _
             (getContainerMap_Ok E (mkState w1 (trace s ++ [EvPing]))
                containers w2 Hls)).
  fold containerMap.
  destruct (JsObject.keys containerMap) as [|k ks] eqn:Hkeys.
  - exfalso. apply (fromEntries_keys_nonempty
                      (map (fun c => (map_key c, Id c)) containers)).
    + destruct containers; [contradiction Hne; reflexivity | discriminate].
    + exact Hkeys.
  - rewrite (ports_flag_true _ Hports).
    unfold listContainerPorts, JsObject.entries.
    destruct containerMap as [|x r] eqn:Hmap; [discriminate Hkeys|].
    cbn [trace]. rewrite <- app_assoc. cbn [app].
    rewrite (bind_Returned _ _ _ _ _ Hloop). reflexivity.
Qed.

(** [web] publishes a port, [db] none, [old] cannot be inspected. *)
Lemma main_ports_mode_witness :
  exists rows s',
    portRows_loop Scenario.with_ports
      [("web", "idw"); ("db", "idd"); ("old", "ido")] []
      (mkState tt [EvPing; EvListContainers])
    = (Returned rows, s')
    /\ map fst rows = ["web"; "db"; "old"]
    /\ main Scenario.with_ports ["-p"] Scenario.start
       = (Returned tt, mkState (world s') (trace s' ++ [EvPortsTable rows])).
Proof.
  apply (main_ports_mode unit Scenario.with_ports ["-p"] Scenario.start tt
           [ mkContainer (Some ["/web"]) "idw";
             mkContainer (Some ["/db"]) "idd";
             mkContainer (Some ["/old"]) "ido" ] tt tt).
  - intros [[H | []] | [H | []]]; discriminate H.
  - right. left. reflexivity.
  - reflexivity.
  - reflexivity.
  - discriminate.
Defined.

(** ** How a run can end *)

Lemma bind_Exited_inv {W A B} (m : M W A) (k : A -> M W B) s c s' :
  bind m k s = (Exited c, s') ->
  m s = (Exited c, s')
  \/ exists a s1, m s = (Returned a, s1) /\ k a s1 = (Exited c, s').
Proof.
  unfold bind. destruct (m s) as [[a | e | c'] s1]; intros H.
  - right. exists a, s1. split; [reflexivity | exact H].
  - discriminate H.
  - left. injection H as -> ->. reflexivity.
Qed.

Lemma no_exit_listContainerPorts {W} (E : Engine W)
      (containerMap : JsObject.t string) :
  no_exit (listContainerPorts E containerMap).
Proof.
  unfold listContainerPorts, JsObject.entries.
  destruct containerMap as [|x r]; [apply no_exit_emit|].
  apply no_exit_bind.
  - intros s c s' H.
    destruct (portRows_loop_rows E (x :: r) [] s) as [rows [s1 [Hloop _]]].
    rewrite Hloop in H. discriminate H.
  - intros rows. apply no_exit_emit.
Qed.

(** [getSelectedContainerResults] ends the process with code 1 only. *)
Lemma getSelectedContainerResults_exit_code {W} (E : Engine W)
      (containerMap : JsObject.t string) s c s' :
  getSelectedContainerResults E containerMap s = (Exited c, s') ->
  c = 1%Z.
Proof.
  destruct (prompt E (getContainerChoices containerMap) (world s))
    as [[selected | e] w1] eqn:Hp.
  - destruct (string_dec selected "All") as [-> | Hsel].
    + rewrite (getSelectedContainerResults_All E containerMap s w1 Hp).
      intros H. exfalso.
      exact (Promise_all_no_exit E _ _ _ _ _ H).
    + rewrite (getSelectedContainerResults_one E containerMap s selected w1
                 Hp Hsel).
      destruct (getContainerStatus E _ _) as [[row | e | c'] s2] eqn:Hrow;
        intros H.
      * discriminate H.
      * injection H as <- _. reflexivity.
      * exfalso. exact (no_exit_getContainerStatus E _ _ _ _ Hrow).
  - rewrite (getSelectedContainerResults_prompt_failure_steps E containerMap
               s e w1 Hp).
    intros H. injection H as <- _. reflexivity.
Qed.

(** X11. [main] lets no error escape: whatever the engine, the network and
    the user answer, the promise of [main] is never rejected; and whenever
    [main] calls [process.exit], the code is 1. Whether a run comes to an
    end at all is not claimed: a prompt or a request that never settles is
    outside the model. *)
Theorem main_never_throws :
  forall (W : Type) (E : Engine W) (args : list string) (s : State W),
    (forall e s', main E args s <> (Thrown e, s'))
    /\ (forall c s', main E args s = (Exited c, s') -> c = 1%Z).
Proof.
  intros W E args s. unfold main.
  destruct (args_include "-v" args || args_include "--version" args).
  { split; [intros e s' H | intros c s' H]; discriminate H. }
  destruct (isDockerRunning_returns E s) as [b [s1 Hrun]].
  rewrite (bind_Returned _ _ _ _ _ Hrun).
  destruct b; cbn [negb].
  2:{ split; [intros e s' H; discriminate H|].
      intros c s' H. injection H as <- _. reflexivity. }
  unfold try_catch.
  match goal with
  | |- context [match ?body s1 with _ => _ end] =>
      destruct (body s1) as [[[] | e | c] s2] eqn:Hbody
  end.
  - split; [intros e s' H | intros c s' H]; discriminate H.
  - split; [intros e' s' H; discriminate H|].
    intros c s' H. injection H as <- _. reflexivity.
  - split; [intros e s' H; discriminate H|].
    intros c0 s' H. injection H as <- _.
    apply bind_Exited_inv in Hbody.
    destruct Hbody as [Hmap | [containerMap [s3 [_ Hrest]]]].
    { exfalso. revert Hmap. unfold getContainerMap.
      apply no_exit_try_catch; auto with noexit. }
    destruct (JsObject.keys containerMap) as [|k ks].
    { discriminate Hrest. }
    destruct (args_include "--ports" args || args_include "-p" args).
    { exfalso. exact (no_exit_listContainerPorts E _ _ _ _ Hrest). }
    apply bind_Exited_inv in Hrest.
    destruct Hrest as [Hsel | [rows [s4 [_ Hshow]]]].
    + exact (getSelectedContainerResults_exit_code E _ _ _ _ Hsel).
    + discriminate Hshow.
Qed.

(** ** The order and the content of the name-to-id map *)

Lemma keys_app {V} (o1 o2 : JsObject.t V) :
  JsObject.keys (o1 ++ o2) = JsObject.keys o1 ++ JsObject.keys o2.
Proof. unfold JsObject.keys. apply map_app. Qed.

(** Fresh keys that are no array indices are appended in their order. *)
Lemma assign_all_plain {V} (l : list (string * V)) : forall (o : JsObject.t V),
  (forall kv, In kv l -> JsObject.array_index (fst kv) = None) ->
  NoDup (JsObject.keys o ++ map fst l) ->
  JsObject.assign_all l o = o ++ l.
Proof.
  induction l as [|[k v] r IH]; intros o Hplain Hnd.
  - cbn. rewrite app_nil_r. reflexivity.
  - rewrite assign_all_cons. cbn [map fst] in Hnd.
    assert (Hfresh : JsObject.has k o = false).
    { destruct (JsObject.has k o) eqn:Hhas; [|reflexivity].
      apply has_In in Hhas. apply NoDup_remove_2 in Hnd.
      exfalso. apply Hnd. apply in_or_app. left. exact Hhas. }
    assert (Hset : JsObject.set k v o = o ++ [(k, v)]).
    { unfold JsObject.set. rewrite Hfresh.
      pose proof (Hplain (k, v) (or_introl eq_refl)) as Hk.
      cbn [fst] in Hk. rewrite Hk. reflexivity. }
    rewrite Hset, IH.
    + rewrite <- app_assoc. reflexivity.
    + intros kv Hkv. apply Hplain. right. exact Hkv.
    + rewrite keys_app. cbn. rewrite <- app_assoc. exact Hnd.
Qed.

(** X12. When the names of the listed containers are pairwise distinct and
    none of them is an array index (a canonical decimal number), the
    name-to-id map enumerates the containers exactly in listing order: its
    keys are the names and its values the ids, position by position. *)
Theorem listing_order_kept :
  forall (containers : list ContainerInfo),
    (forall c, In c containers -> JsObject.array_index (map_key c) = None) ->
    NoDup (map map_key containers) ->
    let containerMap :=
      JsObject.fromEntries (map (fun c => (map_key c, Id c)) containers) in
    JsObject.entries containerMap
    = map (fun c => (map_key c, Id c)) containers
    /\ JsObject.keys containerMap = map map_key containers
    /\ JsObject.values containerMap = map Id containers.
Proof.
  intros containers Hplain Hnd containerMap.
  assert (Heq : containerMap = map (fun c => (map_key c, Id c)) containers).
  { unfold containerMap, JsObject.fromEntries.
    rewrite assign_all_plain; [reflexivity | |].
    - intros kv Hkv. apply in_map_iff in Hkv.
      destruct Hkv as [c [<- Hc]]. apply Hplain. exact Hc.
    - cbn. rewrite map_keys_of_listing. exact Hnd. }
  split; [exact Heq|]. rewrite Heq. split.
  - apply map_keys_of_listing.
  - unfold JsObject.values. rewrite map_map. reflexivity.
Qed.

(** The containers [a], [b], [c]. *)
Lemma listing_order_kept_witness :
  JsObject.entries
    (JsObject.fromEntries
       (map (fun c => (map_key c, Id c)) Scenario.three))
  = map (fun c => (map_key c, Id c)) Scenario.three
  /\ JsObject.keys
       (JsObject.fromEntries
          (map (fun c => (map_key c, Id c)) Scenario.three))
     = map map_key Scenario.three
  /\ JsObject.values
       (JsObject.fromEntries
          (map (fun c => (map_key c, Id c)) Scenario.three))
     = map Id Scenario.three.
Proof.
  apply (listing_order_kept Scenario.three).
  - intros c [<- | [<- | [<- | []]]]; reflexivity.
  - repeat constructor; cbn; intuition discriminate.
Defined.

Lemma map_key_nonempty (c : ContainerInfo) : map_key c <> "".
Proof.
  unfold map_key, Js.or_default.
  destruct (Names c) as [[|n ns]|]; try discriminate.
  destruct (Js.truthy (Js.remove_first "/" n)) eqn:Ht; [|discriminate].
  intros Heq. rewrite Heq in Ht. discriminate Ht.
Qed.

Lemma in_map_split_last {A} (f : A -> string) (k : string) (l : list A) :
  In k (map f l) ->
  exists pre c post,
    l = pre ++ c :: post /\ f c = k /\ ~ In k (map f post).
Proof.
  induction l as [|a r IH]; [intros []|].
  intros Hin.
  destruct (in_dec string_dec k (map f r)) as [Hlater | Hnot].
  - destruct (IH Hlater) as [pre [c [post [-> [Hc Hpost]]]]].
    exists (a :: pre), c, post. repeat split; assumption.
  - destruct Hin as [Ha | Hr]; [|contradiction].
    exists [], a, r. repeat split; assumption.
Qed.

Lemma fromEntries_get_last (pre post : list ContainerInfo)
      (c : ContainerInfo) :
  ~ In (map_key c) (map map_key post) ->
  JsObject.get (map_key c)
    (JsObject.fromEntries
       (map (fun x => (map_key x, Id x)) (pre ++ c :: post)))
  = Some (Id c).
Proof.
  intros Hpost. unfold JsObject.fromEntries.
  rewrite map_app. cbn [map].
  rewrite assign_all_app, assign_all_cons, assign_all_get_untouched.
  - apply get_set_same.
  - rewrite map_keys_of_listing. exact Hpost.
Qed.

(** X13. Every name the prompt offers besides "All" is a non-empty text and
    resolves, through the name-to-id map, to the id of a listed container
    that normalises to this name: the last such container of the listing. *)
Theorem every_choice_resolves :
  forall (containers : list ContainerInfo) (k : string),
    let containerMap :=
      JsObject.fromEntries (map (fun c => (map_key c, Id c)) containers) in
    In k (JsObject.keys containerMap) ->
    In k (getContainerChoices containerMap)
    /\ k <> ""
    /\ exists pre c post,
         containers = pre ++ c :: post
         /\ map_key c = k
         /\ ~ In k (map map_key post)
         /\ selected_id containerMap k = Id c.
Proof.
  intros containers k containerMap Hk.
  assert (Hname : In k (map map_key containers)).
  { unfold containerMap, JsObject.fromEntries in Hk.
    apply assign_all_keys_In in Hk. rewrite map_keys_of_listing in Hk.
    destruct Hk as [Hk | []]. exact Hk. }
  destruct (in_map_split_last map_key k containers Hname)
    as [pre [c [post [Hsplit [Hc Hpost]]]]].
  split; [right; exact Hk|]. split.
  - rewrite <- Hc. apply map_key_nonempty.
  - exists pre, c, post. repeat split; try assumption.
    unfold selected_id, containerMap. rewrite Hsplit, <- Hc.
    rewrite fromEntries_get_last; [reflexivity|].
    rewrite Hc. exact Hpost.
Qed.

(** Two containers named [web]: the choice [web] resolves to the second. *)
Lemma every_choice_resolves_witness :
  In "web" (getContainerChoices
              (JsObject.fromEntries
                 (map (fun c => (map_key c, Id c)) Scenario.twins)))
  /\ "web" <> ""
  /\ exists pre c post,
       Scenario.twins = pre ++ c :: post
       /\ map_key c = "web"
       /\ ~ In "web" (map map_key post)
       /\ selected_id
            (JsObject.fromEntries
               (map (fun c => (map_key c, Id c)) Scenario.twins)) "web"
          = Id c.
Proof.
  apply (every_choice_resolves Scenario.twins "web").
  left. reflexivity.
Defined.

(** ** The ports of one container *)

(** X14. For a container that can be inspected, [getContainerPorts] returns
    one text per port that has at least one binding, in the order of the
    ports and with no port left out: the port's bindings, each rendered as
    HostIp:HostPort->port, joined by a comma and a space. Ports without
    bindings contribute nothing, and no returned text is empty. *)
Theorem getContainerPorts_one_text_per_bound_port :
  forall (W : Type) (E : Engine W) (id : string) (s : State W)
         (d : InspectData) (w1 : W),
    id <> "" ->
    inspect E id (world s) = (Ok d, w1) ->
    let ports := match Ports d with Some p => p | None => [] end in
    getContainerPorts E id s
    = (Returned
         (map (fun p =>
                 Js.join ", " (map (format_binding (fst p)) (bindings_of p)))
              (filter has_bindings ports)),
       mkState w1 (trace s ++ [EvInspect id]))
    /\ Forall (fun t => t <> "")
              (map (fun p =>
                      Js.join ", "
                        (map (format_binding (fst p)) (bindings_of p)))
                   (filter has_bindings ports)).
Proof.
  intros W E id s d w1 Hid Hins ports. split.
  - unfold getContainerPorts. rewrite (invalid_arg_false _ Hid).
    apply try_catch_Returned.
    rewrite (bind_Returned _ _ _ _ _ (call_Ok _ _ _ _ _ Hins)).
    fold ports. rewrite format_ports_filter. reflexivity.
  - apply Forall_forall. intros t Ht. apply in_map_iff in Ht.
    destruct Ht as [[cp bs] [<- Hp]]. apply filter_In in Hp.
    destruct Hp as [_ Hb]. unfold has_bindings, bindings_of in *.
    cbn [fst snd] in *. destruct bs as [[|b bs]|]; try discriminate Hb.
    intros Hempty.
    pose proof (join_truthy ", " (format_binding cp b)
                  (map (format_binding cp) bs)
                  (format_binding_truthy cp b)) as Ht.
    cbn [map] in Hempty. rewrite Hempty in Ht. discriminate Ht.
Qed.

(** A port bound on two addresses, a port without bindings, and a port bound
    once. *)
Lemma getContainerPorts_one_text_witness :
  getContainerPorts Cases.web_with_ports "idw" Scenario.start
  = (Returned ["0.0.0.0:8080->80/tcp, :::8080->80/tcp";
               "0.0.0.0:8443->443/tcp"],
     mkState tt [EvInspect "idw"]).
Proof.
  apply (proj1 (getContainerPorts_one_text_per_bound_port unit
                  Cases.web_with_ports "idw" Scenario.start
                  (mkInspect (Some "/web") true "running" None
                     (Some Cases.some_ports)) tt
                  ltac:(discriminate) eq_refl)).
Defined.

(** ** What a run may do to the outside world *)

Section Emissions.

Context {W : Type}.

Lemma emits_only_ret {A} P (a : A) : emits_only P (@ret W A a).
Proof. intros s. exists []. rewrite app_nil_r. split; [reflexivity|constructor]. Qed.

Lemma emits_only_throw {A} P e : emits_only P (@throw W A e).
Proof. intros s. exists []. rewrite app_nil_r. split; [reflexivity|constructor]. Qed.

Lemma emits_only_process_exit {A} P c : emits_only P (@process_exit W A c).
Proof. intros s. exists []. rewrite app_nil_r. split; [reflexivity|constructor]. Qed.

Lemma emits_only_emit (P : Event -> Prop) ev : P ev -> emits_only P (@emit W ev).
Proof.
  intros Hev s. exists [ev]. split; [reflexivity|].
  constructor; [exact Hev | constructor].
Qed.

Lemma emits_only_call {A} (P : Event -> Prop) ev (oracle : W -> Reply A * W) :
  P ev -> emits_only P (call ev oracle).
Proof.
  intros Hev s. exists [ev]. unfold call.
  destruct (oracle (world s)) as [[a | e] w1];
    (split; [reflexivity | constructor; [exact Hev | constructor]]).
Qed.

Lemma emits_only_bind_post {A B} P (m : M W A) (k : A -> M W B) :
  emits_only P m ->
  (forall s a s', m s = (Returned a, s') -> emits_only P (k a)) ->
  emits_only P (bind m k).
Proof.
  intros Hm Hk s. destruct (Hm s) as [evs1 [Ht1 Hp1]]. unfold bind.
  destruct (m s) as [[a | e | c] s1] eqn:Hms; cbn [snd] in Ht1.
  - destruct (Hk s a s1 Hms s1) as [evs2 [Ht2 Hp2]].
    exists (evs1 ++ evs2). split.
    + rewrite Ht2, Ht1, app_assoc. reflexivity.
    + apply Forall_app. split; assumption.
  - exists evs1. split; assumption.
  - exists evs1. split; assumption.
Qed.

Lemma emits_only_bind {A B} P (m : M W A) (k : A -> M W B) :
  emits_only P m -> (forall a, emits_only P (k a)) ->
  emits_only P (bind m k).
Proof. intros Hm Hk. apply emits_only_bind_post; auto. Qed.

Lemma emits_only_try_catch {A} P (m : M W A) h :
  emits_only P m -> (forall e, emits_only P (h e)) ->
  emits_only P (try_catch m h).
Proof.
  intros Hm Hh s. destruct (Hm s) as [evs1 [Ht1 Hp1]]. unfold try_catch.
  destruct (m s) as [[a | e | c] s1] eqn:Hms; cbn [snd] in Ht1.
  - exists evs1. split; assumption.
  - destruct (Hh e s1) as [evs2 [Ht2 Hp2]].
    exists (evs1 ++ evs2). split.
    + rewrite Ht2, Ht1, app_assoc. reflexivity.
    + apply Forall_app. split; assumption.
  - exists evs1. split; assumption.
Qed.

Lemma emits_only_if {A} P (b : bool) (m1 m2 : M W A) :
  emits_only P m1 -> emits_only P m2 ->
  emits_only P (if b then m1 else m2).
Proof. destruct b; trivial. Qed.

Lemma emits_only_weaken {A} (P Q : Event -> Prop) (m : M W A) :
  (forall ev, P ev -> Q ev) -> emits_only P m -> emits_only Q m.
Proof.
  intros HPQ Hm s. destruct (Hm s) as [evs [Ht Hp]].
  exists evs. split; [exact Ht|].
  eapply Forall_impl; [|exact Hp]. exact HPQ.
Qed.

Lemma console_event_cases (P : Event -> Prop) label e :
  (forall l, P (EvStderr l)) -> (forall l x, P (EvStderrError l x)) ->
  P (console_event label e).
Proof.
  intros H1 H2. unfold console_event. destruct (Js.truthy (err_message e)); auto.
Qed.

Lemma emits_only_console_error (P : Event -> Prop) label e :
  (forall l, P (EvStderr l)) -> (forall l x, P (EvStderrError l x)) ->
  emits_only P (@console_error W label e).
Proof.
  intros H1 H2. unfold console_error. apply emits_only_emit.
  apply console_event_cases; assumption.
Qed.

End Emissions.

Create HintDb emits.
#[export] Hint Resolve emits_only_ret emits_only_throw emits_only_process_exit
  emits_only_if : emits.

Lemma command_for_known (osType : string) : known_command (command_for osType).
Proof.
  unfold command_for, known_command.
  destruct (Js.includes "win" osType); [right | left]; reflexivity.
Qed.

Section PipelineEvents.

Context {W : Type} (E : Engine W).

Lemma getLocation_events id ip :
  DigitsAndDots ip ->
  emits_only (pipeline_event (env_DEBUG E) id) (getLocation E ip).
Proof.
  intros Hip. unfold getLocation. apply emits_only_if; [auto with emits|].
  apply emits_only_try_catch.
  - apply emits_only_bind.
    + apply emits_only_call. exists ip. split; [reflexivity | exact Hip].
    + intros resp. apply emits_only_bind.
      * destruct (json resp); auto with emits.
      * intros [ | | st co ci]; auto with emits.
  - intros e. apply emits_only_bind; [|auto with emits].
    destruct (env_DEBUG E) eqn:Hd; [|auto with emits].
    apply emits_only_console_error; reflexivity.
Qed.

Lemma getPublicIP_events id :
  emits_only (pipeline_event (env_DEBUG E) id)
    (getPublicIP (runCommand E) (Some (getContainerOsType E)) id).
Proof.
  unfold getPublicIP. apply emits_only_if; [auto with emits|].
  apply emits_only_bind.
  - unfold getContainerOsType. apply emits_only_if; [auto with emits|].
    apply emits_only_try_catch; [|auto with emits].
    apply emits_only_bind; [|auto with emits].
    apply emits_only_call. reflexivity.
  - intros osType. apply emits_only_bind; [|intros r; auto with emits].
    unfold runCommand. apply emits_only_if; [auto with emits|].
    apply emits_only_try_catch; [|auto with emits].
    apply emits_only_bind; [|auto with emits].
    apply emits_only_call. split; [reflexivity | apply command_for_known].
Qed.

Lemma getContainerStatus_events id :
  emits_only (pipeline_event (env_DEBUG E) id) (getContainerStatus E id).
Proof.
  unfold getContainerStatus. apply emits_only_if; [auto with emits|].
  apply emits_only_try_catch; [|auto with emits].
  apply emits_only_bind; [apply emits_only_call; reflexivity|].
  intros d. apply emits_only_if; [auto with emits|].
  apply emits_only_bind_post; [apply getPublicIP_events|].
  intros s ip s' Hip. apply emits_only_bind; [|auto with emits].
  destruct ip as [a|]; [|auto with emits].
  apply emits_only_if; [|auto with emits].
  apply getLocation_events. apply test_digits_dots_spec.
  eapply getPublicIP_Some_inv. exact Hip.
Qed.

End PipelineEvents.

(** The same, for the pipeline taken step by step. *)
Lemma proc_returns_pbind {A B} (Q : B -> Prop) (p : Proc A)
      (f : A -> Proc B) :
  (forall a, proc_returns Q (f a)) -> proc_returns Q (pbind p f).
Proof.
  intros Hf.
  induction p as [a | e | ev k IH | id k IH | id cmd k IH | url k IH];
    cbn [proc_returns pbind]; auto.
Qed.

Lemma proc_emits_pbind_post {A B} P (Q : A -> Prop) (p : Proc A)
      (f : A -> Proc B) :
  proc_emits P p -> proc_returns Q p ->
  (forall a, Q a -> proc_emits P (f a)) ->
  proc_emits P (pbind p f).
Proof.
  intros H HQ Hf.
  induction p as [a | e | ev k IH | id k IH | id cmd k IH | url k IH];
    cbn [proc_emits proc_returns pbind] in *.
  - apply Hf. exact HQ.
  - exact I.
  - destruct H as [H1 H2]. split; auto.
  - destruct H as [H1 H2]. split; auto.
  - destruct H as [H1 H2]. split; auto.
  - destruct H as [H1 H2]. split; auto.
Qed.

Lemma getPublicIP_steps_returns id :
  proc_returns (fun ip => forall a, ip = Some a -> DigitsAndDots a)
    (getPublicIP_steps runCommand_steps (Some getContainerOsType_steps) id).
Proof.
  unfold getPublicIP_steps. destruct (invalid_arg id); [exact I|].
  apply proc_returns_pbind. intros os.
  apply proc_returns_pbind. intros r.
  destruct (exit_zero (exitCode r)
            && Js.test_digits_dots (Js.trim (output r))) eqn:Hok;
    cbn [proc_returns]; intros a Ha; [|discriminate Ha].
  injection Ha as <-. apply test_digits_dots_spec.
  apply andb_true_iff in Hok. apply Hok.
Qed.

Lemma getPublicIP_steps_events debug id :
  proc_emits (pipeline_event debug id)
    (getPublicIP_steps runCommand_steps (Some getContainerOsType_steps) id).
Proof.
  unfold getPublicIP_steps. destruct (invalid_arg id); [exact I|].
  apply proc_emits_pbind.
  - unfold getContainerOsType_steps. destruct (invalid_arg id); [exact I|].
    apply proc_emits_ptry; [|intros e; exact I].
    apply proc_emits_pbind; [|intros d; exact I].
    split; [reflexivity | intros r; apply proc_emits_answered].
  - intros os. apply proc_emits_pbind.
    + unfold runCommand_steps. destruct (invalid_arg id); [exact I|].
      apply proc_emits_ptry; [|intros e; exact I].
      apply proc_emits_pbind; [|intros raw; exact I].
      split; [|intros r; apply proc_emits_answered].
      split; [reflexivity | apply command_for_known].
    + intros r.
      destruct (exit_zero (exitCode r)
                && Js.test_digits_dots (Js.trim (output r))); exact I.
Qed.

Lemma getLocation_steps_events debug id ip :
  DigitsAndDots ip ->
  proc_emits (pipeline_event debug id) (getLocation_steps debug ip).
Proof.
  intros Hip. unfold getLocation_steps. destruct (invalid_arg ip); [exact I|].
  apply proc_emits_ptry.
  - apply proc_emits_pbind.
    + split; [|intros r; apply proc_emits_answered].
      exists ip. split; [reflexivity | exact Hip].
    + intros resp. apply proc_emits_pbind; [apply proc_emits_answered|].
      intros [ | | st co ci]; try exact I.
      destruct (match st with Some s0 => s0 =? "fail" | None => false end);
        exact I.
  - intros e. destruct debug; [|exact I].
    split; [|exact I]. apply console_event_cases; reflexivity.
Qed.

Lemma getContainerStatus_steps_events debug id :
  proc_emits (pipeline_event debug id) (getContainerStatus_steps debug id).
Proof.
  unfold getContainerStatus_steps. destruct (invalid_arg id); [exact I|].
  apply proc_emits_ptry; [|intros e; exact I].
  apply proc_emits_pbind.
  - split; [reflexivity | intros r; apply proc_emits_answered].
  - intros d. destruct (negb (Running d)); [exact I|].
    apply proc_emits_pbind_post
      with (Q := fun ip => forall a, ip = Some a -> DigitsAndDots a).
    + apply getPublicIP_steps_events.
    + apply getPublicIP_steps_returns.
    + intros ip Hip. apply proc_emits_pbind; [|intros loc; exact I].
      destruct ip as [a|]; [|exact I].
      destruct (Js.truthy a); [|exact I].
      apply getLocation_steps_events. apply Hip. reflexivity.
Qed.

(** X15. A status pipeline touches nothing but its own container: every
    call it makes is an inspect of its own id, an exec in its own id of one
    of the two fixed commands, or a geolocation request for a text of digits
    and dots. It lists nothing, prompts for nothing and prints nothing, and
    it writes to the error stream only when DEBUG is set. *)
Theorem pipeline_touches_only_its_container :
  forall (W : Type) (E : Engine W) (id : string) (s : State W),
  exists evs,
    trace (snd (getContainerStatus E id s)) = trace s ++ evs
    /\ Forall (pipeline_event (env_DEBUG E) id) evs.
Proof. intros W E id s. exact (getContainerStatus_events E id s). Qed.

Lemma pipeline_event_program debug id ev :
  pipeline_event debug id ev -> program_event ev.
Proof.
  destruct ev; cbn; try tauto.
Qed.

Section ProgramEvents.

Context {W : Type} (E : Engine W).

Lemma getContainerPorts_events (P : Event -> Prop) id :
  (forall i, P (EvInspect i)) -> emits_only P (getContainerPorts E id).
Proof.
  intros Hins. unfold getContainerPorts.
  apply emits_only_if; [auto with emits|].
  apply emits_only_try_catch; [|auto with emits].
  apply emits_only_bind; [|auto with emits].
  apply emits_only_call. apply Hins.
Qed.

Lemma portRows_loop_events (P : Event -> Prop) entries : forall acc,
  (forall i, P (EvInspect i)) -> emits_only P (portRows_loop E entries acc).
Proof.
  induction entries as [|[name id] rest IH]; intros acc Hins.
  - apply emits_only_ret.
  - cbn [portRows_loop]. apply emits_only_bind.
    + unfold port_row. apply emits_only_try_catch; [|auto with emits].
      apply emits_only_bind; [|auto with emits].
      apply getContainerPorts_events. exact Hins.
    + intros row. apply IH. exact Hins.
Qed.

Lemma listContainerPorts_events (P : Event -> Prop) containerMap :
  (forall i, P (EvInspect i)) ->
  (forall l, P (EvStdout l)) ->
  (forall rows, P (EvPortsTable rows)) ->
  emits_only P (listContainerPorts E containerMap).
Proof.
  intros Hins Hout Htab. unfold listContainerPorts, JsObject.entries.
  destruct containerMap as [|x r].
  - apply emits_only_emit. apply Hout.
  - apply emits_only_bind.
    + apply portRows_loop_events. exact Hins.
    + intros rows. apply emits_only_emit. apply Htab.
Qed.

Lemma isDockerRunning_events (P : Event -> Prop) :
  P EvPing -> (forall l, P (EvStderr l)) ->
  (forall l x, P (EvStderrError l x)) ->
  emits_only P (isDockerRunning E).
Proof.
  intros Hping Herr Hobj. unfold isDockerRunning. apply emits_only_try_catch.
  - apply emits_only_bind; [|auto with emits].
    apply emits_only_call. exact Hping.
  - intros e. apply emits_only_bind; [|auto with emits].
    apply emits_only_if; [|auto with emits].
    apply emits_only_console_error; assumption.
Qed.

Lemma getContainerMap_events (P : Event -> Prop) :
  P EvListContainers -> emits_only P (getContainerMap E).
Proof.
  intros Hls. unfold getContainerMap.
  apply emits_only_try_catch; [|auto with emits].
  apply emits_only_bind; [|auto with emits].
  apply emits_only_call. exact Hls.
Qed.

Lemma getSelectedContainerResults_events containerMap :
  emits_only program_event (getSelectedContainerResults E containerMap).
Proof.
  intros s.
  destruct (prompt E (getContainerChoices containerMap) (world s))
    as [[selected | e] w1] eqn:Hp.
  - destruct (string_dec selected "All") as [-> | Hsel].
    + rewrite (getSelectedContainerResults_All E containerMap s w1 Hp).
      destruct (emits_only_Promise_all E program_event pipeline_requests
                  (map (getContainerStatus_steps (env_DEBUG E))
                       (JsObject.values containerMap))) with
        (s := mkState w1
                (trace s ++ [EvPrompt (getContainerChoices containerMap)]))
        as [evs [Ht Hev]].
      * apply Forall_forall. intros p Hin. apply in_map_iff in Hin.
        destruct Hin as [id [<- _]].
        apply proc_emits_impl
          with (P := pipeline_event (env_DEBUG E) id);
          [apply pipeline_event_program
          | apply getContainerStatus_steps_events].
      * exists (EvPrompt (getContainerChoices containerMap) :: evs).
        split; [|constructor; [exact I | exact Hev]].
        rewrite Ht. cbn [trace]. rewrite <- app_assoc. reflexivity.
    + rewrite (getSelectedContainerResults_one E containerMap s selected w1
                 Hp Hsel).
      destruct (getContainerStatus_events E
                  (selected_id containerMap selected)
                  (mkState w1
                     (trace s
                      ++ [EvPrompt (getContainerChoices containerMap)])))
        as [evs [Ht Hev]].
      apply (Forall_impl program_event
               (pipeline_event_program (env_DEBUG E)
                  (selected_id containerMap selected))) in Hev.
      cbn [trace] in Ht.
      destruct (getContainerStatus E _ _) as [[row | e | c] s2];
        cbn [snd trace] in Ht |- *.
      * exists (EvPrompt (getContainerChoices containerMap) :: evs).
        split; [|constructor; [exact I | exact Hev]].
        rewrite Ht, <- app_assoc. reflexivity.
      * exists (EvPrompt (getContainerChoices containerMap)
                :: evs ++ [console_event "Prompt failed:" e]).
        split.
        -- rewrite Ht, <- !app_assoc. reflexivity.
        -- constructor; [exact I|]. apply Forall_app. split; [exact Hev|].
           constructor; [|constructor].
           apply console_event_cases; intros; exact I.
      * exists (EvPrompt (getContainerChoices containerMap) :: evs).
        split; [|constructor; [exact I | exact Hev]].
        rewrite Ht, <- app_assoc. reflexivity.
  - rewrite (getSelectedContainerResults_prompt_failure_steps E containerMap
               s e w1 Hp).
    eexists. split; [reflexivity|].
    constructor; [exact I|]. constructor; [|constructor].
    apply console_event_cases; intros; exact I.
Qed.

End ProgramEvents.

(** X16. In a whole run of [main], whatever the arguments, the engine and
    the user do, the only commands ever executed inside a container are
    [sh -c "curl -s https://api.ipify.org"] and
    [curl -s https://api.ipify.org], and the only requests ever sent out are
    geolocation lookups of a text of digits and dots. *)
Theorem main_runs_only_known_commands :
  forall (W : Type) (E : Engine W) (args : list string) (s : State W),
  exists evs,
    trace (snd (main E args s)) = trace s ++ evs
    /\ Forall program_event evs.
Proof.
  intros W E args.
  change (emits_only program_event (main E args)).
  unfold main. apply emits_only_if.
  { apply emits_only_emit. exact I. }
  apply emits_only_bind.
  { apply isDockerRunning_events; intros; exact I. }
  intros running. apply emits_only_if.
  { apply emits_only_bind; [apply emits_only_emit; exact I|].
    auto with emits. }
  apply emits_only_try_catch.
  - apply emits_only_bind; [apply getContainerMap_events; exact I|].
    intros containerMap.
    destruct (JsObject.keys containerMap);
      [apply emits_only_emit; exact I|].
    apply emits_only_if.
    + apply listContainerPorts_events; intros; exact I.
    + apply emits_only_bind;
        [apply getSelectedContainerResults_events|].
      intros rows. apply emits_only_emit. exact I.
  - intros e.
    apply emits_only_bind;
      [apply emits_only_console_error; intros; exact I|].
    auto with emits.
Qed.

(** X17. A run with [--ports] or [-p] is read-only: it executes nothing in
    any container, contacts no geolocation service, never prompts and prints
    no status table; it only pings, lists, inspects and prints. *)
Theorem ports_mode_is_read_only :
  forall (W : Type) (E : Engine W) (args : list string) (s : State W),
    wants_ports args ->
    exists evs,
      trace (snd (main E args s)) = trace s ++ evs
      /\ Forall read_only_event evs.
Proof.
  intros W E args s Hports. revert s.
  change (emits_only read_only_event (main E args)).
  unfold main. rewrite (ports_flag_true _ Hports).
  apply emits_only_if.
  { apply emits_only_emit. exact I. }
  apply emits_only_bind.
  { apply isDockerRunning_events; intros; exact I. }
  intros running. apply emits_only_if.
  { apply emits_only_bind; [apply emits_only_emit; exact I|].
    auto with emits. }
  apply emits_only_try_catch.
  - apply emits_only_bind; [apply getContainerMap_events; exact I|].
    intros containerMap.
    destruct (JsObject.keys containerMap);
      [apply emits_only_emit; exact I|].
    apply listContainerPorts_events; intros; exact I.
  - intros e.
    apply emits_only_bind;
      [apply emits_only_console_error; intros; exact I|].
    auto with emits.
Qed.

(** Three containers, one of which cannot be inspected. *)
Lemma ports_mode_is_read_only_witness :
  exists evs,
    trace (snd (main Scenario.with_ports ["--ports"] Scenario.start))
    = [] ++ evs
    /\ Forall read_only_event evs.
Proof.
  apply (ports_mode_is_read_only unit Scenario.with_ports ["--ports"]
           Scenario.start).
  left. left. reflexivity.
Defined.

(** ** What the row of a container depends on *)

Section Extensionality.

Context {W : Type}.

Lemma call_ext {A} ev (o1 o2 : W -> Reply A * W) :
  (forall w, o1 w = o2 w) -> forall s, call ev o1 s = call ev o2 s.
Proof. intros H s. unfold call. rewrite H. reflexivity. Qed.

Lemma bind_ext {A B} (m1 m2 : M W A) (k1 k2 : A -> M W B) :
  (forall s, m1 s = m2 s) -> (forall a s, k1 a s = k2 a s) ->
  forall s, bind m1 k1 s = bind m2 k2 s.
Proof.
  intros Hm Hk s. unfold bind. rewrite Hm.
  destruct (m2 s) as [[a | e | c] s1]; [apply Hk | reflexivity | reflexivity].
Qed.

Lemma try_catch_ext {A} (m1 m2 : M W A) (h1 h2 : JsError -> M W A) :
  (forall s, m1 s = m2 s) -> (forall e s, h1 e s = h2 e s) ->
  forall s, try_catch m1 h1 s = try_catch m2 h2 s.
Proof.
  intros Hm Hh s. unfold try_catch. rewrite Hm.
  destruct (m2 s) as [[a | e | c] s1]; [reflexivity | apply Hh | reflexivity].
Qed.

Variables E1 E2 : Engine W.
Variable id : string.
Hypothesis same_inspect : forall w, inspect E1 id w = inspect E2 id w.
Hypothesis same_exec : forall cmd w, exec E1 id cmd w = exec E2 id cmd w.
Hypothesis same_fetch : forall url w, fetch E1 url w = fetch E2 url w.
Hypothesis same_debug : env_DEBUG E1 = env_DEBUG E2.

Lemma runCommand_same cmd s : runCommand E1 id cmd s = runCommand E2 id cmd s.
Proof.
  unfold runCommand. destruct (invalid_arg id); [reflexivity|].
  apply try_catch_ext; [|reflexivity].
  apply bind_ext; [|reflexivity]. apply call_ext. apply same_exec.
Qed.

Lemma getContainerOsType_same s :
  getContainerOsType E1 id s = getContainerOsType E2 id s.
Proof.
  unfold getContainerOsType. destruct (invalid_arg id); [reflexivity|].
  apply try_catch_ext; [|reflexivity].
  apply bind_ext; [|reflexivity]. apply call_ext. apply same_inspect.
Qed.

Lemma getLocation_same ip s : getLocation E1 ip s = getLocation E2 ip s.
Proof.
  unfold getLocation. destruct (invalid_arg ip); [reflexivity|].
  apply try_catch_ext.
  - apply bind_ext; [|reflexivity]. apply call_ext. apply same_fetch.
  - intros e s0. rewrite same_debug. reflexivity.
Qed.

Lemma getPublicIP_same s :
  getPublicIP (runCommand E1) (Some (getContainerOsType E1)) id s
  = getPublicIP (runCommand E2) (Some (getContainerOsType E2)) id s.
Proof.
  unfold getPublicIP. destruct (invalid_arg id); [reflexivity|].
  apply bind_ext; [apply getContainerOsType_same|].
  intros osType s0. apply bind_ext; [apply runCommand_same | reflexivity].
Qed.

Lemma getContainerStatus_same s :
  getContainerStatus E1 id s = getContainerStatus E2 id s.
Proof.
  unfold getContainerStatus. destruct (invalid_arg id); [reflexivity|].
  apply try_catch_ext; [|reflexivity].
  apply bind_ext; [apply call_ext; apply same_inspect|].
  intros d s0. destruct (negb (Running d)); [reflexivity|].
  apply bind_ext; [apply getPublicIP_same|].
  intros ip s1. apply bind_ext; [|reflexivity].
  destruct ip as [a|]; [|reflexivity].
  destruct (Js.truthy a); [apply getLocation_same | reflexivity].
Qed.

End Extensionality.

(** X18. The outcome of a container's pipeline depends only on what the
    engine answers about that container and on what the geolocation service
    answers: two engines that agree on the inspect and exec answers for this
    id, on the lookups and on the DEBUG setting give the same row (or the
    same error) and the same calls, however they differ about every other
    container. *)
Theorem pipeline_depends_on_own_container_only :
  forall (W : Type) (E1 E2 : Engine W) (id : string),
    (forall w, inspect E1 id w = inspect E2 id w) ->
    (forall cmd w, exec E1 id cmd w = exec E2 id cmd w) ->
    (forall url w, fetch E1 url w = fetch E2 url w) ->
    env_DEBUG E1 = env_DEBUG E2 ->
    forall s, getContainerStatus E1 id s = getContainerStatus E2 id s.
Proof.
  intros W E1 E2 id Hins Hex Hfetch Hdebug s.
  apply getContainerStatus_same; assumption.
Qed.

(** The engine in which the exec call of [b] is rejected and the engine in
    which it succeeds give container [a] the same row. *)
Lemma pipeline_depends_on_own_container_witness :
  getContainerStatus Scenario.exec_b_throws "ida" Scenario.start
  = getContainerStatus Scenario.all_fine "ida" Scenario.start.
Proof.
  apply (pipeline_depends_on_own_container_only unit
           Scenario.exec_b_throws Scenario.all_fine "ida").
  - reflexivity.
  - reflexivity.
  - reflexivity.
  - reflexivity.
Defined.

(** ** The shapes a status row can take *)

Lemma getLocation_Returned_inv {W} (E : Engine W) ip s loc s' :
  getLocation E ip s = (Returned loc, s') ->
  loc = "Unknown" \/ loc = "Lookup Failed"
  \/ exists country city, loc = (country ++ ", " ++ city)%string.
Proof.
  unfold getLocation. destruct (invalid_arg ip); [discriminate|].
  unfold try_catch, bind, call, throw, ret, emit.
  destruct (fetch E _ (world s)) as [[resp | e] w'].
  - destruct (json resp) as [[ | | st co ci] | e].
    + destruct (env_DEBUG E); intros H; injection H as <- _; auto.
    + intros H; injection H as <- _. right. right.
      exists "undefined", "undefined". reflexivity.
    + destruct (match st with Some s0 => s0 =? "fail" | None => false end);
        intros H; injection H as <- _; [auto|].
      right. right. exists (template co), (template ci). reflexivity.
    + destruct (env_DEBUG E); intros H; injection H as <- _; auto.
  - destruct (env_DEBUG E); intros H; injection H as <- _; auto.
Qed.

(** X19. Every row that status resolution returns has one of three shapes:
    (name, "Container " + status, "Unknown") for a container that is not
    running; (name, "Retrieval failed", "Unknown") when no IP was resolved;
    or (name, ip, location) where the ip is a non-empty text of digits and
    dots and the location is "Unknown", "Lookup Failed" or a text of the form
    country, comma, space, city. *)
Theorem status_row_shapes :
  forall (W : Type) (E : Engine W) (id : string) (s s' : State W)
         (name ipOrStatus location : string),
    getContainerStatus E id s = (Returned (name, ipOrStatus, location), s') ->
    (exists status,
        ipOrStatus = ("Container " ++ status)%string
        /\ location = "Unknown")
    \/ (ipOrStatus = "Retrieval failed" /\ location = "Unknown")
    \/ (DigitsAndDots ipOrStatus
        /\ (location = "Unknown" \/ location = "Lookup Failed"
            \/ exists country city,
                 location = (country ++ ", " ++ city)%string)).
Proof.
  intros W E id s s' name ipOrStatus location Hrun.
  unfold getContainerStatus in Hrun.
  destruct (invalid_arg id); [discriminate Hrun|].
  apply try_rethrow_Returned_inv
    with (wrap := fun err =>
                    new_Error ("Failed to get status for container " ++ id
                               ++ ": " ++ message_or_self err)) in Hrun.
  apply bind_Returned_inv in Hrun. destruct Hrun as [d [s1 [_ Hrun]]].
  destruct (Running d); cbn [negb] in Hrun.
  - apply bind_Returned_inv in Hrun. destruct Hrun as [ip [s2 [Hip Hrun]]].
    apply bind_Returned_inv in Hrun. destruct Hrun as [loc [s3 [Hloc Hrun]]].
    injection Hrun as _ Hfield Hl _. subst loc.
    destruct ip as [a|].
    + subst ipOrStatus. right. right.
      assert (Hdd : DigitsAndDots a).
      { apply test_digits_dots_spec. eapply getPublicIP_Some_inv.
        exact Hip. }
      split; [exact Hdd|].
      rewrite (DigitsAndDots_truthy _ Hdd) in Hloc.
      eapply getLocation_Returned_inv. exact Hloc.
    + injection Hloc as Hl _. right. left.
      split; symmetry; [exact Hfield | exact Hl].
  - injection Hrun as _ Hfield Hl _. left.
    exists (Status d). split; symmetry; [exact Hfield | exact Hl].
Qed.

(** The rows of the exited container [db]. *)
Lemma status_row_shapes_witness :
  (exists status,
      "Container exited" = ("Container " ++ status)%string
      /\ "Unknown" = "Unknown")
  \/ ("Container exited" = "Retrieval failed" /\ "Unknown" = "Unknown")
  \/ (DigitsAndDots "Container exited"
      /\ ("Unknown" = "Unknown" \/ "Unknown" = "Lookup Failed"
          \/ exists country city,
               "Unknown" = (country ++ ", " ++ city)%string)).
Proof.
  apply (status_row_shapes unit Scenario.db_exited "idd" Scenario.start
           (mkState tt [EvInspect "idd"]) "db" "Container exited" "Unknown").
  reflexivity.
Defined.
